(** * EnvSync: drift detection, severity classification and synchronisation

    A shallow embedding of the core of EnvSync:
    - [packages/core/src/types.ts]      the data model,
    - [packages/core/src/compare.ts]    the comparator, classifier, aggregator,
    - [packages/core/src/validators/*]  the per-category set comparisons,
    - [packages/core/src/snapshot.ts]   serialize / deserialize,
    - [packages/sync/src/env-sync.ts]   the synchronisation orchestrator,
    - [packages/core/src/hash.ts]       the snapshot fingerprint,
    - [packages/ci-plugin/src/*], [packages/cli/src/commands/*]
                                        the exit decision of the CI plugins
                                        and of the commands.

    JavaScript objects used as dictionaries ([Record<string,string>]) are
    finite maps; arrays are lists; [string | undefined] is [option string];
    the external commands run by the orchestrator are an explicit effect. *)

From Stdlib Require Import ZArith NArith Ascii String.
From stdpp Require Import gmap strings list fin_maps.

Set Warnings "-register-all".

(* ===================================================================== *)
(** ** JavaScript values and string helpers *)
(* ===================================================================== *)

(** The values stored in [Drift.local] and [Drift.remote] (typed [unknown]):
    the comparator only ever stores [undefined], [null] or a string. *)
Inductive value :=
  | VUndefined
  | VNull
  | VString (s : string).

(** A [string | undefined] read from a dictionary, stored as a value. *)
Definition of_lookup (o : option string) : value :=
  match o with Some s => VString s | None => VUndefined end.

(** A [string | null] field, stored as a value. *)
Definition of_nullable (o : option string) : value :=
  match o with Some s => VString s | None => VNull end.

(** JavaScript truthiness: [undefined], [null] and [""] are falsy. *)
Definition truthy (v : value) : bool :=
  match v with
  | VString s => negb (bool_decide (s = EmptyString))
  | _ => false
  end.

(** [String(v)], as performed by a template literal [`${v}`]. *)
Definition to_string (v : value) : string :=
  match v with
  | VUndefined => "undefined"
  | VNull => "null"
  | VString s => s
  end.

(** [s.split(sep)] for a one-character separator. *)
Fixpoint split_on (sep : ascii) (s : string) : list string :=
  match s with
  | EmptyString => [EmptyString]
  | String c s' =>
      if bool_decide (c = sep) then EmptyString :: split_on sep s'
      else match split_on sep s' with
           | [] => [String c EmptyString]
           | w :: ws => String c w :: ws
           end
  end.

(** [s.replace(pat, rep)] with a string pattern: the first occurrence only. *)
Definition String_replace (pat rep s : string) : string :=
  match String.index 0 pat s with
  | Some i =>
      String.substring 0 i s +:+ rep +:+
      String.substring (i + String.length pat)
                       (String.length s - (i + String.length pat)) s
  | None => s
  end.

(** [s.startsWith(p)] *)
Definition startsWith (s p : string) : bool := String.prefix p s.

(** [new Set(l)]: iteration order is first insertion, duplicates dropped. *)
Fixpoint js_Set (l : list string) : list string :=
  match l with
  | [] => []
  | x :: l' => x :: List.filter (fun y => negb (bool_decide (y = x))) (js_Set l')
  end.

(** [set.has(k)] *)
Definition Set_has (s : list string) (k : string) : bool :=
  bool_decide (k ∈ s).

(** [Object.keys(m)] *)
Definition Object_keys (m : gmap string string) : list string :=
  (map_to_list m).*1.

(** [{...a, ...b}]: the properties of [b] override those of [a]. *)
Definition spread (a b : gmap string string) : gmap string string := b ∪ a.

(* ===================================================================== *)
(** ** The data model ([types.ts]) *)
(* ===================================================================== *)

Inductive EnvironmentType := EnvLocal | EnvStaging | EnvProduction | EnvCi | EnvDocker.

Inductive DriftCategory := CNodejs | CDependency | CEnvvar | CDocker | CBinary.

Inductive DriftSeverity := SNone | SLow | SMedium | SHigh | SCritical.

#[global] Instance DriftCategory_eq_dec : EqDecision DriftCategory.
Proof. solve_decision. Defined.

#[global] Instance DriftSeverity_eq_dec : EqDecision DriftSeverity.
Proof. solve_decision. Defined.

#[global] Instance value_eq_dec : EqDecision value.
Proof. solve_decision. Defined.

(** A JavaScript [Date]: a time value in milliseconds, or Invalid Date. *)
Inductive Date :=
  | DateTime (t : Z)
  | InvalidDate.

(** JSON documents, as [JSON.parse] builds them and [JSON.stringify] walks
    them; numbers are the integers the snapshot holds (sizes, counts). *)
Inductive json :=
  | JNull
  | JBool (b : bool)
  | JNum (n : Z)
  | JStr (s : string)
  | JArr (l : list json)
  | JObj (l : list (string * json)).

Record NodeVersionInfo := {
  nv_version : string;
  nv_npmVersion : string;
  nv_platform : string;
  nv_arch : string;
  nv_v8Version : string;
  nv_modules : string;
  nv_openssl : option string;
}.

Record NativeModuleInfo := {
  nm_name : string;
  nm_path : string;
  nm_platform : string;
  nm_arch : string;
  nm_nodeAbi : string;
  nm_size : Z;
  nm_modified : Date;
}.

Record DependencySnapshot := {
  production : gmap string string;
  development : gmap string string;
  lockfileHash : string;
  nativeModules : list NativeModuleInfo;
}.

Record EnvironmentVariables := {
  variables : gmap string string;
  redacted : list string;
}.

Record DockerImage := {
  img_id : string;
  img_tags : list string;
  img_size : Z;
  img_created : option Date;
}.

Record DockerContainer := {
  ct_id : string;
  ct_name : string;
  ct_image : string;
  ct_state : string;
  ct_ports : option (list json);
}.

Record DockerComposeConfig := {
  cc_file : string;
  cc_version : option string;
  cc_services : list string;
  cc_networks : list string;
  cc_volumes : list string;
}.

Record DockerSnapshot := {
  dk_version : option string;
  dk_platform : option string;
  dk_arch : option string;
  dk_images : list DockerImage;
  dk_containers : list DockerContainer;
  dk_composeConfigs : list DockerComposeConfig;
}.

Record SystemInfo := {
  sys_platform : string;
  sys_arch : string;
  sys_cpus : Z;
  sys_totalMemory : Z;
  sys_freeMemory : Z;
  sys_hostname : string;
}.

Record EnvironmentSnapshot := {
  timestamp : Date;
  environment : EnvironmentType;
  nodeVersion : NodeVersionInfo;
  dependencies : DependencySnapshot;
  envVars : EnvironmentVariables;
  docker : DockerSnapshot;
  system : SystemInfo;
  hash : string;
}.

Record Drift := {
  category : DriftCategory;
  severity : DriftSeverity;
  field : string;
  local : value;
  remote : value;
  impact : string;
  recommendation : string;
}.

Record ByCategory := {
  by_nodejs : nat;
  by_dependency : nat;
  by_envvar : nat;
  by_docker : nat;
  by_binary : nat;
}.

Record DriftSummary := {
  total : nat;
  critical : nat;
  high : nat;
  medium : nat;
  low : nat;
  byCategory : ByCategory;
}.

Record DriftReport := {
  hasDrift : bool;
  report_severity : DriftSeverity;
  drifts : list Drift;
  summary : DriftSummary;
  localSnapshot : EnvironmentSnapshot;
  remoteSnapshot : EnvironmentSnapshot;
}.

(* ===================================================================== *)
(** ** Semantic versions

    [semver.parse] belongs to the external [semver] package; the comparator
    only reads [major], [minor] and [patch] of what it returns.  The
    comparator is therefore parameterised by the parser, and a reference
    instance for the core grammar [v?MAJOR.MINOR.PATCH] is given below. *)
(* ===================================================================== *)

Record SemVer := {
  major : N;
  minor : N;
  patch : N;
}.

Definition is_digit (c : ascii) : bool :=
  let n := nat_of_ascii c in (48 <=? n)%nat && (n <=? 57)%nat.

Fixpoint digits_value (s : string) (acc : N) : option N :=
  match s with
  | EmptyString => Some acc
  | String c s' =>
      if is_digit c
      then digits_value s' (acc * 10 + (N_of_ascii c - 48))%N
      else None
  end.

(** A numeric identifier: [0|[1-9]\d*]. *)
Definition numeric_identifier (s : string) : option N :=
  match s with
  | EmptyString => None
  | String "0"%char EmptyString => Some 0%N
  | String "0"%char _ => None
  | _ => digits_value s 0%N
  end.

Definition strip_v (s : string) : string :=
  match s with
  | String "v"%char s' => s'
  | _ => s
  end.

(** Reference parser for the core grammar (no pre-release, no build tag). *)
Definition semver_core_parse (s : string) : option SemVer :=
  match split_on "."%char (strip_v s) with
  | [a; b; c] =>
      match numeric_identifier a, numeric_identifier b, numeric_identifier c with
      | Some x, Some y, Some z => Some {| major := x; minor := y; patch := z |}
      | _, _, _ => None
      end
  | _ => None
  end.

(* ===================================================================== *)
(** ** The comparator ([compare.ts], [validators/*.ts]) *)
(* ===================================================================== *)

(** Template-literal rendering of a [string | undefined]. *)
Definition tpl (o : option string) : string := to_string (of_lookup o).

Definition tpl_null (o : option string) : string := to_string (of_nullable o).

(** *** [validators/env-vars.ts] *)

Record EnvVarComparison := {
  missing : list string;
  extra : list string;
  different : list string;
}.

(** [compareEnvVars] *)
Definition compareEnvVars (l r : EnvironmentVariables) : EnvVarComparison :=
  let localKeys := js_Set (Object_keys (variables l)) in
  let remoteKeys := js_Set (Object_keys (variables r)) in
  {| missing := List.filter (fun key => negb (Set_has localKeys key)) remoteKeys;
     extra := List.filter (fun key => negb (Set_has remoteKeys key)) localKeys;
     different :=
       List.filter
         (fun key =>
            Set_has remoteKeys key &&
            (let localVal := variables l !! key in
             let remoteVal := variables r !! key in
             negb (bool_decide (localVal = remoteVal))
             && negb (bool_decide (localVal = Some "[REDACTED]"))
             && negb (bool_decide (remoteVal = Some "[REDACTED]"))))
         localKeys |}.

(** *** [validators/docker.ts] *)

Record DockerComparison := {
  versionMismatch : bool;
  missingImages : list string;
  extraImages : list string;
  configDifferences : list string;
}.

(** Decimal digits of a non-negative integer; [fuel] bounds their number. *)
Fixpoint Z_digits (fuel : nat) (n : Z) (acc : string) : string :=
  match fuel with
  | O => acc
  | S fuel' =>
      let acc' := String (ascii_of_nat (48 + Z.to_nat (n mod 10))) acc in
      if (n / 10 =? 0)%Z then acc' else Z_digits fuel' (n / 10) acc'
  end.

(** Decimal rendering of an integer. *)
Definition Z_to_string (n : Z) : string :=
  if (n <? 0)%Z
  then "-" +:+ Z_digits (S (Z.to_nat (Z.log2 (- n)))) (- n) EmptyString
  else Z_digits (S (Z.to_nat (Z.log2 n))) n EmptyString.

(** Decimal rendering of an array length inside a template literal. *)
Definition nat_to_string (n : nat) : string := Z_to_string (Z.of_nat n).

(** [compareDockerConfigs] *)
Definition compareDockerConfigs (l r : DockerSnapshot) : DockerComparison :=
  let localImageTags := js_Set (flat_map img_tags (dk_images l)) in
  let remoteImageTags := js_Set (flat_map img_tags (dk_images r)) in
  {| versionMismatch := negb (bool_decide (dk_version l = dk_version r));
     missingImages :=
       List.filter (fun tag => negb (Set_has localImageTags tag)) remoteImageTags;
     extraImages :=
       List.filter (fun tag => negb (Set_has remoteImageTags tag)) localImageTags;
     configDifferences :=
       if negb (length (dk_composeConfigs l) =? length (dk_composeConfigs r))%nat
       then [ "Compose file count mismatch: "
                +:+ nat_to_string (length (dk_composeConfigs l)) +:+ " vs "
                +:+ nat_to_string (length (dk_composeConfigs r)) ]
       else [] |}.

(** *** [validators/binaries.ts] *)

(** The body of the first loop of [compareNativeModules]. *)
Definition compareLocalModule (remote : list NativeModuleInfo)
    (localMod : NativeModuleInfo) : list Drift :=
  match List.find (fun m => bool_decide (nm_name m = nm_name localMod)) remote with
  | None =>
      [ {| category := CBinary;
           severity := SMedium;
           field := "native." +:+ nm_name localMod;
           local := VString (nm_platform localMod);
           remote := VUndefined;
           impact := "Native module exists locally but not in remote environment";
           recommendation :=
             "Ensure " +:+ nm_name localMod
               +:+ " is installed in remote or remove from local" |} ]
  | Some remoteMod =>
      (if negb (bool_decide (nm_platform localMod = nm_platform remoteMod)) then
         [ {| category := CBinary;
              severity := SCritical;
              field := "native." +:+ nm_name localMod +:+ ".platform";
              local := VString (nm_platform localMod);
              remote := VString (nm_platform remoteMod);
              impact :=
                "Native module compiled for " +:+ nm_platform localMod
                  +:+ " but remote uses " +:+ nm_platform remoteMod
                  +:+ " - will crash";
              recommendation :=
                "Rebuild " +:+ nm_name localMod +:+ " for "
                  +:+ nm_platform remoteMod +:+ " platform" |} ]
       else [])
      ++
      (if negb (bool_decide (nm_arch localMod = nm_arch remoteMod)) then
         [ {| category := CBinary;
              severity := SCritical;
              field := "native." +:+ nm_name localMod +:+ ".arch";
              local := VString (nm_arch localMod);
              remote := VString (nm_arch remoteMod);
              impact :=
                "Architecture mismatch: " +:+ nm_arch localMod +:+ " vs "
                  +:+ nm_arch remoteMod +:+ " - module will fail to load";
              recommendation :=
                "Rebuild " +:+ nm_name localMod +:+ " for "
                  +:+ nm_arch remoteMod +:+ " architecture" |} ]
       else [])
      ++
      (if negb (bool_decide (nm_nodeAbi localMod = nm_nodeAbi remoteMod)) then
         [ {| category := CBinary;
              severity := SCritical;
              field := "native." +:+ nm_name localMod +:+ ".abi";
              local := VString (nm_nodeAbi localMod);
              remote := VString (nm_nodeAbi remoteMod);
              impact :=
                "Incompatible Node.js ABI version (" +:+ nm_nodeAbi localMod
                  +:+ " vs " +:+ nm_nodeAbi remoteMod
                  +:+ ") - module will fail to load";
              recommendation :=
                "Rebuild " +:+ nm_name localMod
                  +:+ " with Node.js version matching ABI "
                  +:+ nm_nodeAbi remoteMod |} ]
       else [])
  end.

(** The body of the second loop of [compareNativeModules]. *)
Definition compareRemoteModule (local : list NativeModuleInfo)
    (remoteMod : NativeModuleInfo) : list Drift :=
  match List.find (fun m => bool_decide (nm_name m = nm_name remoteMod)) local with
  | None =>
      [ {| category := CBinary;
           severity := SHigh;
           field := "native." +:+ nm_name remoteMod;
           local := VUndefined;
           remote := VString (nm_platform remoteMod);
           impact :=
             "Native module required by remote but missing locally - may cause runtime errors";
           recommendation := "Install " +:+ nm_name remoteMod +:+ " locally" |} ]
  | Some _ => []
  end.

(** [compareNativeModules] *)
Definition compareNativeModules (l r : list NativeModuleInfo) : list Drift :=
  flat_map (compareLocalModule r) l ++ flat_map (compareRemoteModule l) r.

(** *** [compare.ts] *)

Section Comparator.

Variable semver_parse : string -> option SemVer.

(** [semver.parse(v)] at a [string | undefined]: anything that is not a
    string yields [null]. *)
Definition parse_version (v : option string) : option SemVer :=
  match v with
  | Some s => semver_parse s
  | None => None
  end.

(** [assessNodeVersionDrift] *)
Definition assessNodeVersionDrift (local remote : string) : DriftSeverity :=
  match semver_parse local, semver_parse remote with
  | Some localVer, Some remoteVer =>
      if negb (bool_decide (major localVer = major remoteVer)) then SHigh
      else if negb (bool_decide (minor localVer = minor remoteVer)) then SMedium
      else SLow
  | _, _ => SMedium
  end.

(** [assessVersionDrift]; at run time either argument may be [undefined]
    (see [compareDependencies]). *)
Definition assessVersionDrift (local remote : option string) : DriftSeverity :=
  match parse_version local, parse_version remote with
  | Some localVer, Some remoteVer =>
      if negb (bool_decide (major localVer = major remoteVer)) then SHigh
      else if negb (bool_decide (minor localVer = minor remoteVer)) then SMedium
      else SLow
  | _, _ => SMedium
  end.

(** [describeVersionImpact] *)
Definition describeVersionImpact (pkg : string) (local remote : option string)
  : string :=
  match parse_version local, parse_version remote with
  | Some localVer, Some remoteVer =>
      if negb (bool_decide (major localVer = major remoteVer)) then
        "Major version change (" +:+ tpl local +:+ " → " +:+ tpl remote
          +:+ ") - breaking changes likely"
      else if negb (bool_decide (minor localVer = minor remoteVer)) then
        "Minor version change (" +:+ tpl local +:+ " → " +:+ tpl remote
          +:+ ") - new features or deprecations"
      else
        "Patch version change (" +:+ tpl local +:+ " → " +:+ tpl remote
          +:+ ") - bug fixes"
  | _, _ => "Version format differs"
  end.

(** [compareNodeVersions] *)
Definition compareNodeVersions (l r : EnvironmentSnapshot) : list Drift :=
  let ln := nodeVersion l in
  let rn := nodeVersion r in
  (if negb (bool_decide (nv_version ln = nv_version rn)) then
     [ {| category := CNodejs;
          severity := assessNodeVersionDrift (nv_version ln) (nv_version rn);
          field := "nodeVersion";
          local := VString (nv_version ln);
          remote := VString (nv_version rn);
          impact := "Runtime behavior differences, potential API incompatibilities";
          recommendation := "Update local Node.js to " +:+ nv_version rn |} ]
   else [])
  ++
  (if negb (bool_decide (nv_npmVersion ln = nv_npmVersion rn)) then
     [ {| category := CNodejs;
          severity := SLow;
          field := "npmVersion";
          local := VString (nv_npmVersion ln);
          remote := VString (nv_npmVersion rn);
          impact := "Package installation behavior may differ";
          recommendation := "Update npm to " +:+ nv_npmVersion rn |} ]
   else [])
  ++
  (if negb (bool_decide (nv_platform ln = nv_platform rn)) then
     [ {| category := CNodejs;
          severity := SCritical;
          field := "platform";
          local := VString (nv_platform ln);
          remote := VString (nv_platform rn);
          impact := "Platform mismatch - native modules will fail";
          recommendation :=
            "Ensure platform compatibility or use Docker for consistency" |} ]
   else [])
  ++
  (if negb (bool_decide (nv_arch ln = nv_arch rn)) then
     [ {| category := CNodejs;
          severity := SCritical;
          field := "arch";
          local := VString (nv_arch ln);
          remote := VString (nv_arch rn);
          impact := "Architecture mismatch - binaries incompatible";
          recommendation := "Ensure architecture compatibility" |} ]
   else []).

(** The body of the loop of [compareDependencies] for one package name. *)
Definition compareDependency (allLocalPackages allRemotePackages : gmap string string)
    (pkg : string) : list Drift :=
  let localVer := allLocalPackages !! pkg in
  let remoteVer := allRemotePackages !! pkg in
  if negb (truthy (of_lookup localVer)) && truthy (of_lookup remoteVer) then
    [ {| category := CDependency;
         severity := SHigh;
         field := "dependency." +:+ pkg;
         local := VUndefined;
         remote := of_lookup remoteVer;
         impact := "Missing dependency - may cause runtime errors";
         recommendation := "Install " +:+ pkg +:+ "@" +:+ tpl remoteVer |} ]
  else if truthy (of_lookup localVer) && negb (truthy (of_lookup remoteVer)) then
    [ {| category := CDependency;
         severity := SMedium;
         field := "dependency." +:+ pkg;
         local := of_lookup localVer;
         remote := VUndefined;
         impact := "Extra dependency not in remote";
         recommendation := "Remove " +:+ pkg +:+ " or add to remote environment" |} ]
  else if negb (bool_decide (localVer = remoteVer)) then
    [ {| category := CDependency;
         severity := assessVersionDrift localVer remoteVer;
         field := "dependency." +:+ pkg;
         local := of_lookup localVer;
         remote := of_lookup remoteVer;
         impact := describeVersionImpact pkg localVer remoteVer;
         recommendation := "Update " +:+ pkg +:+ " to " +:+ tpl remoteVer |} ]
  else [].

(** [compareDependencies] *)
Definition compareDependencies (l r : EnvironmentSnapshot) : list Drift :=
  let allLocalPackages :=
    spread (production (dependencies l)) (development (dependencies l)) in
  let allRemotePackages :=
    spread (production (dependencies r)) (development (dependencies r)) in
  let allPackageNames :=
    js_Set (Object_keys allLocalPackages ++ Object_keys allRemotePackages) in
  flat_map (compareDependency allLocalPackages allRemotePackages) allPackageNames
  ++
  (if negb (bool_decide (lockfileHash (dependencies l) = lockfileHash (dependencies r)))
   then
     [ {| category := CDependency;
          severity := SHigh;
          field := "lockfile";
          local := VString (String.substring 0 8 (lockfileHash (dependencies l)));
          remote := VString (String.substring 0 8 (lockfileHash (dependencies r)));
          impact := "Lockfile mismatch - exact dependency versions differ";
          recommendation := "Sync lockfile to ensure identical dependency tree" |} ]
   else []).

(** [compareEnvironmentVars] *)
Definition compareEnvironmentVars (l r : EnvironmentSnapshot) : list Drift :=
  let comparison := compareEnvVars (envVars l) (envVars r) in
  map (fun key =>
         {| category := CEnvvar;
            severity := SHigh;
            field := "env." +:+ key;
            local := VUndefined;
            remote := VString "[SET]";
            impact := "Missing environment variable - may cause runtime errors";
            recommendation := "Set " +:+ key +:+ " in local environment" |})
      (missing comparison)
  ++
  map (fun key =>
         {| category := CEnvvar;
            severity := SLow;
            field := "env." +:+ key;
            local := VString "[SET]";
            remote := VUndefined;
            impact := "Extra environment variable not in remote";
            recommendation := "Remove " +:+ key +:+ " or add to remote environment" |})
      (extra comparison)
  ++
  map (fun key =>
         {| category := CEnvvar;
            severity := SMedium;
            field := "env." +:+ key;
            local := of_lookup (variables (envVars l) !! key);
            remote := of_lookup (variables (envVars r) !! key);
            impact := "Environment variable value differs";
            recommendation := "Update " +:+ key +:+ " to match remote value" |})
      (different comparison).

(** [compareDocker] *)
Definition compareDocker (l r : EnvironmentSnapshot) : list Drift :=
  let comparison := compareDockerConfigs (docker l) (docker r) in
  (if versionMismatch comparison then
     [ {| category := CDocker;
          severity := SMedium;
          field := "docker.version";
          local := of_nullable (dk_version (docker l));
          remote := of_nullable (dk_version (docker r));
          impact := "Docker version mismatch - behavior may differ";
          recommendation := "Update Docker to " +:+ tpl_null (dk_version (docker r)) |} ]
   else [])
  ++
  map (fun image =>
         {| category := CDocker;
            severity := SHigh;
            field := "docker.image." +:+ image;
            local := VUndefined;
            remote := VString image;
            impact := "Missing Docker image";
            recommendation := "Pull Docker image: docker pull " +:+ image |})
      (missingImages comparison)
  ++
  map (fun image =>
         {| category := CDocker;
            severity := SLow;
            field := "docker.image." +:+ image;
            local := VString image;
            remote := VUndefined;
            impact := "Extra Docker image not in remote";
            recommendation := "Remove image or add to remote: " +:+ image |})
      (extraImages comparison).

(** One iteration of the counting loop of [generateSummary]. *)
Definition countDrift (s : DriftSummary) (d : Drift) : DriftSummary :=
  let s1 :=
    match severity d with
    | SCritical =>
        {| total := total s; critical := S (critical s); high := high s;
           medium := medium s; low := low s; byCategory := byCategory s |}
    | SHigh =>
        {| total := total s; critical := critical s; high := S (high s);
           medium := medium s; low := low s; byCategory := byCategory s |}
    | SMedium =>
        {| total := total s; critical := critical s; high := high s;
           medium := S (medium s); low := low s; byCategory := byCategory s |}
    | SLow =>
        {| total := total s; critical := critical s; high := high s;
           medium := medium s; low := S (low s); byCategory := byCategory s |}
    | SNone => s
    end in
  let c := byCategory s1 in
  let c' :=
    match category d with
    | CNodejs =>
        {| by_nodejs := S (by_nodejs c); by_dependency := by_dependency c;
           by_envvar := by_envvar c; by_docker := by_docker c;
           by_binary := by_binary c |}
    | CDependency =>
        {| by_nodejs := by_nodejs c; by_dependency := S (by_dependency c);
           by_envvar := by_envvar c; by_docker := by_docker c;
           by_binary := by_binary c |}
    | CEnvvar =>
        {| by_nodejs := by_nodejs c; by_dependency := by_dependency c;
           by_envvar := S (by_envvar c); by_docker := by_docker c;
           by_binary := by_binary c |}
    | CDocker =>
        {| by_nodejs := by_nodejs c; by_dependency := by_dependency c;
           by_envvar := by_envvar c; by_docker := S (by_docker c);
           by_binary := by_binary c |}
    | CBinary =>
        {| by_nodejs := by_nodejs c; by_dependency := by_dependency c;
           by_envvar := by_envvar c; by_docker := by_docker c;
           by_binary := S (by_binary c) |}
    end in
  {| total := total s1; critical := critical s1; high := high s1;
     medium := medium s1; low := low s1; byCategory := c' |}.

(** [generateSummary] *)
Definition generateSummary (ds : list Drift) : DriftSummary :=
  fold_left countDrift ds
    {| total := length ds; critical := 0; high := 0; medium := 0; low := 0;
       byCategory :=
         {| by_nodejs := 0; by_dependency := 0; by_envvar := 0;
            by_docker := 0; by_binary := 0 |} |}.

(** [severities.includes(s)] *)
Definition includes (severities : list DriftSeverity) (s : DriftSeverity) : bool :=
  bool_decide (s ∈ severities).

(** [assessOverallSeverity] *)
Definition assessOverallSeverity (ds : list Drift) : DriftSeverity :=
  if (length ds =? 0)%nat then SNone
  else
    let severities := map severity ds in
    if includes severities SCritical then SCritical
    else if includes severities SHigh then SHigh
    else if includes severities SMedium then SMedium
    else if includes severities SLow then SLow
    else SNone.

(** [compareSnapshots] *)
Definition compareSnapshots (l r : EnvironmentSnapshot) : DriftReport :=
  let ds :=
    compareNodeVersions l r
    ++ compareDependencies l r
    ++ compareEnvironmentVars l r
    ++ compareDocker l r
    ++ compareNativeModules (nativeModules (dependencies l))
                            (nativeModules (dependencies r)) in
  {| hasDrift := (0 <? length ds)%nat;
     report_severity := assessOverallSeverity ds;
     drifts := ds;
     summary := generateSummary ds;
     localSnapshot := l;
     remoteSnapshot := r |}.

End Comparator.

(* ===================================================================== *)
(** ** The synchronisation orchestrator ([env-sync.ts]) *)
(* ===================================================================== *)

Record SyncAction := {
  drift : Drift;
  success : bool;
  action : option string;
  error : option string;
}.

Record SyncOptions := {
  autoFix : option bool;
  dryRun : option bool;
  categories : option (list DriftCategory);
  maxSeverity : option DriftSeverity;
}.

Record SyncSummary := {
  sum_total : nat;
  sum_succeeded : nat;
  sum_failed : nat;
}.

Record SyncResult := {
  sr_success : bool;
  sr_actions : list SyncAction;
  sr_summary : SyncSummary;
}.

(** *** External commands

    [execAsync] either resolves or rejects with an error; the message is what
    the handlers store ([error.message] or [String(error)]).  Every call is
    appended to a journal, so that "no external call" is a statement about
    the journal. *)

Inductive ExecOutcome :=
  | Resolved
  | Rejected (message : string).

Record ExecCall := {
  command : string;
  outcome : ExecOutcome;
}.

Definition Journal := list ExecCall.

(** A computation that may run external commands. *)
Definition Exec (A : Type) : Type := Journal -> A * Journal.

Definition ret {A} (a : A) : Exec A := fun j => (a, j).

Definition bind {A B} (m : Exec A) (k : A -> Exec B) : Exec B :=
  fun j => let '(a, j') := m j in k a j'.

Declare Scope exec_scope.
Delimit Scope exec_scope with exec.
Notation "'let!' x ':=' m 'in' k" := (bind m (fun x => k))
  (at level 10, x name, m at level 100, k at level 200) : exec_scope.

(** A [for ... of] loop whose body pushes zero or more actions. *)
Fixpoint forEach {A B} (body : A -> Exec (list B)) (l : list A) : Exec (list B) :=
  match l with
  | [] => ret []
  | x :: l' =>
      (let! pushed := body x in
       let! rest := forEach body l' in
       ret (pushed ++ rest))%exec
  end.

Definition succeeded_action (d : Drift) (text : string) : SyncAction :=
  {| drift := d; success := true; action := Some text; error := None |}.

Definition failed_action (d : Drift) (message : string) : SyncAction :=
  {| drift := d; success := false; action := None; error := Some message |}.

(** [severityOrder.indexOf(s)] for
    [severityOrder = ['low', 'medium', 'high', 'critical']]. *)
Definition severityIndex (s : DriftSeverity) : Z :=
  match s with
  | SLow => 0
  | SMedium => 1
  | SHigh => 2
  | SCritical => 3
  | SNone => -1
  end.

Definition Grouped := DriftCategory -> option (list Drift).

(** [groupDriftsByCategory] *)
Definition groupDriftsByCategory (ds : list Drift) : Grouped :=
  fold_left
    (fun (grouped : Grouped) d =>
       let bucket := match grouped (category d) with
                     | Some b => b
                     | None => []
                     end in
       fun c => if bool_decide (c = category d) then Some (bucket ++ [d])
                else grouped c)
    ds (fun _ => None).

Section Sync.

(** The environment: how the shell answers a command, given the calls made
    before it. *)
Variable shell : Journal -> string -> ExecOutcome.

Definition execAsync (cmd : string) : Exec ExecOutcome :=
  fun j => let o := shell j cmd in
           (o, j ++ [ {| command := cmd; outcome := o |} ]).

Local Open Scope exec_scope.

(** Loop body of [syncDependencies]. *)
Definition syncDependency (dry : bool) (d : Drift) : Exec (list SyncAction) :=
  if bool_decide (field d = "lockfile") then
    ret [ succeeded_action d
            "Lockfile sync requires manual `npm install` or `npm ci`" ]
  else
    let pkg := String_replace "dependency." EmptyString (field d) in
    let targetVer := remote d in
    if dry then
      ret [ succeeded_action d
              ("[DRY RUN] Would " +:+
               (if truthy targetVer
                then "install " +:+ pkg +:+ "@" +:+ to_string targetVer
                else "remove " +:+ pkg)) ]
    else if negb (truthy targetVer) then
      let! o := execAsync ("npm uninstall " +:+ pkg) in
      match o with
      | Resolved => ret [ succeeded_action d ("Removed " +:+ pkg) ]
      | Rejected msg => ret [ failed_action d msg ]
      end
    else
      let! o := execAsync ("npm install " +:+ pkg +:+ "@" +:+ to_string targetVer
                        +:+ " --save-exact") in
      match o with
      | Resolved =>
          ret [ succeeded_action d
                  ("Updated " +:+ pkg +:+ " to " +:+ to_string targetVer) ]
      | Rejected msg => ret [ failed_action d msg ]
      end.

(** [syncDependencies] *)
Definition syncDependencies (ds : list Drift) (dry : bool) : Exec (list SyncAction) :=
  forEach (syncDependency dry) ds.

(** Loop body of [syncEnvVars]; the options are ignored. *)
Definition syncEnvVar (d : Drift) : Exec (list SyncAction) :=
  let varName := String_replace "env." EmptyString (field d) in
  ret [ succeeded_action d
          ("[MANUAL] Set environment variable: " +:+ varName +:+ "=" +:+
           (if truthy (remote d) then to_string (remote d) else "(unset)")) ].

(** [syncEnvVars] *)
Definition syncEnvVars (ds : list Drift) (_dry : bool) : Exec (list SyncAction) :=
  forEach syncEnvVar ds.

(** Loop body of [syncDocker]. *)
Definition syncDockerDrift (dry : bool) (d : Drift) : Exec (list SyncAction) :=
  if startsWith (field d) "docker.image." then
    let image := remote d in
    if dry then
      ret [ succeeded_action d
              ("[DRY RUN] Would pull Docker image: " +:+ to_string image) ]
    else if truthy image then
      let! o := execAsync ("docker pull " +:+ to_string image) in
      match o with
      | Resolved =>
          ret [ succeeded_action d ("Pulled Docker image: " +:+ to_string image) ]
      | Rejected msg => ret [ failed_action d msg ]
      end
    else ret []
  else
    ret [ succeeded_action d
            ("[MANUAL] Docker " +:+ field d +:+ " requires manual update") ].

(** [syncDocker] *)
Definition syncDocker (ds : list Drift) (dry : bool) : Exec (list SyncAction) :=
  forEach (syncDockerDrift dry) ds.

(** Loop body of [syncNativeModules]. *)
Definition syncNativeModule (dry : bool) (d : Drift) : Exec (list SyncAction) :=
  let moduleName := tpl (split_on "."%char (field d) !! 1%nat) in
  if dry then
    ret [ succeeded_action d ("[DRY RUN] Would rebuild " +:+ moduleName) ]
  else
    let! o := execAsync ("npm rebuild " +:+ moduleName) in
    match o with
    | Resolved =>
        ret [ succeeded_action d ("Rebuilt native module: " +:+ moduleName) ]
    | Rejected msg => ret [ failed_action d msg ]
    end.

(** [syncNativeModules] *)
Definition syncNativeModules (ds : list Drift) (dry : bool) : Exec (list SyncAction) :=
  forEach (syncNativeModule dry) ds.

(** [syncNodeVersion]: synchronous and informational; the options are
    ignored. *)
Definition syncNodeVersion (ds : list Drift) (_dry : bool) : list SyncAction :=
  map (fun d =>
         succeeded_action d
           ("[MANUAL] Update Node.js to " +:+ to_string (remote d)
              +:+ " (use nvm, volta, or system package manager)"))
      ds.

(** The two filters at the head of [sync]. *)
Definition filterDrifts (options : SyncOptions) (ds : list Drift) : list Drift :=
  let ds1 :=
    match categories options with
    | Some cs =>
        if (0 <? length cs)%nat
        then List.filter (fun d => bool_decide (category d ∈ cs)) ds
        else ds
    | None => ds
    end in
  match maxSeverity options with
  | Some m =>
      let maxIndex := severityIndex m in
      List.filter (fun d => (severityIndex (severity d) <=? maxIndex)%Z) ds1
  | None => ds1
  end.

(** [sync] *)
Definition sync (driftReport : DriftReport) (options : SyncOptions)
  : Exec SyncResult :=
  let dry := default false (dryRun options) in
  let grouped := groupDriftsByCategory (filterDrifts options (drifts driftReport)) in
  let! depActions := match grouped CDependency with
                | Some g => syncDependencies g dry
                | None => ret []
                end in
  let! envActions := match grouped CEnvvar with
                | Some g => syncEnvVars g dry
                | None => ret []
                end in
  let! dockerActions := match grouped CDocker with
                   | Some g => syncDocker g dry
                   | None => ret []
                   end in
  let! binaryActions := match grouped CBinary with
                   | Some g => syncNativeModules g dry
                   | None => ret []
                   end in
  let nodeActions := match grouped CNodejs with
                     | Some g => syncNodeVersion g dry
                     | None => []
                     end in
  let actions :=
    depActions ++ envActions ++ dockerActions ++ binaryActions ++ nodeActions in
  let succeeded := length (List.filter (fun a => success a) actions) in
  let failed := length (List.filter (fun a => negb (success a)) actions) in
  ret {| sr_success := (failed =? 0)%nat;
         sr_actions := actions;
         sr_summary := {| sum_total := length actions;
                          sum_succeeded := succeeded;
                          sum_failed := failed |} |}.

End Sync.

(* ===================================================================== *)
(** ** Serialisation ([snapshot.ts]) *)
(* ===================================================================== *)

(** Run-time values: what a snapshot object holds, and what
    [deserializeSnapshot] builds out of a parsed document. *)
Inductive js :=
  | JsUndefined
  | JsNull
  | JsBool (b : bool)
  | JsNum (n : Z)
  | JsStr (s : string)
  | JsDate (d : Date)
  | JsArr (l : list js)
  | JsObj (props : list (string * js)).

(** The value [JSON.parse] returns for a document. *)
Fixpoint js_of_json (j : json) : js :=
  match j with
  | JNull => JsNull
  | JBool b => JsBool b
  | JNum n => JsNum n
  | JStr s => JsStr s
  | JArr l => JsArr (List.map js_of_json l)
  | JObj ps => JsObj (List.map (fun kv => (fst kv, js_of_json (snd kv))) ps)
  end.

(** Truthiness of a run-time value. *)
Definition js_truthy (v : js) : bool :=
  match v with
  | JsUndefined | JsNull => false
  | JsBool b => b
  | JsNum n => negb (n =? 0)%Z
  | JsStr s => negb (bool_decide (s = EmptyString))
  | JsDate _ | JsArr _ | JsObj _ => true
  end.

Fixpoint assoc (k : string) (ps : list (string * js)) : option js :=
  match ps with
  | [] => None
  | (k', v) :: ps' => if bool_decide (k' = k) then Some v else assoc k ps'
  end.

(** [v.k] for the property names read by [deserializeSnapshot] (none of them
    is a built-in property).  [None]: a [TypeError] ([v] is [null] or
    [undefined]). *)
Definition get_prop (v : js) (k : string) : option js :=
  match v with
  | JsUndefined | JsNull => None
  | JsObj ps => Some (default JsUndefined (assoc k ps))
  | _ => Some JsUndefined
  end.

(** [v?.k] *)
Definition get_prop_opt (v : js) (k : string) : js :=
  default JsUndefined (get_prop v k).

(** [o.k = x] on a property list: in place if [k] exists, appended if not. *)
Fixpoint set_prop (k : string) (x : js) (ps : list (string * js))
  : list (string * js) :=
  match ps with
  | [] => [(k, x)]
  | (k', v) :: ps' =>
      if bool_decide (k' = k) then (k, x) :: ps' else (k', v) :: set_prop k x ps'
  end.

Fixpoint index_from {A} (i : nat) (l : list A) : list (string * A) :=
  match l with
  | [] => []
  | x :: l' => (nat_to_string i, x) :: index_from (S i) l'
  end.

Fixpoint chars (s : string) : list js :=
  match s with
  | EmptyString => []
  | String c s' => JsStr (String c EmptyString) :: chars s'
  end.

(** The own enumerable properties copied by an object spread [{...v}]. *)
Definition own_props (v : js) : list (string * js) :=
  match v with
  | JsObj ps => ps
  | JsArr l => index_from 0 l
  | JsStr s => index_from 0 (chars s)
  | _ => []
  end.

Definition quote_char : ascii := ascii_of_nat 34.
Definition newline : string := String (ascii_of_nat 10) EmptyString.

Definition hex_digit (n : nat) : ascii :=
  if (n <? 10)%nat then ascii_of_nat (48 + n) else ascii_of_nat (87 + n).

(** [QuoteJSONString]: the escapes of [JSON.stringify]. *)
Fixpoint escape (s : string) : string :=
  match s with
  | EmptyString => EmptyString
  | String c s' =>
      let n := nat_of_ascii c in
      (if (n =? 34)%nat then String "\" (String quote_char EmptyString)
       else if (n =? 92)%nat then "\\"
       else if (n =? 8)%nat then "\b"
       else if (n =? 12)%nat then "\f"
       else if (n =? 10)%nat then "\n"
       else if (n =? 13)%nat then "\r"
       else if (n =? 9)%nat then "\t"
       else if (n <? 32)%nat then
         "\u00" +:+ String (hex_digit (n / 16)) (String (hex_digit (n mod 16)) EmptyString)
       else String c EmptyString)
      +:+ escape s'
  end.

Definition quote (s : string) : string :=
  String quote_char (escape s +:+ String quote_char EmptyString).

Fixpoint join (sep : string) (l : list string) : string :=
  match l with
  | [] => EmptyString
  | [x] => x
  | x :: l' => x +:+ sep +:+ join sep l'
  end.

(** The text [JSON.stringify(_, null, 2)] writes for a document, at a given
    current indentation. *)
Fixpoint JSON_render (indent : string) (j : json) : string :=
  let stepback := indent in
  let indent' := indent +:+ "  " in
  match j with
  | JNull => "null"
  | JBool true => "true"
  | JBool false => "false"
  | JNum n => Z_to_string n
  | JStr s => quote s
  | JArr [] => "[]"
  | JArr l =>
      "[" +:+ newline +:+ indent' +:+
      join ("," +:+ newline +:+ indent')
           ((fix items (l : list json) : list string :=
               match l with
               | [] => []
               | x :: l' => JSON_render indent' x :: items l'
               end) l)
      +:+ newline +:+ stepback +:+ "]"
  | JObj [] => "{}"
  | JObj ps =>
      "{" +:+ newline +:+ indent' +:+
      join ("," +:+ newline +:+ indent')
           ((fix members (ps : list (string * json)) : list string :=
               match ps with
               | [] => []
               | (k, x) :: ps' =>
                   (quote k +:+ ": " +:+ JSON_render indent' x) :: members ps'
               end) ps)
      +:+ newline +:+ stepback +:+ "}"
  end.

(** [TimeClip] *)
Definition TimeClip (n : Z) : Date :=
  if (Z.abs n <=? 8640000000000000)%Z then DateTime n else InvalidDate.

(** [String(v)] for an array or an object handed to [new Date]. *)
Fixpoint js_toString (v : js) : string :=
  match v with
  | JsUndefined => "undefined"
  | JsNull => "null"
  | JsBool true => "true"
  | JsBool false => "false"
  | JsNum n => Z_to_string n
  | JsStr s => s
  | JsDate _ => "[object Date]"
  | JsArr l =>
      join ","
        ((fix elems (l : list js) : list string :=
            match l with
            | [] => []
            | x :: l' =>
                match x with
                | JsUndefined | JsNull => EmptyString
                | _ => js_toString x
                end :: elems l'
            end) l)
  | JsObj _ => "[object Object]"
  end.

Definition environment_name (e : EnvironmentType) : string :=
  match e with
  | EnvLocal => "local"
  | EnvStaging => "staging"
  | EnvProduction => "production"
  | EnvCi => "ci"
  | EnvDocker => "docker"
  end.

(** *** Snapshots as run-time objects

    Property order is the order of the object literals that build the
    fragments ([captureNodeVersion], [captureDependencies], ...). *)

Definition js_opt_string (o : option string) : js :=
  match o with Some s => JsStr s | None => JsUndefined end.

Definition js_nullable (o : option string) : js :=
  match o with Some s => JsStr s | None => JsNull end.

Definition js_strings (l : list string) : js := JsArr (List.map JsStr l).

Definition js_record (m : gmap string string) : js :=
  JsObj (List.map (fun kv => (fst kv, JsStr (snd kv))) (map_to_list m)).

Definition js_of_nodeVersion (n : NodeVersionInfo) : js :=
  JsObj [ ("version", JsStr (nv_version n));
          ("npmVersion", JsStr (nv_npmVersion n));
          ("platform", JsStr (nv_platform n));
          ("arch", JsStr (nv_arch n));
          ("v8Version", JsStr (nv_v8Version n));
          ("modules", JsStr (nv_modules n));
          ("openssl", js_opt_string (nv_openssl n)) ].

Definition js_of_nativeModule (m : NativeModuleInfo) : js :=
  JsObj [ ("name", JsStr (nm_name m));
          ("path", JsStr (nm_path m));
          ("platform", JsStr (nm_platform m));
          ("arch", JsStr (nm_arch m));
          ("nodeAbi", JsStr (nm_nodeAbi m));
          ("size", JsNum (nm_size m));
          ("modified", JsDate (nm_modified m)) ].

Definition js_of_dependencies (d : DependencySnapshot) : js :=
  JsObj [ ("production", js_record (production d));
          ("development", js_record (development d));
          ("lockfileHash", JsStr (lockfileHash d));
          ("nativeModules", JsArr (List.map js_of_nativeModule (nativeModules d))) ].

Definition js_of_envVars (e : EnvironmentVariables) : js :=
  JsObj [ ("variables", js_record (variables e));
          ("redacted", js_strings (redacted e)) ].

Definition js_of_image (i : DockerImage) : js :=
  JsObj [ ("id", JsStr (img_id i));
          ("tags", js_strings (img_tags i));
          ("size", JsNum (img_size i));
          ("created", match img_created i with
                      | Some d => JsDate d
                      | None => JsUndefined
                      end) ].

Definition js_of_container (c : DockerContainer) : js :=
  JsObj [ ("id", JsStr (ct_id c));
          ("name", JsStr (ct_name c));
          ("image", JsStr (ct_image c));
          ("state", JsStr (ct_state c));
          ("ports", match ct_ports c with
                    | Some l => JsArr (List.map js_of_json l)
                    | None => JsUndefined
                    end) ].

Definition js_of_compose (c : DockerComposeConfig) : js :=
  JsObj [ ("file", JsStr (cc_file c));
          ("version", js_opt_string (cc_version c));
          ("services", js_strings (cc_services c));
          ("networks", js_strings (cc_networks c));
          ("volumes", js_strings (cc_volumes c)) ].

Definition js_of_docker (d : DockerSnapshot) : js :=
  JsObj [ ("version", js_nullable (dk_version d));
          ("platform", js_nullable (dk_platform d));
          ("arch", js_nullable (dk_arch d));
          ("images", JsArr (List.map js_of_image (dk_images d)));
          ("containers", JsArr (List.map js_of_container (dk_containers d)));
          ("composeConfigs", JsArr (List.map js_of_compose (dk_composeConfigs d))) ].

Definition js_of_system (s : SystemInfo) : js :=
  JsObj [ ("platform", JsStr (sys_platform s));
          ("arch", JsStr (sys_arch s));
          ("cpus", JsNum (sys_cpus s));
          ("totalMemory", JsNum (sys_totalMemory s));
          ("freeMemory", JsNum (sys_freeMemory s));
          ("hostname", JsStr (sys_hostname s)) ].

Definition js_of_snapshot (s : EnvironmentSnapshot) : js :=
  JsObj [ ("timestamp", JsDate (timestamp s));
          ("environment", JsStr (environment_name (environment s)));
          ("nodeVersion", js_of_nodeVersion (nodeVersion s));
          ("dependencies", js_of_dependencies (dependencies s));
          ("envVars", js_of_envVars (envVars s));
          ("docker", js_of_docker (docker s));
          ("system", js_of_system (system s));
          ("hash", JsStr (hash s)) ].

Section Serialization.

(** The engine's built-ins: [Date.prototype.toISOString] on a valid time
    value, [Date.parse], and [JSON.parse] ([None]: a [SyntaxError]). *)
Variable toISOString : Z -> string.
Variable Date_parse : string -> Date.
Variable JSON_parse : string -> option json.

(** [SerializeJSONProperty]: the document [JSON.stringify] writes for a
    value; [None] is [undefined] (nothing is written).  A [Date] goes
    through [toJSON]: its ISO string, or [null] when invalid. *)
Fixpoint to_json (v : js) : option json :=
  match v with
  | JsUndefined => None
  | JsNull => Some JNull
  | JsBool b => Some (JBool b)
  | JsNum n => Some (JNum n)
  | JsStr s => Some (JStr s)
  | JsDate (DateTime t) => Some (JStr (toISOString t))
  | JsDate InvalidDate => Some JNull
  | JsArr l =>
      Some (JArr ((fix elems (l : list js) : list json :=
                     match l with
                     | [] => []
                     | x :: l' => default JNull (to_json x) :: elems l'
                     end) l))
  | JsObj ps =>
      Some (JObj ((fix members (ps : list (string * js)) : list (string * json) :=
                     match ps with
                     | [] => []
                     | (k, x) :: ps' =>
                         match to_json x with
                         | Some j => (k, j) :: members ps'
                         | None => members ps'
                         end
                     end) ps))
  end.

(** [JSON.stringify(v, null, 2)] *)
Definition JSON_stringify (v : js) : option string :=
  JSON_render EmptyString <$> to_json v.

(** [new Date(v)] *)
Definition Date_new (v : js) : Date :=
  match v with
  | JsUndefined => InvalidDate
  | JsNull => DateTime 0
  | JsBool b => DateTime (if b then 1 else 0)
  | JsNum n => TimeClip n
  | JsStr s => Date_parse s
  | JsDate d => d
  | JsArr _ | JsObj _ => Date_parse (js_toString v)
  end.

(** [serializeSnapshot] *)
Definition serializeSnapshot (snapshot : js) : option string :=
  JSON_stringify snapshot.

(** [img => ({ ...img, created: img.created ? new Date(img.created) : undefined })] *)
Definition restoreImage (img : js) : option js :=
  created ← get_prop img "created";
  Some (JsObj (set_prop "created"
                 (if js_truthy created then JsDate (Date_new created)
                  else JsUndefined)
                 (own_props img))).

(** [mod => ({ ...mod, modified: new Date(mod.modified) })] *)
Definition restoreModule (m : js) : option js :=
  modified ← get_prop m "modified";
  Some (JsObj (set_prop "modified" (JsDate (Date_new modified)) (own_props m))).

(** [xs.map(f)]; [None] when [xs] is not an array or [f] throws. *)
Definition Array_map (f : js -> option js) (xs : js) : option js :=
  match xs with
  | JsArr l => JsArr <$> mapM f l
  | _ => None
  end.

(** [if (parsed.outer?.inner) parsed.outer.inner = parsed.outer.inner.map(f)] *)
Definition restoreList (outer inner : string) (f : js -> option js)
    (parsed : list (string * js)) : option (list (string * js)) :=
  let o := default JsUndefined (assoc outer parsed) in
  let xs := get_prop_opt o inner in
  if js_truthy xs then
    xs' ← Array_map f xs;
    match o with
    | JsObj ops => Some (set_prop outer (JsObj (set_prop inner xs' ops)) parsed)
    | _ => None
    end
  else Some parsed.

(** [deserializeSnapshot]; [None] when the function throws. *)
Definition deserializeSnapshot (data : string) : option js :=
  parsed ← JSON_parse data;
  match js_of_json parsed with
  | JsObj ps =>
      let ps1 :=
        set_prop "timestamp"
          (JsDate (Date_new (default JsUndefined (assoc "timestamp" ps)))) ps in
      ps2 ← restoreList "docker" "images" restoreImage ps1;
      ps3 ← restoreList "dependencies" "nativeModules" restoreModule ps2;
      Some (JsObj ps3)
  | JsArr l => Some (JsArr l)
  | _ => None
  end.

End Serialization.

(* ===================================================================== *)
(** ** Reference instances of the engine's built-ins

    Executable instances of [toISOString], [Date.parse] and [JSON.parse],
    used to run the model on concrete snapshots. *)
(* ===================================================================== *)

Fixpoint zeros (n : nat) : string :=
  match n with
  | O => EmptyString
  | S n' => String "0"%char (zeros n')
  end.

(** A non-negative number on at least [width] digits. *)
Definition pad (width : nat) (n : Z) : string :=
  let s := Z_to_string n in
  zeros (width - String.length s) +:+ s.

(** Proleptic Gregorian date of a day number (days since 1970-01-01). *)
Definition civil_from_days (z0 : Z) : Z * Z * Z :=
  let z := (z0 + 719468)%Z in
  let era := (z / 146097)%Z in
  let doe := (z - era * 146097)%Z in
  let yoe := ((doe - doe / 1460 + doe / 36524 - doe / 146096) / 365)%Z in
  let y := (yoe + era * 400)%Z in
  let doy := (doe - (365 * yoe + yoe / 4 - yoe / 100))%Z in
  let mp := ((5 * doy + 2) / 153)%Z in
  let d := (doy - (153 * mp + 2) / 5 + 1)%Z in
  let m := (if mp <? 10 then mp + 3 else mp - 9)%Z in
  ((if m <=? 2 then y + 1 else y)%Z, m, d).

Definition days_from_civil (y m d : Z) : Z :=
  let y' := (if m <=? 2 then y - 1 else y)%Z in
  let era := (y' / 400)%Z in
  let yoe := (y' - era * 400)%Z in
  let doy := ((153 * (if 2 <? m then m - 3 else m + 9) + 2) / 5 + d - 1)%Z in
  let doe := (yoe * 365 + yoe / 4 - yoe / 100 + doy)%Z in
  (era * 146097 + doe - 719468)%Z.

Definition ms_per_day : Z := 86400000.

Definition toISOString_ref (t : Z) : string :=
  let '(y, m, d) := civil_from_days (t / ms_per_day) in
  let r := (t mod ms_per_day)%Z in
  (if (y <? 0)%Z then "-" +:+ pad 6 (- y)
   else if (9999 <? y)%Z then "+" +:+ pad 6 y
   else pad 4 y)
  +:+ "-" +:+ pad 2 m +:+ "-" +:+ pad 2 d
  +:+ "T" +:+ pad 2 (r / 3600000) +:+ ":" +:+ pad 2 (r / 60000 mod 60)
  +:+ ":" +:+ pad 2 (r / 1000 mod 60) +:+ "." +:+ pad 3 (r mod 1000) +:+ "Z".

(** Read exactly [n] digits. *)
Fixpoint take_digits (n : nat) (acc : Z) (s : string) : option (Z * string) :=
  match n with
  | O => Some (acc, s)
  | S n' =>
      match s with
      | String c s' =>
          if is_digit c
          then take_digits n' (acc * 10 + (Z.of_nat (nat_of_ascii c) - 48))%Z s'
          else None
      | EmptyString => None
      end
  end.

Definition expect (c : ascii) (s : string) : option string :=
  match s with
  | String c' s' => if bool_decide (c' = c) then Some s' else None
  | EmptyString => None
  end.

Definition take_year (s : string) : option (Z * string) :=
  match s with
  | String "+"%char s' => take_digits 6 0 s'
  | String "-"%char s' => '(y, r) ← take_digits 6 0 s'; Some ((- y)%Z, r)
  | _ => take_digits 4 0 s
  end.

(** [Date.parse] on the format [toISOString] writes; anything else is
    rejected. *)
Definition Date_parse_ref (s : string) : Date :=
  let parsed :=
    '(y, s) ← take_year s;
    s ← expect "-" s;
    '(m, s) ← take_digits 2 0 s;
    s ← expect "-" s;
    '(d, s) ← take_digits 2 0 s;
    s ← expect "T" s;
    '(hh, s) ← take_digits 2 0 s;
    s ← expect ":" s;
    '(mm, s) ← take_digits 2 0 s;
    s ← expect ":" s;
    '(ss, s) ← take_digits 2 0 s;
    s ← expect "." s;
    '(ms, s) ← take_digits 3 0 s;
    s ← expect "Z" s;
    if bool_decide (s = EmptyString)
       && (1 <=? m)%Z && (m <=? 12)%Z && (1 <=? d)%Z && (d <=? 31)%Z
       && (hh <=? 23)%Z && (mm <=? 59)%Z && (ss <=? 59)%Z
    then Some (days_from_civil y m d * ms_per_day
               + hh * 3600000 + mm * 60000 + ss * 1000 + ms)%Z
    else None in
  match parsed with
  | Some t => TimeClip t
  | None => InvalidDate
  end.

Definition is_ws (c : ascii) : bool :=
  let n := nat_of_ascii c in
  (n =? 32)%nat || (n =? 10)%nat || (n =? 13)%nat || (n =? 9)%nat.

Fixpoint skip_ws (s : string) : string :=
  match s with
  | String c s' => if is_ws c then skip_ws s' else s
  | EmptyString => s
  end.

Definition hex_value (c : ascii) : option nat :=
  let n := nat_of_ascii c in
  if is_digit c then Some (n - 48)
  else if (97 <=? n)%nat && (n <=? 102)%nat then Some (n - 87)
  else if (65 <=? n)%nat && (n <=? 70)%nat then Some (n - 55)
  else None.

(** The characters of a string literal after its opening quote, up to the
    closing quote; escapes are decoded (code points below 256 only). *)
Fixpoint parse_chars (s : string) : option (string * string) :=
  match s with
  | EmptyString => None
  | String c rest =>
      if (nat_of_ascii c =? 34)%nat then Some (EmptyString, rest)
      else if (nat_of_ascii c =? 92)%nat then
        match rest with
        | String "u"%char (String "0"%char (String "0"%char (String a (String b rest')))) =>
            h ← hex_value a;
            l ← hex_value b;
            '(body, r) ← parse_chars rest';
            Some (String (ascii_of_nat (16 * h + l)) body, r)
        | String e rest' =>
            let n := nat_of_ascii e in
            d ← (if (n =? 34)%nat then Some quote_char
                 else if (n =? 92)%nat then Some "\"%char
                 else if (n =? 47)%nat then Some "/"%char
                 else if (n =? 98)%nat then Some (ascii_of_nat 8)
                 else if (n =? 102)%nat then Some (ascii_of_nat 12)
                 else if (n =? 110)%nat then Some (ascii_of_nat 10)
                 else if (n =? 114)%nat then Some (ascii_of_nat 13)
                 else if (n =? 116)%nat then Some (ascii_of_nat 9)
                 else None);
            '(body, r) ← parse_chars rest';
            Some (String d body, r)
        | EmptyString => None
        end
      else if (nat_of_ascii c <? 32)%nat then None
      else '(body, r) ← parse_chars rest; Some (String c body, r)
  end.

Fixpoint take_number (acc : Z) (s : string) : Z * string :=
  match s with
  | String c s' =>
      if is_digit c
      then take_number (acc * 10 + (Z.of_nat (nat_of_ascii c) - 48))%Z s'
      else (acc, s)
  | EmptyString => (acc, s)
  end.

Definition starts_digit (s : string) : bool :=
  match s with
  | String c _ => is_digit c
  | EmptyString => false
  end.

(** A recursive-descent reader for JSON text with integer numbers; [fuel]
    bounds the number of values read. *)
Fixpoint parse_value (fuel : nat) (s : string) : option (json * string) :=
  match fuel with
  | O => None
  | S fuel' =>
      match skip_ws s with
      | String "{"%char rest =>
          match skip_ws rest with
          | String "}"%char rest' => Some (JObj [], rest')
          | _ => '(ps, r) ← parse_members fuel' rest; Some (JObj ps, r)
          end
      | String "["%char rest =>
          match skip_ws rest with
          | String "]"%char rest' => Some (JArr [], rest')
          | _ => '(l, r) ← parse_elements fuel' rest; Some (JArr l, r)
          end
      | String "-"%char rest =>
          if starts_digit rest
          then let '(n, r) := take_number 0 rest in Some (JNum (- n), r)
          else None
      | String c rest as s1 =>
          if (nat_of_ascii c =? 34)%nat then
            '(str, r) ← parse_chars rest; Some (JStr str, r)
          else if is_digit c then
            let '(n, r) := take_number 0 s1 in Some (JNum n, r)
          else if String.prefix "true" s1 then
            Some (JBool true, String.substring 4 (String.length s1 - 4) s1)
          else if String.prefix "false" s1 then
            Some (JBool false, String.substring 5 (String.length s1 - 5) s1)
          else if String.prefix "null" s1 then
            Some (JNull, String.substring 4 (String.length s1 - 4) s1)
          else None
      | EmptyString => None
      end
  end
with parse_elements (fuel : nat) (s : string) : option (list json * string) :=
  match fuel with
  | O => None
  | S fuel' =>
      '(x, r) ← parse_value fuel' s;
      match skip_ws r with
      | String ","%char r' => '(l, r'') ← parse_elements fuel' r'; Some (x :: l, r'')
      | String "]"%char r' => Some ([x], r')
      | _ => None
      end
  end
with parse_members (fuel : nat) (s : string) : option (list (string * json) * string) :=
  match fuel with
  | O => None
  | S fuel' =>
      match skip_ws s with
      | String q rest =>
          if (nat_of_ascii q =? 34)%nat then
            '(k, r) ← parse_chars rest;
            r ← expect ":" (skip_ws r);
            '(x, r) ← parse_value fuel' r;
            match skip_ws r with
            | String ","%char r' =>
                '(ps, r'') ← parse_members fuel' r'; Some ((k, x) :: ps, r'')
            | String "}"%char r' => Some ([(k, x)], r')
            | _ => None
            end
          else None
      | EmptyString => None
      end
  end.

Definition JSON_parse_ref (s : string) : option json :=
  '(j, r) ← parse_value (String.length s) s;
  if bool_decide (skip_ws r = EmptyString) then Some j else None.
(* ===================================================================== *)
(** ** Well-formed snapshots and specification vocabulary *)
(* ===================================================================== *)

(** [detectNativeModules] stamps every module it finds with the capturing
    process's platform, architecture and ABI, so two entries of one snapshot
    that carry the same name agree on all three. *)
Definition same_build (m1 m2 : NativeModuleInfo) : bool :=
  bool_decide (nm_platform m1 = nm_platform m2)
  && bool_decide (nm_arch m1 = nm_arch m2)
  && bool_decide (nm_nodeAbi m1 = nm_nodeAbi m2).

Definition native_consistent (mods : list NativeModuleInfo) : bool :=
  forallb (fun m1 =>
             forallb (fun m2 =>
                        implb (bool_decide (nm_name m1 = nm_name m2))
                              (same_build m1 m2))
                     mods)
          mods.

Definition well_formed (s : EnvironmentSnapshot) : Prop :=
  native_consistent (nativeModules (dependencies s)) = true.

(* ===================================================================== *)
(** ** Sample snapshots

    Built like [createMockSnapshot] of the comparator's tests. *)
(* ===================================================================== *)

Definition sample_node : NodeVersionInfo :=
  {| nv_version := "v18.0.0"; nv_npmVersion := "9.0.0";
     nv_platform := "darwin"; nv_arch := "x64";
     nv_v8Version := "10.0.0"; nv_modules := "108";
     nv_openssl := Some "3.0.0" |}.

Definition sample_docker : DockerSnapshot :=
  {| dk_version := None; dk_platform := None; dk_arch := None;
     dk_images := []; dk_containers := []; dk_composeConfigs := [] |}.

Definition sample_system : SystemInfo :=
  {| sys_platform := "darwin"; sys_arch := "x64"; sys_cpus := 8;
     sys_totalMemory := 16000000000; sys_freeMemory := 8000000000;
     sys_hostname := "localhost" |}.

(** A mock snapshot with the given runtime, dependencies, variables and
    container state. *)
Definition mock_snapshot (node : NodeVersionInfo)
    (prod dev : gmap string string) (mods : list NativeModuleInfo)
    (vars : gmap string string) (dk : DockerSnapshot) : EnvironmentSnapshot :=
  {| timestamp := DateTime 1700000000123;
     environment := EnvLocal;
     nodeVersion := node;
     dependencies := {| production := prod; development := dev;
                        lockfileHash := "abc123"; nativeModules := mods |};
     envVars := {| variables := vars; redacted := [] |};
     docker := dk;
     system := sample_system;
     hash := "test123" |}.

Definition sample_module (name file platform : string) : NativeModuleInfo :=
  {| nm_name := name; nm_path := file; nm_platform := platform;
     nm_arch := "x64"; nm_nodeAbi := "108"; nm_size := 4096;
     nm_modified := DateTime 1600000000000 |}.

(** A package shipping two [.node] files yields two entries of one name. *)
Definition sample_snapshot : EnvironmentSnapshot :=
  mock_snapshot sample_node
    {[ "lodash" := "4.17.20" ]} {[ "vitest" := "1.0.0" ]}
    [ sample_module "bcrypt" "/app/node_modules/bcrypt/a.node" "linux";
      sample_module "bcrypt" "/app/node_modules/bcrypt/b.node" "linux" ]
    {[ "HOME" := "/root"; "API_KEY" := "[REDACTED]" ]}
    sample_docker.

(** The drifts of a sub-comparison that concern one field, reduced to what
    the claims speak about: severity, local value, remote value. *)
Definition reported (fld : string) (ds : list Drift)
  : list (DriftSeverity * value * value) :=
  map (fun d => (severity d, local d, remote d))
      (List.filter (fun d => bool_decide (field d = fld)) ds).

(** All packages of a snapshot, as [compareDependencies] merges them. *)
Definition allPackages (s : EnvironmentSnapshot) : gmap string string :=
  spread (production (dependencies s)) (development (dependencies s)).

(** Two snapshots that differ in one package only, which the remote side
    requires with the empty range (npm reads it as "any version"). *)
Definition without_foo : EnvironmentSnapshot :=
  mock_snapshot sample_node ∅ ∅ [] ∅ sample_docker.

Definition with_foo_any : EnvironmentSnapshot :=
  mock_snapshot sample_node {[ "foo" := EmptyString ]} ∅ [] ∅ sample_docker.

(** A container state with the given compose descriptors. *)
Definition with_compose (d : DockerSnapshot) (cs : list DockerComposeConfig)
  : DockerSnapshot :=
  {| dk_version := dk_version d; dk_platform := dk_platform d;
     dk_arch := dk_arch d; dk_images := dk_images d;
     dk_containers := dk_containers d; dk_composeConfigs := cs |}.

Definition with_docker (s : EnvironmentSnapshot) (d : DockerSnapshot)
  : EnvironmentSnapshot :=
  {| timestamp := timestamp s; environment := environment s;
     nodeVersion := nodeVersion s; dependencies := dependencies s;
     envVars := envVars s; docker := d; system := system s; hash := hash s |}.

Definition sample_compose : DockerComposeConfig :=
  {| cc_file := "/app/docker-compose.yml"; cc_version := Some "3.8";
     cc_services := ["web"; "db"]; cc_networks := []; cc_volumes := ["data"] |}.

(** Two snapshots that differ only in the number of compose files. *)
Definition one_compose_file : EnvironmentSnapshot :=
  mock_snapshot sample_node ∅ ∅ [] ∅ (with_compose sample_docker [sample_compose]).

Definition no_compose_file : EnvironmentSnapshot :=
  mock_snapshot sample_node ∅ ∅ [] ∅ sample_docker.

(** Two snapshots that differ only in the major version of npm. *)
Definition npm_nine : EnvironmentSnapshot :=
  mock_snapshot sample_node ∅ ∅ [] ∅ sample_docker.

Definition npm_ten : EnvironmentSnapshot :=
  mock_snapshot
    {| nv_version := "v18.0.0"; nv_npmVersion := "10.0.0";
       nv_platform := "darwin"; nv_arch := "x64";
       nv_v8Version := "10.0.0"; nv_modules := "108";
       nv_openssl := Some "3.0.0" |}
    ∅ ∅ [] ∅ sample_docker.

(** C9 as the specification words it: the drift reported for a difference
    of the npm versions has the severity the classifier assigns to the two
    version strings. *)
Definition npm_routed_through_classifier
    (parse : string -> option SemVer) (l r : EnvironmentSnapshot) : Prop :=
  ∀ d, d ∈ compareNodeVersions parse l r → field d = "npmVersion" →
       severity d = assessNodeVersionDrift parse (nv_npmVersion (nodeVersion l))
                                           (nv_npmVersion (nodeVersion r)).

(* ===================================================================== *)
(** ** Specification vocabulary for the orchestrator *)
(* ===================================================================== *)

(** The drifts of one category, in report order. *)
Definition in_category (c : DriftCategory) (ds : list Drift) : list Drift :=
  List.filter (fun d => bool_decide (category d = c)) ds.

(** The fixed cross-category processing order of [sync]. *)
Definition sync_order (ds : list Drift) : list Drift :=
  in_category CDependency ds ++ in_category CEnvvar ds
  ++ in_category CDocker ds ++ in_category CBinary ds
  ++ in_category CNodejs ds.

(** Drifts whose handler has a command branch: dependencies other than the
    lockfile, image drifts, native modules. *)
Definition automated (d : Drift) : bool :=
  match category d with
  | CDependency => negb (bool_decide (field d = "lockfile"))
  | CDocker => startsWith (field d) "docker.image."
  | CBinary => true
  | CEnvvar | CNodejs => false
  end.

(** The command a real run issues for a drift, if any. *)
Definition command_for (d : Drift) : option string :=
  match category d with
  | CDependency =>
      if bool_decide (field d = "lockfile") then None
      else
        let pkg := String_replace "dependency." EmptyString (field d) in
        if truthy (remote d)
        then Some ("npm install " +:+ pkg +:+ "@" +:+ to_string (remote d)
                     +:+ " --save-exact")
        else Some ("npm uninstall " +:+ pkg)
  | CDocker =>
      if startsWith (field d) "docker.image." && truthy (remote d)
      then Some ("docker pull " +:+ to_string (remote d))
      else None
  | CBinary =>
      Some ("npm rebuild " +:+ tpl (split_on "."%char (field d) !! 1%nat))
  | CEnvvar | CNodejs => None
  end.

(** Whether a run records an action for a drift. *)
Definition recorded (dry : bool) (d : Drift) : bool :=
  match category d with
  | CDocker =>
      negb (startsWith (field d) "docker.image.") || dry || truthy (remote d)
  | _ => true
  end.

(** The error description of a rejected call. *)
Definition rejection (c : ExecCall) : option string :=
  match outcome c with
  | Rejected msg => Some msg
  | Resolved => None
  end.

(** The simulation marker of a dry run. *)
Definition simulation_marker (a : SyncAction) : bool :=
  match action a with
  | Some text => startsWith text "[DRY RUN]"
  | None => false
  end.

(** What every recorded action looks like: a success carries a text and no
    error, and in a dry run the text is marked exactly for automated drifts;
    a failure carries an error description, and occurs in real runs only. *)
Definition action_shape (dry : bool) (a : SyncAction) : Prop :=
  if success a
  then error a = None ∧ is_Some (action a)
       ∧ (dry = true → simulation_marker a = automated (drift a))
  else action a = None ∧ is_Some (error a) ∧ dry = false.

(** A handler run over the drifts [ds]: it extends the journal with exactly
    the commands planned for [ds], records exactly the drifts to be
    recorded, and reports each rejection as an error, in order. *)
Definition handles (dry : bool) (m : Exec (list SyncAction)) (ds : list Drift)
  : Prop :=
  ∀ j, ∃ calls,
    (m j).2 = j ++ calls
    ∧ map command calls = (if dry then [] else omap command_for ds)
    ∧ map drift (m j).1 = List.filter (recorded dry) ds
    ∧ omap error (m j).1 = omap rejection calls
    ∧ Forall (action_shape dry) (m j).1.

(** The five handlers of [sync] run over a list of kept drifts. *)
Definition syncAll (shell : Journal -> string -> ExecOutcome) (dry : bool)
    (ds : list Drift) : Exec (list SyncAction) :=
  (let! depActions := syncDependencies shell (in_category CDependency ds) dry in
   let! envActions := syncEnvVars (in_category CEnvvar ds) dry in
   let! dockerActions := syncDocker shell (in_category CDocker ds) dry in
   let! binaryActions := syncNativeModules shell (in_category CBinary ds) dry in
   ret (depActions ++ envActions ++ dockerActions ++ binaryActions
        ++ syncNodeVersion (in_category CNodejs ds) dry))%exec.

(** The result [sync] builds from the recorded actions. *)
Definition syncResult (actions : list SyncAction) : SyncResult :=
  let succeeded := length (List.filter (fun a => success a) actions) in
  let failed := length (List.filter (fun a => negb (success a)) actions) in
  {| sr_success := (failed =? 0)%nat;
     sr_actions := actions;
     sr_summary := {| sum_total := length actions;
                      sum_succeeded := succeeded;
                      sum_failed := failed |} |}.

Definition with_drifts (r : DriftReport) (ds : list Drift) : DriftReport :=
  {| hasDrift := hasDrift r; report_severity := report_severity r;
     drifts := ds; summary := summary r;
     localSnapshot := localSnapshot r; remoteSnapshot := remoteSnapshot r |}.

(** A shell on which every command succeeds. *)
Definition shell_ok : Journal -> string -> ExecOutcome := fun _ _ => Resolved.

(** A shell on which installing lodash fails. *)
Definition shell_no_lodash : Journal -> string -> ExecOutcome :=
  fun _ cmd =>
    if String.prefix "npm install lodash" cmd
    then Rejected "npm ERR! network"
    else Resolved.

Definition default_options : SyncOptions :=
  {| autoFix := None; dryRun := None; categories := None; maxSeverity := None |}.

Definition dry_run_options : SyncOptions :=
  {| autoFix := None; dryRun := Some true; categories := None;
     maxSeverity := None |}.

(** C3 as the specification words it: in a dry run nothing is executed,
    there is one action per kept drift, and every action is successful and
    carries the simulation marker. *)
Definition dry_run_all_simulated (shell : Journal -> string -> ExecOutcome)
    (report : DriftReport) (options : SyncOptions) : Prop :=
  (sync shell report options []).2 = []
  ∧ length (sr_actions (sync shell report options []).1)
    = length (filterDrifts options (drifts report))
  ∧ Forall (fun a => success a = true ∧ simulation_marker a = true)
           (sr_actions (sync shell report options []).1).

(* ===================================================================== *)
(** ** Specification vocabulary for serialisation *)
(* ===================================================================== *)

Definition valid_date (d : Date) : bool :=
  match d with
  | DateTime _ => true
  | InvalidDate => false
  end.

(** The dates of a snapshot: its timestamp, the creation time of every
    image that has one, the modification time of every native module. *)
Definition snapshot_dates (s : EnvironmentSnapshot) : list Date :=
  timestamp s
  :: omap img_created (dk_images (docker s))
  ++ map nm_modified (nativeModules (dependencies s)).

(** An assembled snapshot holds valid dates only: [captureSnapshot] takes
    them from the clock ([new Date()]), from file metadata ([stats.mtime])
    and from the engine's image list. *)
Definition assembled (s : EnvironmentSnapshot) : Prop :=
  forallb valid_date (snapshot_dates s) = true.

Definition date_time (d : Date) : option Z :=
  match d with
  | DateTime t => Some t
  | InvalidDate => None
  end.

Definition snapshot_times (s : EnvironmentSnapshot) : list Z :=
  omap date_time (snapshot_dates s).

(** The law of the engine's date built-ins at one time value: the ISO string
    is not empty, and [Date.parse] reads it back. *)
Definition iso_restorable (toISOString : Z -> string) (Date_parse : string -> Date)
    (t : Z) : Prop :=
  toISOString t ≠ EmptyString ∧ Date_parse (toISOString t) = DateTime t.

(** The law of the engine's JSON built-ins at one document: [JSON.parse]
    reads back what [JSON.stringify] wrote. *)
Definition json_restorable (JSON_parse : string -> option json) (doc : json) : Prop :=
  JSON_parse (JSON_render EmptyString doc) = Some doc.

(** The elements and members [JSON.stringify] writes for an array and for an
    object. *)
Definition to_json_elems (toISOString : Z -> string) (l : list js) : list json :=
  map (fun x => default JNull (to_json toISOString x)) l.

Definition to_json_members (toISOString : Z -> string) (ps : list (string * js))
  : list (string * json) :=
  omap (fun kv => (fun j => (fst kv, j)) <$> to_json toISOString (snd kv)) ps.

(** The document written for a snapshot. *)
Definition snapshot_document (toISOString : Z -> string) (s : EnvironmentSnapshot)
  : json :=
  default JNull (to_json toISOString (js_of_snapshot s)).

(** A snapshot with images (with and without a creation time), a container
    with published ports and a native module. *)
Definition sample_full_snapshot : EnvironmentSnapshot :=
  mock_snapshot sample_node
    {[ "lodash" := "4.17.20"; "express" := "5.0.0" ]} {[ "vitest" := "1.0.0" ]}
    [ sample_module "bcrypt" "/app/node_modules/bcrypt/lib/binding.node" "linux" ]
    {[ "HOME" := "/root"; "API_KEY" := "[REDACTED]" ]}
    {| dk_version := Some "24.0.5"; dk_platform := Some "linux";
       dk_arch := None;
       dk_images :=
         [ {| img_id := "a3f8d9e2c1b4"; img_tags := ["node:18"; "node:lts"];
              img_size := 991000000; img_created := Some (DateTime 1690000000000) |};
           {| img_id := "0123456789ab"; img_tags := []; img_size := 5;
              img_created := None |} ];
       dk_containers :=
         [ {| ct_id := "c0ffee000000"; ct_name := "web"; ct_image := "node:18";
              ct_state := "running";
              ct_ports := Some [ JObj [ ("PrivatePort", JNum 80);
                                        ("Type", JStr "tcp") ] ] |} ];
       dk_composeConfigs := [ sample_compose ] |}.

(** The same snapshot with an Invalid Date as the module's modification
    time, which no capture produces. *)
Definition sample_invalid_date : EnvironmentSnapshot :=
  mock_snapshot sample_node ∅ ∅
    [ {| nm_name := "bcrypt"; nm_path := "binding.node"; nm_platform := "linux";
         nm_arch := "x64"; nm_nodeAbi := "108"; nm_size := 4096;
         nm_modified := InvalidDate |} ]
    ∅ sample_docker.

(* ===================================================================== *)
(** ** Further functions of the core and their vocabulary *)
(* ===================================================================== *)

(** The order none < low < medium < high < critical. *)
Definition severityRank (s : DriftSeverity) : nat :=
  match s with
  | SNone => 0
  | SLow => 1
  | SMedium => 2
  | SHigh => 3
  | SCritical => 4
  end.

(** The number of drifts of a severity. *)
Definition count_severity (s : DriftSeverity) (ds : list Drift) : nat :=
  length (List.filter (fun d => bool_decide (severity d = s)) ds).

(** [validators/node-version.ts]: [validateNodeVersion] *)
Record NodeValidation := {
  compatible : bool;
  issues : list string;
}.

Definition validateNodeVersion (l r : NodeVersionInfo) : NodeValidation :=
  let issues :=
    (if negb (bool_decide (nv_version l = nv_version r))
     then ["Node.js version mismatch: " +:+ nv_version l +:+ " vs " +:+ nv_version r]
     else [])
    ++ (if negb (bool_decide (nv_platform l = nv_platform r))
        then ["Platform mismatch: " +:+ nv_platform l +:+ " vs " +:+ nv_platform r]
        else [])
    ++ (if negb (bool_decide (nv_arch l = nv_arch r))
        then ["Architecture mismatch: " +:+ nv_arch l +:+ " vs " +:+ nv_arch r]
        else [])
    ++ (if negb (bool_decide (nv_modules l = nv_modules r))
        then ["ABI version mismatch: " +:+ nv_modules l +:+ " vs " +:+ nv_modules r]
        else []) in
  {| compatible := (length issues =? 0)%nat; issues := issues |}.

(** [validators/binaries.ts]: [isNativeModuleCompatible] *)
Definition isNativeModuleCompatible (l r : NativeModuleInfo) : bool :=
  bool_decide (nm_platform l = nm_platform r)
  && bool_decide (nm_arch l = nm_arch r)
  && bool_decide (nm_nodeAbi l = nm_nodeAbi r).

(** The order of the category blocks in a report. *)
Definition report_order (ds : list Drift) : list Drift :=
  in_category CNodejs ds ++ in_category CDependency ds
  ++ in_category CEnvvar ds ++ in_category CDocker ds
  ++ in_category CBinary ds.

(** A runtime description with the given version and platform. *)
Definition node_on (version platform : string) : NodeVersionInfo :=
  {| nv_version := version; nv_npmVersion := "9.0.0";
     nv_platform := platform; nv_arch := "x64";
     nv_v8Version := "10.0.0"; nv_modules := "108";
     nv_openssl := Some "3.0.0" |}.


(** A drift of category [c] with a proper severity (not "none"). *)
Definition proper_drift (c : DriftCategory) (d : Drift) : Prop :=
  category d = c ∧ severity d ≠ SNone.


(** Two snapshots on different platforms, equal otherwise. *)
Definition on_darwin : EnvironmentSnapshot :=
  mock_snapshot (node_on "v18.0.0" "darwin") ∅ ∅ [] ∅ sample_docker.

Definition on_linux : EnvironmentSnapshot :=
  mock_snapshot (node_on "v18.0.0" "linux") ∅ ∅ [] ∅ sample_docker.

(** Two snapshots that pin lodash at different patch levels. *)
Definition lodash_20 : EnvironmentSnapshot :=
  mock_snapshot sample_node {[ "lodash" := "4.17.20" ]} ∅ [] ∅ sample_docker.

Definition lodash_21 : EnvironmentSnapshot :=
  mock_snapshot sample_node {[ "lodash" := "4.17.21" ]} ∅ [] ∅ sample_docker.


(** All image tags of a container state, as [compareDockerConfigs] collects
    them. *)
Definition image_tags (d : DockerSnapshot) : list string :=
  flat_map img_tags (dk_images d).

(** Two runtimes that differ in ABI, V8 and OpenSSL only. *)
Definition abi_108 : EnvironmentSnapshot :=
  mock_snapshot sample_node ∅ ∅ [] ∅ sample_docker.

Definition abi_115 : EnvironmentSnapshot :=
  mock_snapshot
    {| nv_version := "v18.0.0"; nv_npmVersion := "9.0.0";
       nv_platform := "darwin"; nv_arch := "x64";
       nv_v8Version := "11.3.0"; nv_modules := "115";
       nv_openssl := None |}
    ∅ ∅ [] ∅ sample_docker.


(** [validators/env-vars.ts]: [captureEnvVars].  The process environment is
    a dictionary whose values may be [undefined]; whether a name matches one
    of [SENSITIVE_PATTERNS] is decided by the regular-expression engine, so
    the capture is parameterised by that test (a reference instance for
    ASCII names follows). *)
Section CaptureEnvVars.

Variable isSensitive : string -> bool.

(** One iteration of the loop over [Object.entries(process.env)]. *)
Definition captureEnvVar (redactSensitive : bool) (acc : EnvironmentVariables)
    (entry : string * option string) : EnvironmentVariables :=
  let key := fst entry in
  match snd entry with
  | None => acc
  | Some value =>
      if redactSensitive && isSensitive key
      then {| variables := <[key := "[REDACTED]"]> (variables acc);
              redacted := redacted acc ++ [key] |}
      else {| variables := <[key := value]> (variables acc);
              redacted := redacted acc |}
  end.

(** [captureEnvVars(options)], run in the environment [env]; the option
    [redactSensitive] defaults to [true]. *)
Definition captureEnvVars (redactSensitive : option bool)
    (env : gmap string (option string)) : EnvironmentVariables :=
  fold_left (captureEnvVar (default true redactSensitive))
            (map_to_list env)
            {| variables := ∅; redacted := [] |}.

End CaptureEnvVars.

Definition ascii_lower (c : ascii) : ascii :=
  let n := nat_of_ascii c in
  if (65 <=? n)%nat && (n <=? 90)%nat then ascii_of_nat (n + 32) else c.

(** [s.toLowerCase()] on ASCII letters. *)
Fixpoint toLowerCase (s : string) : string :=
  match s with
  | EmptyString => EmptyString
  | String c s' => String (ascii_lower c) (toLowerCase s')
  end.

Definition contains (s pat : string) : bool :=
  match String.index 0 pat s with
  | Some _ => true
  | None => false
  end.

(** Reference instance of [SENSITIVE_PATTERNS.some(p => p.test(key))] for
    ASCII names: each pattern is a case-insensitive search, [[_-]?] being an
    optional separator. *)
Definition sensitive_patterns : list (list string) :=
  [ ["apikey"; "api_key"; "api-key"];
    ["secret"];
    ["password"];
    ["token"];
    ["privatekey"; "private_key"; "private-key"];
    ["databaseurl"; "database_url"; "database-url"];
    ["dburl"; "db_url"; "db-url"];
    ["connectionstring"; "connection_string"; "connection-string"];
    ["auth"];
    ["credential"];
    ["accesskey"; "access_key"; "access-key"] ].

Definition sensitive_name (key : string) : bool :=
  existsb (existsb (contains (toLowerCase key))) sensitive_patterns.

Definition with_envVars (s : EnvironmentSnapshot) (e : EnvironmentVariables)
  : EnvironmentSnapshot :=
  {| timestamp := timestamp s; environment := environment s;
     nodeVersion := nodeVersion s; dependencies := dependencies s;
     envVars := e; docker := docker s; system := system s; hash := hash s |}.

(** Whether the environment defines a variable. *)
Definition defines (env : gmap string (option string)) (key : string) : bool :=
  match env !! key with
  | Some (Some _) => true
  | _ => false
  end.

(** Two process environments holding different secrets. *)
Definition env_local : gmap string (option string) :=
  {[ "HOME" := Some "/home/dev"; "API_KEY" := Some "local-secret";
     "Auth_Token" := Some "abc"; "UNSET" := None ]}.

Definition env_remote : gmap string (option string) :=
  {[ "HOME" := Some "/srv/app"; "API_KEY" := Some "prod-secret";
     "DB_URL" := Some "postgres://prod" ]}.


(* ===================================================================== *)
(** ** The exit decision of the CI plugins and of the commands *)
(* ===================================================================== *)

(** The string a [DriftSeverity] is at run time. *)
Definition severity_name (s : DriftSeverity) : string :=
  match s with
  | SNone => "none"
  | SLow => "low"
  | SMedium => "medium"
  | SHigh => "high"
  | SCritical => "critical"
  end.

Fixpoint indexOf_from (i : Z) (xs : list string) (x : string) : Z :=
  match xs with
  | [] => -1
  | y :: ys => if bool_decide (y = x) then i else indexOf_from (i + 1) ys x
  end.

(** [xs.indexOf(x)] *)
Definition indexOf (xs : list string) (x : string) : Z := indexOf_from 0 xs x.

(** [x || d] on an optional string. *)
Definition or_else (x : option string) (d : string) : string :=
  match x with
  | Some s => if bool_decide (s = EmptyString) then d else s
  | None => d
  end.

(** How a command ends: it returns, or it calls [process.exit]. *)
Inductive Ending :=
  | Returned
  | Exited (code : Z).

Section Commands.

Variable semver_parse : string -> option SemVer.

(** [runGitHubAction].  A snapshot that is [None] stands for the exception
    raised while capturing or loading it, which the [catch] block turns into
    exit code 1; the option [failOn] is whatever string the caller passed. *)
Definition runGitHubAction (localSnapshot baselineSnapshot : option EnvironmentSnapshot)
    (failOn : option string) : Ending :=
  match localSnapshot, baselineSnapshot with
  | Some l, Some b =>
      let report := compareSnapshots semver_parse l b in
      if negb (hasDrift report) then Returned
      else
        let failOn := or_else failOn "high" in
        let severityOrder := ["none"; "low"; "medium"; "high"; "critical"] in
        let failOnIndex := indexOf severityOrder failOn in
        let reportIndex :=
          indexOf severityOrder (severity_name (report_severity report)) in
        if (failOnIndex <=? reportIndex)%Z then Exited 1 else Returned
  | _, _ => Exited 1
  end.

(** [runGitLabCI] *)
Definition runGitLabCI (localSnapshot baselineSnapshot : option EnvironmentSnapshot)
    (failOn : option string) : Ending :=
  match localSnapshot, baselineSnapshot with
  | Some l, Some b =>
      let report := compareSnapshots semver_parse l b in
      if negb (hasDrift report) then Returned
      else
        let failOn := or_else failOn "high" in
        let severityOrder := ["none"; "low"; "medium"; "high"; "critical"] in
        let failOnIndex := indexOf severityOrder failOn in
        let reportIndex :=
          indexOf severityOrder (severity_name (report_severity report)) in
        if (failOnIndex <=? reportIndex)%Z then Exited 1 else Returned
  | _, _ => Exited 1
  end.

(** [validateCommand] *)
Definition validateCommand (localSnapshot remoteSnapshot : option EnvironmentSnapshot)
    (failOn : option string) : Ending :=
  match localSnapshot, remoteSnapshot with
  | Some l, Some r =>
      let report := compareSnapshots semver_parse l r in
      if negb (hasDrift report) then Exited 0
      else
        let failOn := or_else failOn "high" in
        let severityOrder := ["none"; "low"; "medium"; "high"; "critical"] in
        let failOnIndex := indexOf severityOrder failOn in
        let reportIndex :=
          indexOf severityOrder (severity_name (report_severity report)) in
        if (failOnIndex <=? reportIndex)%Z then Exited 1 else Exited 0
  | _, _ => Exited 1
  end.

(** [driftCommand] *)
Definition driftCommand (localSnapshot remoteSnapshot : option EnvironmentSnapshot)
    (failOn : option string) : Ending :=
  match localSnapshot, remoteSnapshot with
  | Some l, Some r =>
      let report := compareSnapshots semver_parse l r in
      if negb (hasDrift report) then Returned
      else
        match failOn with
        | Some name =>
            if bool_decide (name = EmptyString) then Returned
            else
              let severityOrder := ["low"; "medium"; "high"; "critical"] in
              let failOnIndex := indexOf severityOrder name in
              let reportIndex :=
                indexOf severityOrder (severity_name (report_severity report)) in
              if (failOnIndex <=? reportIndex)%Z then Exited 1 else Returned
        | None => Returned
        end
  | _, _ => Exited 1
  end.

(** [compareCommand]: both snapshots are loaded from files. *)
Definition compareCommand (localSnapshot remoteSnapshot : option EnvironmentSnapshot)
    : Ending :=
  match localSnapshot, remoteSnapshot with
  | Some l, Some r =>
      let report := compareSnapshots semver_parse l r in
      if bool_decide (report_severity report = SCritical)
         || bool_decide (report_severity report = SHigh)
      then Exited 1 else Returned
  | _, _ => Exited 1
  end.

End Commands.

(** The threshold a [failOn] string stands for, as a rank: the rank of the
    severity it names, "high" when it is absent or empty, and 0 (any drift)
    when it names no severity. *)
Definition fail_rank (name : string) : nat :=
  if bool_decide (name = "critical") then 4
  else if bool_decide (name = "high") then 3
  else if bool_decide (name = "medium") then 2
  else if bool_decide (name = "low") then 1
  else 0.

(** Whether some drift reaches a rank. *)
Definition reaches (rank : nat) (ds : list Drift) : bool :=
  existsb (fun d => (rank <=? severityRank (severity d))%nat) ds.

(** ** Vocabulary for the outcome of a run of [sync] *)

Definition rejected (o : ExecOutcome) : bool :=
  match o with
  | Rejected _ => true
  | Resolved => false
  end.

(** Whether the action of a drift fails, on a shell whose answer depends on
    the command alone. *)
Definition fails (answer : string -> ExecOutcome) (dry : bool) (d : Drift) : bool :=
  negb dry && match command_for d with
              | Some cmd => rejected (answer cmd)
              | None => false
              end.

(** The four kinds of command [sync] can issue. *)
Definition known_command (cmd : string) : bool :=
  String.prefix "npm install " cmd || String.prefix "npm uninstall " cmd
  || String.prefix "docker pull " cmd || String.prefix "npm rebuild " cmd.

Definition with_ceiling (options : SyncOptions) (m : option DriftSeverity)
    : SyncOptions :=
  {| autoFix := autoFix options; dryRun := dryRun options;
     categories := categories options; maxSeverity := m |}.

Definition with_categories (options : SyncOptions)
    (cs : option (list DriftCategory)) : SyncOptions :=
  {| autoFix := autoFix options; dryRun := dryRun options;
     categories := cs; maxSeverity := maxSeverity options |}.


(** The drifts whose action failed, in order. *)
Definition failing (acts : list SyncAction) : list Drift :=
  map drift (List.filter (fun a => negb (success a)) acts).

(** A handler run over [ds] on a shell answering by command alone: the
    failed actions are those of the drifts whose command is rejected. *)
Definition tracks (answer : string -> ExecOutcome) (dry : bool)
    (m : Exec (list SyncAction)) (ds : list Drift) : Prop :=
  ∀ j, failing (m j).1 = List.filter (fails answer dry) ds.


(** ** Vocabulary for loading a snapshot document *)










(* ===================================================================== *)
(** ** Snapshot fingerprints ([hash.ts]) *)
(* ===================================================================== *)

(** The text [JSON.stringify(j)] writes for a document: no white space. *)
Fixpoint JSON_compact (j : json) : string :=
  match j with
  | JNull => "null"
  | JBool true => "true"
  | JBool false => "false"
  | JNum n => Z_to_string n
  | JStr s => quote s
  | JArr l =>
      "[" +:+
      join ","
           ((fix items (l : list json) : list string :=
               match l with
               | [] => []
               | x :: l' => JSON_compact x :: items l'
               end) l)
      +:+ "]"
  | JObj ps =>
      "{" +:+
      join ","
           ((fix members (ps : list (string * json)) : list string :=
               match ps with
               | [] => []
               | (k, x) :: ps' =>
                   (quote k +:+ ":" +:+ JSON_compact x) :: members ps'
               end) ps)
      +:+ "}"
  end.

Section Hashing.

(** [createHash('sha256').update(s).digest('hex')] *)
Variable sha256_hex : string -> string.

(** [hashSnapshot] *)
Definition hashSnapshot (snapshot : EnvironmentSnapshot) : string :=
  let data :=
    JObj [ ("nodeVersion", JStr (nv_version (nodeVersion snapshot)));
           ("platform", JStr (nv_platform (nodeVersion snapshot)));
           ("arch", JStr (nv_arch (nodeVersion snapshot)));
           ("modules", JStr (nv_modules (nodeVersion snapshot)));
           ("dependenciesHash", JStr (lockfileHash (dependencies snapshot)));
           ("envVarsCount",
            JNum (Z.of_nat (length (Object_keys (variables (envVars snapshot))))));
           ("dockerVersion",
            match dk_version (docker snapshot) with
            | Some v => JStr v
            | None => JNull
            end);
           ("imagesCount",
            JNum (Z.of_nat (length (dk_images (docker snapshot))))) ] in
  String.substring 0 16 (sha256_hex (JSON_compact data)).

(** [compareSnapshotHashes] *)
Definition compareSnapshotHashes (hash1 hash2 : string) : bool :=
  bool_decide (hash1 = hash2).

End Hashing.

(** The sample snapshot taken later, on another host, with another key. *)
Definition sample_later_snapshot : EnvironmentSnapshot :=
  {| timestamp := DateTime 1700000000000;
     environment := EnvCi;
     nodeVersion := nodeVersion sample_full_snapshot;
     dependencies := dependencies sample_full_snapshot;
     envVars := envVars sample_full_snapshot;
     docker := docker sample_full_snapshot;
     system := {| sys_platform := sys_platform (system sample_full_snapshot);
                  sys_arch := sys_arch (system sample_full_snapshot);
                  sys_cpus := 64;
                  sys_totalMemory := sys_totalMemory (system sample_full_snapshot);
                  sys_freeMemory := 1;
                  sys_hostname := "runner-17" |};
     hash := "0000000000000000" |}.


(* ===================================================================== *)
(** ** Module names of native binaries ([validators/dependencies.ts]) *)
(* ===================================================================== *)

(** [s.split(/[/\\]/)] *)
Fixpoint split_path (s : string) : list string :=
  match s with
  | EmptyString => [EmptyString]
  | String c s' =>
      if bool_decide (c = "/"%char) || bool_decide (c = "\"%char)
      then EmptyString :: split_path s'
      else match split_path s' with
           | [] => [String c EmptyString]
           | w :: ws => String c w :: ws
           end
  end.

Fixpoint lastIndexOf_from (i : Z) (xs : list string) (x : string) : Z :=
  match xs with
  | [] => -1
  | y :: ys =>
      let later := lastIndexOf_from (i + 1) ys x in
      if (0 <=? later)%Z then later
      else if bool_decide (y = x) then i else -1
  end.

(** [xs.lastIndexOf(x)] *)
Definition lastIndexOf (xs : list string) (x : string) : Z :=
  lastIndexOf_from 0 xs x.

(** [extractModuleName] *)
Definition extractModuleName (filePath : string) : string :=
  let parts := split_path filePath in
  let nodeModulesIndex := lastIndexOf parts "node_modules" in
  if (nodeModulesIndex =? -1)%Z then "unknown"
  else
    let afterNodeModules := parts !! Z.to_nat (nodeModulesIndex + 1) in
    if match afterNodeModules with
       | Some a => startsWith a "@"
       | None => false
       end
    then tpl afterNodeModules +:+ "/"
           +:+ tpl (parts !! Z.to_nat (nodeModulesIndex + 2))
    else if truthy (of_lookup afterNodeModules)
         then tpl afterNodeModules else "unknown".

(** The name [syncNativeModules] reads back from the field of a drift:
    [field.split('.')[1]]. *)
Definition before_dot (name : string) : string :=
  default EmptyString (head (split_on "."%char name)).

Definition dot_free (name : string) : bool :=
  forallb (fun c => negb (bool_decide (c = "."%char))) (list_ascii_of_string name).



(* ===================================================================== *)
(** * Properties *)
(* ===================================================================== *)

(** ** Lists, sets and dictionaries *)

Lemma elem_of_filter_bool {A} (f : A -> bool) (l : list A) (x : A) :
  x ∈ List.filter f l ↔ x ∈ l ∧ f x = true.
Proof. rewrite !list_elem_of_In. apply filter_In. Qed.

Lemma filter_bool_nil {A} (f : A -> bool) (l : list A) :
  (∀ x, x ∈ l → f x = false) → List.filter f l = [].
Proof.
  induction l as [|a l IH]; intros H; [done|].
  simpl. rewrite (H a) by left. apply IH. intros x Hx. apply H. by right.
Qed.

Lemma flat_map_nil {A B} (f : A -> list B) (l : list A) :
  (∀ x, x ∈ l → f x = []) → flat_map f l = [].
Proof.
  induction l as [|a l IH]; intros H; [done|].
  simpl. rewrite (H a) by left. apply IH. intros x Hx. apply H. by right.
Qed.

Lemma elem_of_js_Set (l : list string) (x : string) : x ∈ js_Set l ↔ x ∈ l.
Proof.
  induction l as [|a l IH]; [done|].
  simpl. rewrite !elem_of_cons, elem_of_filter_bool, IH.
  destruct (decide (x = a)) as [->|Hne].
  - split; [intros _|]; by left.
  - rewrite bool_decide_eq_false_2 by done. simpl. tauto.
Qed.

Lemma NoDup_filter_bool {A} (f : A -> bool) (l : list A) :
  NoDup l → NoDup (List.filter f l).
Proof. rewrite !NoDup_ListNoDup. apply List.NoDup_filter. Qed.

Lemma NoDup_js_Set (l : list string) : NoDup (js_Set l).
Proof.
  induction l as [|a l IH]; simpl; [constructor|].
  apply NoDup_cons. split.
  - rewrite elem_of_filter_bool. intros [_ H].
    by rewrite bool_decide_eq_true_2 in H.
  - by apply NoDup_filter_bool.
Qed.

Lemma elem_of_Object_keys (m : gmap string string) (k : string) :
  k ∈ Object_keys m ↔ is_Some (m !! k).
Proof.
  unfold Object_keys. rewrite list_elem_of_fmap. split.
  - intros [[k' v] [-> H]]. apply elem_of_map_to_list in H. by exists v.
  - intros [v H]. exists (k, v). split; [done|]. by apply elem_of_map_to_list.
Qed.

Lemma Set_has_keys (m : gmap string string) (k : string) :
  Set_has (js_Set (Object_keys m)) k = bool_decide (is_Some (m !! k)).
Proof.
  unfold Set_has. apply bool_decide_ext.
  by rewrite elem_of_js_Set, elem_of_Object_keys.
Qed.

(** ** Comparing a snapshot with itself *)

Lemma compareNodeVersions_self parse s : compareNodeVersions parse s s = [].
Proof. unfold compareNodeVersions. by rewrite !bool_decide_eq_true_2. Qed.

Lemma compareDependency_self parse m pkg : compareDependency parse m m pkg = [].
Proof.
  unfold compareDependency.
  destruct (truthy (of_lookup (m !! pkg))); simpl;
    by rewrite bool_decide_eq_true_2.
Qed.

Lemma compareDependencies_self parse s : compareDependencies parse s s = [].
Proof.
  unfold compareDependencies.
  rewrite flat_map_nil by (intros; apply compareDependency_self).
  by rewrite bool_decide_eq_true_2.
Qed.

Lemma compareEnvironmentVars_self s : compareEnvironmentVars s s = [].
Proof.
  unfold compareEnvironmentVars, compareEnvVars. simpl.
  rewrite (filter_bool_nil (fun key => negb _)).
  - rewrite filter_bool_nil; [done|].
    intros x _. rewrite (bool_decide_eq_true_2 (_ !! _ = _)) by done.
    apply andb_false_r.
  - intros x Hx. unfold Set_has. by rewrite bool_decide_eq_true_2.
Qed.

Lemma compareDocker_self s : compareDocker s s = [].
Proof.
  unfold compareDocker, compareDockerConfigs. simpl.
  rewrite bool_decide_eq_true_2 by done. simpl.
  rewrite !filter_bool_nil; [done|intros x Hx..];
    unfold Set_has; by rewrite bool_decide_eq_true_2.
Qed.

Lemma find_same_name (mods : list NativeModuleInfo) (m : NativeModuleInfo) :
  m ∈ mods →
  ∃ m', List.find (fun x => bool_decide (nm_name x = nm_name m)) mods = Some m'
        ∧ m' ∈ mods ∧ nm_name m' = nm_name m.
Proof.
  intros Hm.
  destruct (List.find _ mods) as [m'|] eqn:E.
  - apply find_some in E as [Hin Hn]. apply bool_decide_eq_true_1 in Hn.
    exists m'. by rewrite list_elem_of_In.
  - apply list_elem_of_In in Hm.
    pose proof (find_none _ _ E _ Hm) as Hn.
    simpl in Hn. by apply bool_decide_eq_false_1 in Hn.
Qed.

Lemma native_consistent_spec mods m1 m2 :
  native_consistent mods = true → m1 ∈ mods → m2 ∈ mods →
  nm_name m1 = nm_name m2 →
  nm_platform m1 = nm_platform m2 ∧ nm_arch m1 = nm_arch m2
  ∧ nm_nodeAbi m1 = nm_nodeAbi m2.
Proof.
  unfold native_consistent. rewrite forallb_forall.
  intros H H1 H2 Hn. apply list_elem_of_In in H1, H2.
  specialize (H _ H1). rewrite forallb_forall in H. specialize (H _ H2).
  rewrite bool_decide_eq_true_2 in H by done. simpl in H.
  unfold same_build in H. rewrite !andb_true_iff in H.
  destruct H as [[Ha Hb] Hc].
  by apply bool_decide_eq_true_1 in Ha, Hb, Hc.
Qed.

Lemma compareNativeModules_self mods :
  native_consistent mods = true → compareNativeModules mods mods = [].
Proof.
  intros Hwf. unfold compareNativeModules.
  rewrite !flat_map_nil; [done|intros m Hm..].
  - unfold compareRemoteModule.
    destruct (find_same_name mods m Hm) as (m' & -> & _); done.
  - unfold compareLocalModule.
    destruct (find_same_name mods m Hm) as (m' & -> & Hin & Hn).
    destruct (native_consistent_spec mods m m' Hwf Hm Hin (eq_sym Hn))
      as (-> & -> & ->).
    by rewrite !bool_decide_eq_true_2.
Qed.

(** C1: comparing a well-formed snapshot with itself reports no drift at
    all: the drift list is empty, [hasDrift] is false and the overall
    severity is "none". *)
Theorem compareSnapshots_self parse (s : EnvironmentSnapshot) :
  well_formed s →
  drifts (compareSnapshots parse s s) = []
  ∧ hasDrift (compareSnapshots parse s s) = false
  ∧ report_severity (compareSnapshots parse s s) = SNone.
Proof.
  intros Hwf. unfold compareSnapshots. simpl.
  rewrite compareNodeVersions_self, compareDependencies_self,
    compareEnvironmentVars_self, compareDocker_self,
    compareNativeModules_self by exact Hwf.
  done.
Qed.

Lemma compareSnapshots_self_witness :
  well_formed sample_snapshot
  ∧ drifts (compareSnapshots semver_core_parse sample_snapshot sample_snapshot) = []
  ∧ hasDrift (compareSnapshots semver_core_parse sample_snapshot sample_snapshot) = false
  ∧ report_severity (compareSnapshots semver_core_parse sample_snapshot sample_snapshot)
    = SNone.
Proof.
  assert (Hwf : well_formed sample_snapshot) by (vm_compute; reflexivity).
  split; [exact Hwf|].
  exact (compareSnapshots_self semver_core_parse sample_snapshot Hwf).
Defined.

(** Without the agreement of same-named native modules the self-comparison
    is not empty: the second entry is compared with the first. *)
Example compareNativeModules_self_inconsistent :
  map severity
      (compareNativeModules
         [ sample_module "bcrypt" "a.node" "linux";
           sample_module "bcrypt" "b.node" "darwin" ]
         [ sample_module "bcrypt" "a.node" "linux";
           sample_module "bcrypt" "b.node" "darwin" ])
  = [SCritical].
Proof. vm_compute. reflexivity. Qed.

(** ** The severity classifier *)

(** C2: the classifier of dependency version drift returns "medium" when
    either string fails to parse, otherwise "high" when the major components
    differ, otherwise "medium" when the minor components differ, otherwise
    "low"; in particular (1,0,0)/(2,0,0) is "high", (1,2,0)/(1,3,0) is
    "medium" and (1,2,3)/(1,2,4) is "low". *)
Theorem assessVersionDrift_classifies parse (l r : string) :
  ((parse l = None ∨ parse r = None) →
     assessVersionDrift parse (Some l) (Some r) = SMedium)
  ∧ (∀ a b, parse l = Some a → parse r = Some b →
       (major a ≠ major b → assessVersionDrift parse (Some l) (Some r) = SHigh)
       ∧ (major a = major b → minor a ≠ minor b →
            assessVersionDrift parse (Some l) (Some r) = SMedium)
       ∧ (major a = major b → minor a = minor b →
            assessVersionDrift parse (Some l) (Some r) = SLow))
  ∧ (parse l = Some {| major := 1; minor := 0; patch := 0 |} →
     parse r = Some {| major := 2; minor := 0; patch := 0 |} →
     assessVersionDrift parse (Some l) (Some r) = SHigh)
  ∧ (parse l = Some {| major := 1; minor := 2; patch := 0 |} →
     parse r = Some {| major := 1; minor := 3; patch := 0 |} →
     assessVersionDrift parse (Some l) (Some r) = SMedium)
  ∧ (parse l = Some {| major := 1; minor := 2; patch := 3 |} →
     parse r = Some {| major := 1; minor := 2; patch := 4 |} →
     assessVersionDrift parse (Some l) (Some r) = SLow).
Proof.
  unfold assessVersionDrift, parse_version.
  split; [|split; [|repeat split]].
  - intros [-> | ->]; [done|]. by destruct (parse l).
  - intros a b -> ->. repeat split.
    + intros H. by rewrite bool_decide_eq_false_2.
    + intros H1 H2. rewrite bool_decide_eq_true_2 by done.
      by rewrite bool_decide_eq_false_2.
    + intros H1 H2. by rewrite !bool_decide_eq_true_2.
  - by intros -> ->.
  - by intros -> ->.
  - by intros -> ->.
Qed.

Lemma assessVersionDrift_classifies_witness :
  assessVersionDrift semver_core_parse (Some "^4.0.0") (Some "5.0.0") = SMedium
  ∧ assessVersionDrift semver_core_parse (Some "4.17.21") (Some "5.0.0") = SHigh
  ∧ assessVersionDrift semver_core_parse (Some "1.0.0") (Some "2.0.0") = SHigh
  ∧ assessVersionDrift semver_core_parse (Some "1.2.0") (Some "1.3.0") = SMedium
  ∧ assessVersionDrift semver_core_parse (Some "1.2.3") (Some "1.2.4") = SLow.
Proof.
  split; [|split; [|split; [|split]]].
  - destruct (assessVersionDrift_classifies semver_core_parse "^4.0.0" "5.0.0")
      as (H & _).
    apply H. left. reflexivity.
  - destruct (assessVersionDrift_classifies semver_core_parse "4.17.21" "5.0.0")
      as (_ & H & _).
    destruct (H _ _ eq_refl eq_refl) as (Hmajor & _).
    apply Hmajor. simpl. discriminate.
  - destruct (assessVersionDrift_classifies semver_core_parse "1.0.0" "2.0.0")
      as (_ & _ & H & _).
    apply H; reflexivity.
  - destruct (assessVersionDrift_classifies semver_core_parse "1.2.0" "1.3.0")
      as (_ & _ & _ & H & _).
    apply H; reflexivity.
  - destruct (assessVersionDrift_classifies semver_core_parse "1.2.3" "1.2.4")
      as (_ & _ & _ & _ & H).
    apply H; reflexivity.
Defined.

(** ** Environment variables *)

Lemma filter_key_NoDup (ks : list string) (key : string) :
  NoDup ks →
  List.filter (fun k => bool_decide (k = key)) ks
  = if bool_decide (key ∈ ks) then [key] else [].
Proof.
  induction 1 as [|k ks Hk Hnd IH]; [done|].
  simpl. destruct (decide (k = key)) as [->|Hne].
  - rewrite bool_decide_eq_true_2 by done.
    rewrite (bool_decide_eq_true_2 (_ ∈ _)) by left.
    rewrite IH. by rewrite bool_decide_eq_false_2.
  - rewrite bool_decide_eq_false_2 by done. rewrite IH.
    apply (f_equal (fun b : bool => if b then [key] else [])).
    apply bool_decide_ext. rewrite elem_of_cons.
    split; [by right|]. by intros [->|?].
Qed.

Lemma reported_map (mk : string -> Drift) (pre key : string) (ks : list string) :
  (∀ k, field (mk k) = pre +:+ k) → NoDup ks →
  reported (pre +:+ key) (map mk ks)
  = if bool_decide (key ∈ ks)
    then [(severity (mk key), local (mk key), remote (mk key))] else [].
Proof.
  intros Hf Hnd. unfold reported.
  assert (List.filter (fun d => bool_decide (field d = pre +:+ key)) (map mk ks)
          = map mk (List.filter (fun k => bool_decide (k = key)) ks)) as ->.
  { clear Hnd. induction ks as [|k ks IH]; [done|].
    simpl. rewrite Hf.
    assert (bool_decide (pre +:+ k = pre +:+ key) = bool_decide (k = key)) as ->.
    { apply bool_decide_ext. split; [|by intros ->].
      clear. induction pre as [|c pre IHp]; simpl; [done|].
      intros [= H]. by apply IHp. }
    case_bool_decide; simpl; by rewrite IH. }
  rewrite filter_key_NoDup by done. by case_bool_decide.
Qed.

Lemma reported_app fld ds1 ds2 :
  reported fld (ds1 ++ ds2) = reported fld ds1 ++ reported fld ds2.
Proof. unfold reported. by rewrite List.filter_app, map_app. Qed.

Lemma elem_of_missing l r key :
  key ∈ missing (compareEnvVars l r)
  ↔ variables l !! key = None ∧ is_Some (variables r !! key).
Proof.
  unfold compareEnvVars. simpl.
  rewrite elem_of_filter_bool, elem_of_js_Set, elem_of_Object_keys, Set_has_keys.
  rewrite negb_true_iff, bool_decide_eq_false, <- eq_None_not_Some. tauto.
Qed.

Lemma elem_of_extra l r key :
  key ∈ extra (compareEnvVars l r)
  ↔ is_Some (variables l !! key) ∧ variables r !! key = None.
Proof.
  unfold compareEnvVars. simpl.
  rewrite elem_of_filter_bool, elem_of_js_Set, elem_of_Object_keys, Set_has_keys.
  rewrite negb_true_iff, bool_decide_eq_false, <- eq_None_not_Some. tauto.
Qed.

Lemma elem_of_different l r key :
  key ∈ different (compareEnvVars l r)
  ↔ ∃ a b, variables l !! key = Some a ∧ variables r !! key = Some b
           ∧ a ≠ b ∧ a ≠ "[REDACTED]" ∧ b ≠ "[REDACTED]".
Proof.
  unfold compareEnvVars. simpl.
  rewrite elem_of_filter_bool, elem_of_js_Set, elem_of_Object_keys, Set_has_keys.
  rewrite !andb_true_iff, !negb_true_iff, !bool_decide_eq_false, bool_decide_eq_true.
  split.
  - intros ([a Ha] & [b Hb] & (Hab & Hra) & Hrb).
    exists a, b. rewrite Ha, Hb in *. repeat split; congruence.
  - intros (a & b & Ha & Hb & Hab & Hra & Hrb). rewrite Ha, Hb.
    repeat split; eauto; congruence.
Qed.

(** C5: for every pair of variable sets and every key, the envvar
    sub-comparison reports exactly: one "high" drift when the key is present
    only remotely, one "low" drift when it is present only locally, one
    "medium" drift when it is present on both sides with different values,
    and nothing at all when a key of both sides carries the redaction
    sentinel on either side (or the values agree). *)
Theorem compareEnvironmentVars_classifies (l r : EnvironmentSnapshot) (key : string) :
  reported ("env." +:+ key) (compareEnvironmentVars l r)
  = match variables (envVars l) !! key, variables (envVars r) !! key with
    | None, Some _ => [(SHigh, VUndefined, VString "[SET]")]
    | Some _, None => [(SLow, VString "[SET]", VUndefined)]
    | Some a, Some b =>
        if bool_decide (a = "[REDACTED]" ∨ b = "[REDACTED]") then []
        else if bool_decide (a = b) then []
        else [(SMedium, VString a, VString b)]
    | None, None => []
    end.
Proof.
  unfold compareEnvironmentVars.
  rewrite !reported_app.
  rewrite !(reported_map _ "env.") by
    (try done; unfold compareEnvVars; simpl;
     apply NoDup_filter_bool, NoDup_js_Set).
  pose proof (elem_of_missing (envVars l) (envVars r) key) as Hmis.
  pose proof (elem_of_extra (envVars l) (envVars r) key) as Hext.
  pose proof (elem_of_different (envVars l) (envVars r) key) as Hdif.
  destruct (variables (envVars l) !! key) as [a|] eqn:Ha,
    (variables (envVars r) !! key) as [b|] eqn:Hb.
  - rewrite (bool_decide_eq_false_2 (key ∈ missing _))
      by (rewrite Hmis; intros [? _]; done).
    rewrite (bool_decide_eq_false_2 (key ∈ extra _))
      by (rewrite Hext; intros [_ ?]; done).
    simpl.
    destruct (decide (key ∈ different (compareEnvVars (envVars l) (envVars r))))
      as [Hd|Hd].
    + rewrite (bool_decide_eq_true_2 _ Hd).
      apply Hdif in Hd as (a' & b' & [= <-] & [= <-] & Hab & Hra & Hrb).
      rewrite bool_decide_eq_false_2 by tauto.
      by rewrite bool_decide_eq_false_2.
    + rewrite (bool_decide_eq_false_2 _ Hd).
      repeat case_bool_decide; try done.
      exfalso. apply Hd, Hdif. exists a, b. tauto.
  - rewrite (bool_decide_eq_false_2 (key ∈ missing _))
      by (rewrite Hmis; intros [? _]; done).
    rewrite (bool_decide_eq_true_2 (key ∈ extra _)) by (rewrite Hext; eauto).
    rewrite (bool_decide_eq_false_2 (key ∈ different _)); [done|].
    rewrite Hdif. intros (a' & b' & _ & ? & _). done.
  - rewrite (bool_decide_eq_true_2 (key ∈ missing _)) by (rewrite Hmis; eauto).
    rewrite (bool_decide_eq_false_2 (key ∈ extra _))
      by (rewrite Hext; intros [[? ?] _]; done).
    rewrite (bool_decide_eq_false_2 (key ∈ different _)); [done|].
    rewrite Hdif. intros (a' & b' & ? & _). done.
  - rewrite (bool_decide_eq_false_2 (key ∈ missing _))
      by (rewrite Hmis; intros [_ [? ?]]; done).
    rewrite (bool_decide_eq_false_2 (key ∈ extra _))
      by (rewrite Hext; intros [[? ?] _]; done).
    rewrite (bool_decide_eq_false_2 (key ∈ different _)); [done|].
    rewrite Hdif. intros (a' & b' & ? & _). done.
Qed.

(** ** Dependencies *)

Lemma reported_flat_map (f : string -> list Drift) (pre key : string)
    (ks : list string) :
  (∀ k d, d ∈ f k → field d = pre +:+ k) → NoDup ks →
  reported (pre +:+ key) (flat_map f ks)
  = if bool_decide (key ∈ ks)
    then map (fun d => (severity d, local d, remote d)) (f key) else [].
Proof.
  intros Hf. induction 1 as [|k ks Hk Hnd IH]; [done|].
  simpl. rewrite reported_app, IH.
  destruct (decide (k = key)) as [->|Hne].
  - rewrite (bool_decide_eq_true_2 (key ∈ key :: ks)) by left.
    rewrite (bool_decide_eq_false_2 (key ∈ ks)) by done.
    rewrite app_nil_r. unfold reported. f_equal.
    apply forallb_filter_id, forallb_forall. intros d Hd.
    apply bool_decide_eq_true_2, Hf. by apply list_elem_of_In.
  - assert (reported (pre +:+ key) (f k) = []) as ->.
    { unfold reported. rewrite filter_bool_nil; [done|].
      intros d Hd. apply bool_decide_eq_false_2. rewrite (Hf _ _ Hd).
      intros Heq. apply Hne. clear -Heq.
      induction pre as [|c pre IHp]; simpl in Heq; [done|].
      injection Heq as Heq. by apply IHp. }
    simpl. apply (f_equal (fun b : bool => if b then _ else [])).
    apply bool_decide_ext. rewrite elem_of_cons.
    split; [by right|]. by intros [->|?].
Qed.

Lemma compareDependency_field parse ml mr pkg d :
  d ∈ compareDependency parse ml mr pkg → field d = "dependency." +:+ pkg.
Proof.
  unfold compareDependency.
  repeat (case_match; simpl); rewrite ?list_elem_of_singleton;
    try (by intros ->); by intros ?%elem_of_nil.
Qed.

Lemma reported_dependency parse l r pkg :
  reported ("dependency." +:+ pkg) (compareDependencies parse l r)
  = if bool_decide (is_Some (allPackages l !! pkg) ∨ is_Some (allPackages r !! pkg))
    then map (fun d => (severity d, local d, remote d))
             (compareDependency parse (allPackages l) (allPackages r) pkg)
    else [].
Proof.
  unfold compareDependencies. fold (allPackages l) (allPackages r).
  rewrite reported_app.
  rewrite (reported_flat_map _ "dependency.")
    by (eauto using compareDependency_field, NoDup_js_Set).
  assert (reported ("dependency." +:+ pkg)
            (if negb (bool_decide (lockfileHash (dependencies l)
                                   = lockfileHash (dependencies r)))
             then [ {| category := CDependency; severity := SHigh;
                       field := "lockfile";
                       local := VString (String.substring 0 8 (lockfileHash (dependencies l)));
                       remote := VString (String.substring 0 8 (lockfileHash (dependencies r)));
                       impact := "Lockfile mismatch - exact dependency versions differ";
                       recommendation := "Sync lockfile to ensure identical dependency tree" |} ]
             else []) = []) as ->.
  { by destruct (negb _). }
  rewrite app_nil_r.
  apply (f_equal (fun b : bool => if b then _ else [])).
  apply bool_decide_ext.
  by rewrite elem_of_js_Set, elem_of_app, !elem_of_Object_keys.
Qed.

(** Where the claim of C6 holds: a package required remotely with a
    non-empty range and absent locally is reported "high", and "medium"
    with the two values exchanged when the arguments are swapped. *)
Lemma compareDependencies_asymmetric parse l r pkg (v : string) :
  allPackages l !! pkg = None → allPackages r !! pkg = Some v →
  v ≠ EmptyString →
  reported ("dependency." +:+ pkg) (compareDependencies parse l r)
  = [(SHigh, VUndefined, VString v)]
  ∧ reported ("dependency." +:+ pkg) (compareDependencies parse r l)
    = [(SMedium, VString v, VUndefined)].
Proof.
  intros Hl Hr Hv. rewrite !reported_dependency.
  rewrite !bool_decide_eq_true_2 by (rewrite Hl, Hr; eauto).
  unfold compareDependency. rewrite Hl, Hr. simpl.
  by rewrite bool_decide_eq_false_2.
Qed.

(** C6, at the failing input: a package present only remotely, with the
    empty range, is reported "medium" (not "high") through the
    version-mismatch branch, in both argument orders. *)
Theorem compareDependencies_empty_range :
  allPackages without_foo !! "foo" = None
  ∧ allPackages with_foo_any !! "foo" = Some EmptyString
  ∧ reported "dependency.foo"
      (compareDependencies semver_core_parse without_foo with_foo_any)
    = [(SMedium, VUndefined, VString EmptyString)]
  ∧ reported "dependency.foo"
      (compareDependencies semver_core_parse with_foo_any without_foo)
    = [(SMedium, VString EmptyString, VUndefined)].
Proof. vm_compute. done. Qed.

(** ** Containers *)

(** The container sub-comparison never looks at the compose descriptors. *)
Lemma compareDocker_ignores_compose l r cl cr :
  compareDocker (with_docker l (with_compose (docker l) cl))
                (with_docker r (with_compose (docker r) cr))
  = compareDocker l r.
Proof. reflexivity. Qed.

(** C8, at the failing input: with one compose file against none, the
    validator records the count mismatch, but the container sub-comparison
    turns it into no drift, and the whole report stays empty. *)
Theorem compareDocker_drops_compose_mismatch :
  configDifferences (compareDockerConfigs (docker one_compose_file)
                                          (docker no_compose_file))
  = ["Compose file count mismatch: 1 vs 0"]
  ∧ compareDocker one_compose_file no_compose_file = []
  ∧ drifts (compareSnapshots semver_core_parse one_compose_file no_compose_file) = []
  ∧ hasDrift (compareSnapshots semver_core_parse one_compose_file no_compose_file)
    = false.
Proof. vm_compute. done. Qed.

(** ** Runtime *)

(** C9, as amended: a difference between the two npm version strings is
    always reported with severity "low", whatever their components; equal
    strings are not reported. *)
Theorem compareNodeVersions_npm_low parse (l r : EnvironmentSnapshot) :
  reported "npmVersion" (compareNodeVersions parse l r)
  = if bool_decide (nv_npmVersion (nodeVersion l) = nv_npmVersion (nodeVersion r))
    then []
    else [(SLow, VString (nv_npmVersion (nodeVersion l)),
                 VString (nv_npmVersion (nodeVersion r)))].
Proof.
  unfold compareNodeVersions. rewrite !reported_app.
  repeat case_bool_decide; reflexivity.
Qed.

(** C9 as stated fails: npm 9.0.0 against 10.0.0 differ in the major
    component, which the classifier rates "high", and the drift is "low". *)
Lemma npm_major_difference_is_low :
  assessNodeVersionDrift semver_core_parse "9.0.0" "10.0.0" = SHigh
  ∧ ¬ npm_routed_through_classifier semver_core_parse npm_nine npm_ten.
Proof.
  split; [reflexivity|].
  intros H.
  specialize (H {| category := CNodejs; severity := SLow; field := "npmVersion";
                   local := VString "9.0.0"; remote := VString "10.0.0";
                   impact := "Package installation behavior may differ";
                   recommendation := "Update npm to 10.0.0" |}).
  discriminate H; [|reflexivity].
  vm_compute. left.
Qed.

(** ** The orchestrator *)

Lemma in_category_app c ds1 ds2 :
  in_category c (ds1 ++ ds2) = in_category c ds1 ++ in_category c ds2.
Proof. apply List.filter_app. Qed.

Lemma groupDriftsByCategory_lookup (ds : list Drift) (c : DriftCategory) :
  groupDriftsByCategory ds c
  = match in_category c ds with [] => None | g => Some g end.
Proof.
  unfold groupDriftsByCategory.
  enough (∀ pre (acc : Grouped),
             (∀ c, acc c = match in_category c pre with [] => None | g => Some g end) →
             fold_left
               (fun (grouped : Grouped) d =>
                  let bucket := match grouped (category d) with
                                | Some b => b
                                | None => []
                                end in
                  fun c => if bool_decide (c = category d)
                           then Some (bucket ++ [d]) else grouped c)
               ds acc c
             = match in_category c (pre ++ ds) with [] => None | g => Some g end)
    as H by (apply (H []); done).
  revert c. induction ds as [|d ds IH]; intros c pre acc Hacc.
  - simpl. by rewrite app_nil_r.
  - simpl. rewrite (IH c (pre ++ [d])).
    + by rewrite <- app_assoc.
    + intros c'. rewrite in_category_app. simpl.
      rewrite (Hacc (category d)), (Hacc c').
      destruct (decide (c' = category d)) as [->|Hne].
      * rewrite !bool_decide_eq_true_2 by done.
        by destruct (in_category (category d) pre).
      * rewrite bool_decide_eq_false_2 by done.
        rewrite (bool_decide_eq_false_2 (category d = c')) by done.
        by rewrite app_nil_r.
Qed.

Lemma grouped_handler {B} (h : list Drift -> B) (e : B) ds c :
  h [] = e →
  match groupDriftsByCategory ds c with Some g => h g | None => e end
  = h (in_category c ds).
Proof.
  intros <-. rewrite groupDriftsByCategory_lookup.
  by destruct (in_category c ds).
Qed.

(** [sync] is its five handlers over the kept drifts, followed by the
    summary. *)
Lemma sync_unfold shell report options j :
  sync shell report options j
  = (syncResult (syncAll shell (default false (dryRun options))
                   (filterDrifts options (drifts report)) j).1,
     (syncAll shell (default false (dryRun options))
        (filterDrifts options (drifts report)) j).2).
Proof.
  unfold sync, syncAll. cbv zeta.
  set (ds := filterDrifts options (drifts report)).
  set (dry := default false (dryRun options)).
  rewrite (grouped_handler (fun g => syncDependencies shell g dry) (ret []))
    by reflexivity.
  rewrite (grouped_handler (fun g => syncEnvVars g dry) (ret [])) by reflexivity.
  rewrite (grouped_handler (fun g => syncDocker shell g dry) (ret [])) by reflexivity.
  rewrite (grouped_handler (fun g => syncNativeModules shell g dry) (ret []))
    by reflexivity.
  rewrite (grouped_handler (fun g => syncNodeVersion g dry) []) by reflexivity.
  unfold bind.
  destruct (syncDependencies shell (in_category CDependency ds) dry j) as [dep j1].
  destruct (syncEnvVars (in_category CEnvvar ds) dry j1) as [env j2].
  destruct (syncDocker shell (in_category CDocker ds) dry j2) as [dock j3].
  destruct (syncNativeModules shell (in_category CBinary ds) dry j3) as [bin j4].
  reflexivity.
Qed.

Lemma handles_nil dry : handles dry (ret []) [].
Proof.
  intros j. exists []. simpl. rewrite app_nil_r. by destruct dry.
Qed.

Lemma handles_app dry m1 m2 ds1 ds2 :
  handles dry m1 ds1 → handles dry m2 ds2 →
  handles dry (let! a := m1 in let! b := m2 in ret (a ++ b))%exec (ds1 ++ ds2).
Proof.
  intros H1 H2 j. unfold bind, ret.
  destruct (H1 j) as (c1 & Hj1 & Hc1 & Hd1 & He1 & Hs1).
  destruct (m1 j) as [a j1]. simpl in *. subst j1.
  destruct (H2 (j ++ c1)) as (c2 & Hj2 & Hc2 & Hd2 & He2 & Hs2).
  destruct (m2 (j ++ c1)) as [b j2]. simpl in *. subst j2.
  exists (c1 ++ c2).
  rewrite app_assoc, !map_app, !omap_app, List.filter_app, Forall_app.
  rewrite Hc1, Hc2, Hd1, Hd2, He1, He2.
  repeat split; try done. by destruct dry.
Qed.

Lemma handles_forEach dry (body : Drift -> Exec (list SyncAction)) ds :
  (∀ d, d ∈ ds → handles dry (body d) [d]) →
  handles dry (forEach body ds) ds.
Proof.
  induction ds as [|d ds IH]; intros H.
  - apply handles_nil.
  - simpl. apply (handles_app dry (body d) (forEach body ds) [d] ds).
    + apply H. left.
    + apply IH. intros d' Hd'. apply H. by right.
Qed.

(** A handler step that records one successful action and runs nothing. *)
Lemma handles_manual dry d text :
  recorded dry d = true → (dry = false → command_for d = None) →
  (dry = true → startsWith text "[DRY RUN]" = automated d) →
  handles dry (ret [succeeded_action d text]) [d].
Proof.
  intros Hrec Hcmd Hmark j. exists []. simpl.
  rewrite app_nil_r, Hrec.
  repeat split; try done.
  - destruct dry; [done|]. by rewrite Hcmd.
  - constructor; [|constructor]. unfold action_shape. simpl. eauto.
Qed.

(** A handler step that runs one command and records its outcome. *)
Lemma handles_exec shell d cmd text :
  recorded false d = true → command_for d = Some cmd →
  handles false
    (let! o := execAsync shell cmd in
     match o with
     | Resolved => ret [succeeded_action d text]
     | Rejected msg => ret [failed_action d msg]
     end)%exec [d].
Proof.
  intros Hrec Hcmd j. unfold bind, execAsync.
  exists [ {| command := cmd; outcome := shell j cmd |} ].
  simpl. rewrite Hrec, Hcmd.
  destruct (shell j cmd) as [|msg]; simpl;
    (repeat split; try done; constructor; [|constructor]);
    unfold action_shape; simpl; repeat split; eauto; done.
Qed.

Lemma syncDependency_handles shell dry d :
  category d = CDependency → handles dry (syncDependency shell dry d) [d].
Proof.
  intros Hc. unfold syncDependency.
  case_bool_decide as Hlock.
  - apply handles_manual.
    + unfold recorded. by rewrite Hc.
    + intros _. unfold command_for. rewrite Hc. by rewrite bool_decide_eq_true_2.
    + intros _. unfold automated. rewrite Hc. by rewrite bool_decide_eq_true_2.
  - destruct dry.
    + apply handles_manual; [unfold recorded; by rewrite Hc|done|].
      intros _. unfold automated. rewrite Hc. by rewrite bool_decide_eq_false_2.
    + destruct (truthy (remote d)) eqn:Ht; simpl.
      * apply handles_exec; [unfold recorded; by rewrite Hc|].
        unfold command_for. rewrite Hc, Ht. by rewrite bool_decide_eq_false_2.
      * apply handles_exec; [unfold recorded; by rewrite Hc|].
        unfold command_for. rewrite Hc, Ht. by rewrite bool_decide_eq_false_2.
Qed.

Lemma syncEnvVar_handles dry d :
  category d = CEnvvar → handles dry (syncEnvVar d) [d].
Proof.
  intros Hc. unfold syncEnvVar. apply handles_manual.
  - unfold recorded. by rewrite Hc.
  - intros _. unfold command_for. by rewrite Hc.
  - intros _. unfold automated. by rewrite Hc.
Qed.

Lemma syncDockerDrift_handles shell dry d :
  category d = CDocker → handles dry (syncDockerDrift shell dry d) [d].
Proof.
  intros Hc. unfold syncDockerDrift.
  destruct (startsWith (field d) "docker.image.") eqn:Hp.
  - destruct dry.
    + apply handles_manual; [unfold recorded; by rewrite Hc, Hp|done|].
      intros _. unfold automated. by rewrite Hc.
    + destruct (truthy (remote d)) eqn:Ht.
      * apply handles_exec; [unfold recorded; by rewrite Hc, Hp, Ht|].
        unfold command_for. by rewrite Hc, Hp, Ht.
      * intros j. exists []. simpl. rewrite app_nil_r.
        unfold recorded, command_for. rewrite Hc, Hp, Ht. simpl.
        repeat split; try done.
  - apply handles_manual.
    + unfold recorded. by rewrite Hc, Hp.
    + intros _. unfold command_for. by rewrite Hc, Hp.
    + intros _. unfold automated. by rewrite Hc, Hp.
Qed.

Lemma syncNativeModule_handles shell dry d :
  category d = CBinary → handles dry (syncNativeModule shell dry d) [d].
Proof.
  intros Hc. unfold syncNativeModule. destruct dry.
  - apply handles_manual; [unfold recorded; by rewrite Hc|done|].
    intros _. unfold automated. by rewrite Hc.
  - apply handles_exec; [unfold recorded; by rewrite Hc|].
    unfold command_for. by rewrite Hc.
Qed.

Lemma syncNodeVersion_handles dry ds :
  (∀ d, d ∈ ds → category d = CNodejs) →
  handles dry (ret (syncNodeVersion ds dry)) ds.
Proof.
  induction ds as [|d ds IH]; intros H.
  - apply handles_nil.
  - pose proof (handles_app dry _ _ [d] ds
                  (handles_manual dry d
                     ("[MANUAL] Update Node.js to " +:+ to_string (remote d)
                        +:+ " (use nvm, volta, or system package manager)")
                     ltac:(unfold recorded; by rewrite (H d) by left)
                     ltac:(intros _; unfold command_for; by rewrite (H d) by left)
                     ltac:(intros _; unfold automated; by rewrite (H d) by left))
                  (IH (fun d' Hd' => H d' (list_elem_of_further _ _ _ Hd')))) as Happ.
    exact Happ.
Qed.

Lemma in_category_category c ds d : d ∈ in_category c ds → category d = c.
Proof.
  unfold in_category. rewrite elem_of_filter_bool.
  intros [_ H]. by apply bool_decide_eq_true_1 in H.
Qed.

Lemma syncAll_handles shell dry ds :
  handles dry (syncAll shell dry ds) (sync_order ds).
Proof.
  unfold syncAll, sync_order.
  pose proof (handles_forEach dry (syncDependency shell dry)
                (in_category CDependency ds)
                (fun d Hd => syncDependency_handles shell dry d
                               (in_category_category _ _ _ Hd))) as Hdep.
  pose proof (handles_forEach dry syncEnvVar (in_category CEnvvar ds)
                (fun d Hd => syncEnvVar_handles dry d
                               (in_category_category _ _ _ Hd))) as Henv.
  pose proof (handles_forEach dry (syncDockerDrift shell dry)
                (in_category CDocker ds)
                (fun d Hd => syncDockerDrift_handles shell dry d
                               (in_category_category _ _ _ Hd))) as Hdock.
  pose proof (handles_forEach dry (syncNativeModule shell dry)
                (in_category CBinary ds)
                (fun d Hd => syncNativeModule_handles shell dry d
                               (in_category_category _ _ _ Hd))) as Hbin.
  pose proof (syncNodeVersion_handles dry (in_category CNodejs ds)
                (in_category_category _ _)) as Hnode.
  pose proof (handles_app _ _ _ _ _ Hdep
               (handles_app _ _ _ _ _ Henv
                  (handles_app _ _ _ _ _ Hdock
                     (handles_app _ _ _ _ _ Hbin Hnode)))) as H.
  intros j. specialize (H j). revert H.
  unfold syncDependencies, syncEnvVars, syncDocker, syncNativeModules, bind, ret.
  destruct (forEach (syncDependency shell dry) (in_category CDependency ds) j)
    as [dep j1].
  destruct (forEach syncEnvVar (in_category CEnvvar ds) j1) as [env j2].
  destruct (forEach (syncDockerDrift shell dry) (in_category CDocker ds) j2)
    as [dock j3].
  destruct (forEach (syncNativeModule shell dry) (in_category CBinary ds) j3)
    as [bin j4].
  done.
Qed.

Lemma failed_count_rejections dry (acts : list SyncAction) :
  Forall (action_shape dry) acts →
  length (List.filter (fun a => negb (success a)) acts) = length (omap error acts).
Proof.
  induction 1 as [|a acts Ha _ IH]; [done|].
  unfold action_shape in Ha. simpl.
  destruct (success a); simpl.
  - destruct Ha as (-> & _). exact IH.
  - destruct Ha as (_ & [msg ->] & _). simpl. by rewrite IH.
Qed.

Lemma filter_partition_length {A} (f : A -> bool) (l : list A) :
  length l = length (List.filter f l)
             + length (List.filter (fun x => negb (f x)) l).
Proof.
  induction l as [|x l IH]; [done|].
  simpl. destruct (f x); simpl; lia.
Qed.

(** C4: whatever the shell answers, [sync] attempts exactly the commands
    planned for the kept drifts (a failure skips nothing, in the failing
    category or in a later one), records every rejection as a failed action
    carrying its error description, and reports [success] exactly when no
    action failed, with [total = succeeded + failed = |actions|]. *)
Theorem sync_partial_failure shell (report : DriftReport) (options : SyncOptions)
    (j0 : Journal) :
  let dry := default false (dryRun options) in
  let kept := sync_order (filterDrifts options (drifts report)) in
  let res := (sync shell report options j0).1 in
  ∃ calls,
    (sync shell report options j0).2 = j0 ++ calls
    ∧ map command calls = (if dry then [] else omap command_for kept)
    ∧ map drift (sr_actions res) = List.filter (recorded dry) kept
    ∧ omap error (sr_actions res) = omap rejection calls
    ∧ Forall (fun a => if success a
                       then error a = None ∧ is_Some (action a)
                       else action a = None ∧ is_Some (error a))
             (sr_actions res)
    ∧ sum_failed (sr_summary res) = length (omap rejection calls)
    ∧ (sr_success res = true ↔ sum_failed (sr_summary res) = 0)
    ∧ sum_total (sr_summary res)
      = sum_succeeded (sr_summary res) + sum_failed (sr_summary res)
    ∧ sum_total (sr_summary res) = length (sr_actions res).
Proof.
  intros dry kept res. subst res. rewrite sync_unfold. simpl.
  destruct (syncAll_handles shell dry (filterDrifts options (drifts report)) j0)
    as (calls & Hj & Hc & Hd & He & Hs).
  fold dry. exists calls.
  split; [exact Hj|]. split; [exact Hc|]. split; [exact Hd|].
  split; [exact He|]. split; [|split; [|split; [|split]]].
  - eapply Forall_impl; [exact Hs|]. intros a Ha. unfold action_shape in Ha.
    destruct (success a); tauto.
  - rewrite <- He. by apply failed_count_rejections with dry.
  - apply Nat.eqb_eq.
  - apply filter_partition_length.
  - reflexivity.
Qed.

(** The scenario of the specification: the install of one dependency fails;
    the other dependency and the image pull are still attempted, the run is
    unsuccessful and exactly one action failed. *)
Example sync_failure_does_not_abort :
  let lodash := {| category := CDependency; severity := SLow;
                   field := "dependency.lodash"; local := VString "4.17.20";
                   remote := VString "4.17.21"; impact := "patch";
                   recommendation := "update" |} in
  let express := {| category := CDependency; severity := SHigh;
                    field := "dependency.express"; local := VUndefined;
                    remote := VString "5.0.0"; impact := "missing";
                    recommendation := "install" |} in
  let image := {| category := CDocker; severity := SHigh;
                  field := "docker.image.node:18"; local := VUndefined;
                  remote := VString "node:18"; impact := "missing";
                  recommendation := "pull" |} in
  let report :=
    with_drifts (compareSnapshots semver_core_parse sample_snapshot sample_snapshot)
                [image; lodash; express] in
  let run := sync shell_no_lodash report default_options [] in
  map command run.2
  = [ "npm install lodash@4.17.21 --save-exact";
      "npm install express@5.0.0 --save-exact";
      "docker pull node:18" ]
  ∧ map success (sr_actions run.1) = [false; true; true]
  ∧ map error (sr_actions run.1) = [Some "npm ERR! network"; None; None]
  ∧ sr_success run.1 = false
  ∧ sr_summary run.1 = {| sum_total := 3; sum_succeeded := 2; sum_failed := 1 |}.
Proof. vm_compute. done. Qed.

Lemma sync_order_Permutation ds : sync_order ds ≡ₚ ds.
Proof.
  induction ds as [|d ds IH]; [done|].
  transitivity (d :: sync_order ds); [|by constructor].
  unfold sync_order, in_category. simpl.
  destruct (category d); simpl; by rewrite <- ?Permutation_middle.
Qed.

Lemma recorded_dry d : recorded true d = true.
Proof.
  unfold recorded. destruct (category d); try done.
  destruct (startsWith (field d) "docker.image."); done.
Qed.

Lemma filter_bool_all {A} (f : A -> bool) (l : list A) :
  (∀ x, f x = true) → List.filter f l = l.
Proof.
  intros H. induction l as [|x l IH]; [done|]. simpl. by rewrite H, IH.
Qed.

(** C3, as amended: in a dry run [sync] issues no external command, records
    exactly one action per kept drift (in the fixed category order), and
    every action is successful; the action text carries the "[DRY RUN]"
    marker exactly for the drifts whose handler has a command branch
    (dependencies other than the lockfile, image drifts, native modules) and
    is a manual instruction for the others. *)
Theorem sync_dry_run shell (report : DriftReport) (options : SyncOptions)
    (j0 : Journal) :
  dryRun options = Some true →
  let res := (sync shell report options j0).1 in
  (sync shell report options j0).2 = j0
  ∧ map drift (sr_actions res) = sync_order (filterDrifts options (drifts report))
  ∧ map drift (sr_actions res) ≡ₚ filterDrifts options (drifts report)
  ∧ length (sr_actions res) = length (filterDrifts options (drifts report))
  ∧ Forall (fun a => success a = true ∧ error a = None ∧ is_Some (action a)
                     ∧ simulation_marker a = automated (drift a))
           (sr_actions res)
  ∧ sr_success res = true.
Proof.
  intros Hdry res. subst res. rewrite sync_unfold, Hdry. simpl.
  destruct (syncAll_handles shell true (filterDrifts options (drifts report)) j0)
    as (calls & Hj & Hc & Hd & He & Hs).
  apply map_eq_nil in Hc. subst calls.
  rewrite app_nil_r in Hj.
  rewrite (filter_bool_all _ _ recorded_dry) in Hd.
  assert (Hall : Forall (fun a => success a = true ∧ error a = None
                                  ∧ is_Some (action a)
                                  ∧ simulation_marker a = automated (drift a))
                   (syncAll shell true (filterDrifts options (drifts report)) j0).1).
  { eapply Forall_impl; [exact Hs|]. intros a Ha. unfold action_shape in Ha.
    destruct (success a).
    - destruct Ha as (? & ? & Hm). auto.
    - destruct Ha as (_ & _ & ?). done. }
  split; [exact Hj|]. split; [exact Hd|]. split; [|split; [|split]].
  - rewrite Hd. apply sync_order_Permutation.
  - rewrite <- (length_map drift), Hd.
    apply Permutation_length, sync_order_Permutation.
  - exact Hall.
  - apply Nat.eqb_eq.
    rewrite (failed_count_rejections true) by exact Hs. by rewrite He.
Qed.

Lemma sync_dry_run_witness :
  dryRun dry_run_options = Some true
  ∧ (sync shell_no_lodash
       (compareSnapshots semver_core_parse without_foo sample_snapshot)
       dry_run_options []).2 = []
  ∧ sr_success
      (sync shell_no_lodash
         (compareSnapshots semver_core_parse without_foo sample_snapshot)
         dry_run_options []).1 = true.
Proof.
  split; [reflexivity|].
  pose proof (sync_dry_run shell_no_lodash
                (compareSnapshots semver_core_parse without_foo sample_snapshot)
                dry_run_options [] eq_refl) as H.
  simpl in H. destruct H as (Hj & _ & _ & _ & _ & Hs).
  split; [exact Hj|exact Hs].
Defined.

(** C3 as stated fails: the dry run of a report holding one missing
    environment variable records a "[MANUAL]" instruction, which carries no
    simulation marker. *)
Lemma dry_run_manual_action_unmarked :
  map action
      (sr_actions
         (sync shell_ok
            (compareSnapshots semver_core_parse without_foo
               (mock_snapshot sample_node ∅ ∅ [] {[ "PORT" := "8080" ]} sample_docker))
            dry_run_options []).1)
  = [Some "[MANUAL] Set environment variable: PORT=[SET]"]
  ∧ ¬ dry_run_all_simulated shell_ok
        (compareSnapshots semver_core_parse without_foo
           (mock_snapshot sample_node ∅ ∅ [] {[ "PORT" := "8080" ]} sample_docker))
        dry_run_options.
Proof.
  split; [vm_compute; reflexivity|].
  intros (_ & _ & H). vm_compute in H.
  apply Forall_cons_1 in H as [[_ H] _]. discriminate H.
Qed.

Lemma filterDrifts_app options ds1 ds2 :
  filterDrifts options (ds1 ++ ds2)
  = filterDrifts options ds1 ++ filterDrifts options ds2.
Proof.
  unfold filterDrifts.
  destruct (categories options) as [cs|], (maxSeverity options) as [m|];
    try destruct (0 <? length cs)%nat;
    by rewrite ?List.filter_app.
Qed.

Lemma forEach_skip {A B} (body : A -> Exec (list B)) (xs : list A) (d : A)
    (ys : list A) :
  (∀ j, body d j = ([], j)) →
  ∀ j, forEach body (xs ++ d :: ys) j = forEach body (xs ++ ys) j.
Proof.
  intros Hd. induction xs as [|x xs IH]; intros j; simpl; unfold bind.
  - rewrite Hd. by destruct (forEach body ys j).
  - destruct (body x j) as [a j1]. by rewrite IH.
Qed.

(** A kept image drift without a remote value leaves no trace in a real
    run. *)
Lemma syncAll_skip shell d xs ys :
  category d = CDocker → startsWith (field d) "docker.image." = true →
  truthy (remote d) = false →
  ∀ j, syncAll shell false (xs ++ d :: ys) j = syncAll shell false (xs ++ ys) j.
Proof.
  intros Hc Hp Ht j. unfold syncAll, bind.
  rewrite !in_category_app. unfold in_category at 2 4 6 8 10. simpl.
  rewrite Hc. simpl. fold (in_category CDependency ys) (in_category CEnvvar ys)
    (in_category CDocker ys) (in_category CBinary ys) (in_category CNodejs ys).
  destruct (syncDependencies shell _ false j) as [dep j1].
  destruct (syncEnvVars _ false j1) as [env j2].
  unfold syncDocker. rewrite forEach_skip; [done|].
  intros j'. unfold syncDockerDrift. by rewrite Hp, Ht.
Qed.

(** C10: in a real run ([dryRun] false or absent), a container drift whose
    field starts with "docker.image." and whose remote value is absent gets
    no action at all: no action of the result belongs to it, and the whole
    run (actions, summary, success flag, commands issued) is the run of the
    report without that drift. *)
Theorem sync_omits_local_only_image shell (report : DriftReport)
    (options : SyncOptions) (j0 : Journal) (d : Drift) (pre post : list Drift) :
  default false (dryRun options) = false →
  category d = CDocker →
  startsWith (field d) "docker.image." = true →
  remote d = VUndefined →
  drifts report = pre ++ d :: post →
  (∀ a, a ∈ sr_actions (sync shell report options j0).1 → drift a ≠ d)
  ∧ sync shell report options j0
    = sync shell (with_drifts report (pre ++ post)) options j0.
Proof.
  intros Hdry Hc Hp Hr Hds. split.
  - intros a Ha Heq.
    rewrite sync_unfold, Hdry in Ha. simpl in Ha.
    destruct (syncAll_handles shell false (filterDrifts options (drifts report)) j0)
      as (calls & _ & _ & Hd & _).
    assert (Hin : d ∈ map drift
                    (syncAll shell false (filterDrifts options (drifts report)) j0).1).
    { rewrite <- Heq. apply list_elem_of_fmap. eauto. }
    rewrite Hd, elem_of_filter_bool in Hin. destruct Hin as [_ Hrec].
    unfold recorded in Hrec. by rewrite Hc, Hp, Hr in Hrec.
  - rewrite !sync_unfold, Hdry. simpl. rewrite Hds.
    rewrite !filterDrifts_app.
    change (d :: post) with ([d] ++ post). rewrite filterDrifts_app.
    assert (Hone : filterDrifts options [d] = [d] ∨ filterDrifts options [d] = []).
    { unfold filterDrifts.
      destruct (categories options) as [cs|], (maxSeverity options) as [m|];
        try destruct (0 <? length cs)%nat; simpl;
        repeat (case_match; simpl); auto. }
    destruct Hone as [-> | ->]; [|done].
    simpl. by rewrite syncAll_skip by (rewrite ?Hr; done).
Qed.

Lemma sync_omits_local_only_image_witness :
  let extra_image :=
    {| category := CDocker; severity := SLow; field := "docker.image.redis:7";
       local := VString "redis:7"; remote := VUndefined;
       impact := "Extra Docker image not in remote";
       recommendation := "Remove image or add to remote: redis:7" |} in
  let report :=
    with_drifts (compareSnapshots semver_core_parse without_foo sample_snapshot)
      (drifts (compareSnapshots semver_core_parse without_foo sample_snapshot)
       ++ extra_image :: []) in
  (∀ a, a ∈ sr_actions (sync shell_ok report default_options []).1 →
        drift a ≠ extra_image)
  ∧ sr_summary (sync shell_ok report default_options []).1
    = sr_summary
        (sync shell_ok
           (compareSnapshots semver_core_parse without_foo sample_snapshot)
           default_options []).1.
Proof.
  intros extra_image report.
  destruct (sync_omits_local_only_image shell_ok report default_options []
              extra_image
              (drifts (compareSnapshots semver_core_parse without_foo sample_snapshot))
              [] eq_refl eq_refl eq_refl eq_refl eq_refl) as [Hno Heq].
  split; [exact Hno|].
  rewrite Heq. vm_compute. reflexivity.
Defined.

(** ** Serialisation round trip *)

Lemma json_ind_nested (P : json -> Prop) :
  P JNull → (∀ b, P (JBool b)) → (∀ n, P (JNum n)) → (∀ s, P (JStr s)) →
  (∀ l, Forall P l → P (JArr l)) →
  (∀ ps, Forall (fun kv => P (snd kv)) ps → P (JObj ps)) →
  ∀ j, P j.
Proof.
  intros Hnull Hbool Hnum Hstr Harr Hobj.
  fix IH 1. intros [| b | n | s | l | ps].
  - exact Hnull.
  - apply Hbool.
  - apply Hnum.
  - apply Hstr.
  - apply Harr. induction l as [|x l IHl]; constructor; [apply IH|exact IHl].
  - apply Hobj. induction ps as [|[k x] ps IHps]; constructor;
      [apply IH|exact IHps].
Qed.

Section RoundTrip.

Variable toISOString : Z -> string.
Variable Date_parse : string -> Date.

Lemma to_json_arr (l : list js) :
  to_json toISOString (JsArr l) = Some (JArr (to_json_elems toISOString l)).
Proof.
  reflexivity.
Qed.

Lemma to_json_obj (ps : list (string * js)) :
  to_json toISOString (JsObj ps) = Some (JObj (to_json_members toISOString ps)).
Proof.
  simpl. do 2 f_equal. induction ps as [|[k x] ps IH]; [done|]. simpl.
  rewrite IH. by destruct (to_json toISOString x).
Qed.

(** A parsed document is written back as it was read. *)
Lemma to_json_of_json (j : json) : to_json toISOString (js_of_json j) = Some j.
Proof.
  induction j as [| b | n | s | l IH | ps IH] using json_ind_nested; try done.
  - change (js_of_json (JArr l)) with (JsArr (List.map js_of_json l)).
    rewrite to_json_arr. do 2 f_equal. unfold to_json_elems.
    induction IH as [|x l Hx _ IHl]; [done|]. simpl.
    rewrite Hx. simpl. f_equal. exact IHl.
  - change (js_of_json (JObj ps))
      with (JsObj (List.map (fun kv => (fst kv, js_of_json (snd kv))) ps)).
    rewrite to_json_obj. do 2 f_equal. unfold to_json_members.
    induction IH as [|[k x] ps Hx _ IHps]; [done|]. simpl.
    simpl in Hx. rewrite Hx. simpl. f_equal. exact IHps.
Qed.

Lemma to_json_is_Some_arr l : is_Some (to_json toISOString (JsArr l)).
Proof. rewrite to_json_arr. eauto. Qed.

Lemma to_json_is_Some_obj ps : is_Some (to_json toISOString (JsObj ps)).
Proof. rewrite to_json_obj. eauto. Qed.

End RoundTrip.

Section RoundTripSnapshot.

Variable toISOString : Z -> string.
Variable Date_parse : string -> Date.

(** An image read back from its document and restored is written as the
    original image was. *)
Lemma restoreImage_roundtrip (i : DockerImage) :
  Forall (fun d => valid_date d = true) (option_list (img_created i)) →
  Forall (iso_restorable toISOString Date_parse)
         (omap date_time (option_list (img_created i))) →
  ∃ restored,
    restoreImage Date_parse
      (js_of_json (default JNull (to_json toISOString (js_of_image i))))
    = Some restored
    ∧ to_json toISOString restored = to_json toISOString (js_of_image i).
Proof.
  intros Hvalid Hiso. unfold js_of_image, restoreImage, js_strings.
  destruct (to_json_is_Some_arr toISOString (List.map JsStr (img_tags i)))
    as [jtags Htags].
  revert Htags. generalize (JsArr (List.map JsStr (img_tags i))).
  intros tags Htags.
  destruct (img_created i) as [[t|]|]; simpl in Hvalid, Hiso.
  - apply Forall_cons_1 in Hiso as [[Hne Hparse] _].
    simpl. rewrite Htags. simpl.
    rewrite bool_decide_eq_false_2 by done. simpl. rewrite Hparse.
    eexists. split; [reflexivity|].
    simpl. by rewrite to_json_of_json.
  - apply Forall_cons_1 in Hvalid as [Hv _]. done.
  - simpl. rewrite Htags. simpl.
    eexists. split; [reflexivity|].
    simpl. by rewrite to_json_of_json.
Qed.

(** The same for a native module. *)
Lemma restoreModule_roundtrip (m : NativeModuleInfo) :
  valid_date (nm_modified m) = true →
  Forall (iso_restorable toISOString Date_parse)
         (option_list (date_time (nm_modified m))) →
  ∃ restored,
    restoreModule Date_parse
      (js_of_json (default JNull (to_json toISOString (js_of_nativeModule m))))
    = Some restored
    ∧ to_json toISOString restored = to_json toISOString (js_of_nativeModule m).
Proof.
  intros Hvalid Hiso. unfold js_of_nativeModule, restoreModule.
  destruct (nm_modified m) as [t|]; [|done].
  simpl in Hiso. apply Forall_cons_1 in Hiso as [[Hne Hparse] _].
  simpl. rewrite Hparse.
  eexists. split; [reflexivity|]. reflexivity.
Qed.

(** Restoring every element of a parsed array. *)
Lemma Array_map_roundtrip (f : js -> option js) (xs : list js) :
  Forall (fun x =>
            ∃ restored,
              f (js_of_json (default JNull (to_json toISOString x))) = Some restored
              ∧ to_json toISOString restored = to_json toISOString x) xs →
  ∃ restored,
    Array_map f (js_of_json (JArr (to_json_elems toISOString xs)))
    = Some (JsArr restored)
    ∧ to_json_elems toISOString restored = to_json_elems toISOString xs.
Proof.
  intros H. simpl.
  assert (∃ restored,
             mapM f (List.map js_of_json (to_json_elems toISOString xs))
             = Some restored
             ∧ to_json_elems toISOString restored
               = to_json_elems toISOString xs) as (restored & -> & Heq).
  { induction H as [|x xs (r & Hr & Hj) _ (rs & Hrs & Hjs)].
    - by exists [].
    - exists (r :: rs). simpl. rewrite Hr. simpl.
      unfold to_json_elems in *. simpl in *. rewrite Hrs. simpl.
      split; [done|]. by rewrite Hj, Hjs. }
  by exists restored.
Qed.

End RoundTripSnapshot.

Section RoundTripTheorem.

Variable toISOString : Z -> string.
Variable Date_parse : string -> Date.
Variable JSON_parse : string -> option json.

Lemma to_json_nullable o : is_Some (to_json toISOString (js_nullable o)).
Proof. destruct o; simpl; eauto. Qed.

Lemma to_json_members_nil : to_json_members toISOString [] = [].
Proof. reflexivity. Qed.

Lemma to_json_members_cons k x j ps :
  to_json toISOString x = Some j →
  to_json_members toISOString ((k, x) :: ps)
  = (k, j) :: to_json_members toISOString ps.
Proof. intros H. unfold to_json_members. simpl. by rewrite H. Qed.

Local Opaque JSON_render to_json_elems to_json_members to_json.

(** The round trip of any object laid out like a snapshot, whose timestamp
    is restorable, whose images and modules are restorable one by one, and
    whose other parts are plain data. *)
Lemma roundtrip_layout (t0 : Z) (env nv prod dev lock ev v p a ct cc sys h : js)
    (mods imgs : list js) :
  let obj :=
    JsObj [ ("timestamp", JsDate (DateTime t0)); ("environment", env);
            ("nodeVersion", nv);
            ("dependencies",
             JsObj [ ("production", prod); ("development", dev);
                     ("lockfileHash", lock); ("nativeModules", JsArr mods) ]);
            ("envVars", ev);
            ("docker",
             JsObj [ ("version", v); ("platform", p); ("arch", a);
                     ("images", JsArr imgs); ("containers", ct);
                     ("composeConfigs", cc) ]);
            ("system", sys); ("hash", h) ] in
  iso_restorable toISOString Date_parse t0 →
  Forall (fun x => is_Some (to_json toISOString x))
         [env; nv; prod; dev; lock; ev; v; p; a; ct; cc; sys; h] →
  Forall (fun x =>
            ∃ restored,
              restoreImage Date_parse
                (js_of_json (default JNull (to_json toISOString x)))
              = Some restored
              ∧ to_json toISOString restored = to_json toISOString x) imgs →
  Forall (fun x =>
            ∃ restored,
              restoreModule Date_parse
                (js_of_json (default JNull (to_json toISOString x)))
              = Some restored
              ∧ to_json toISOString restored = to_json toISOString x) mods →
  json_restorable JSON_parse (default JNull (to_json toISOString obj)) →
  ∃ text parsed,
    serializeSnapshot toISOString obj = Some text
    ∧ deserializeSnapshot Date_parse JSON_parse text = Some parsed
    ∧ serializeSnapshot toISOString parsed = Some text.
Proof.
  intros obj [Hne0 Hparse0] Hplain Himgs Hmods Hjson. subst obj.
  apply Forall_cons_1 in Hplain as [[jenv Henv] Hplain].
  apply Forall_cons_1 in Hplain as [[jnv Hnv] Hplain].
  apply Forall_cons_1 in Hplain as [[jprod Hprod] Hplain].
  apply Forall_cons_1 in Hplain as [[jdev Hdev] Hplain].
  apply Forall_cons_1 in Hplain as [[jlock Hlock] Hplain].
  apply Forall_cons_1 in Hplain as [[jev Hev] Hplain].
  apply Forall_cons_1 in Hplain as [[jv Hv] Hplain].
  apply Forall_cons_1 in Hplain as [[jp Hp] Hplain].
  apply Forall_cons_1 in Hplain as [[ja Ha] Hplain].
  apply Forall_cons_1 in Hplain as [[jct Hct] Hplain].
  apply Forall_cons_1 in Hplain as [[jcc Hcc] Hplain].
  apply Forall_cons_1 in Hplain as [[jsys Hsys] Hplain].
  apply Forall_cons_1 in Hplain as [[jh Hh] _].
  destruct (Array_map_roundtrip toISOString _ _ Himgs) as (imgs' & Hri & Hei).
  destruct (Array_map_roundtrip toISOString _ _ Hmods) as (mods' & Hrm & Hem).
  set (doc :=
         JObj [ ("timestamp", JStr (toISOString t0)); ("environment", jenv);
                ("nodeVersion", jnv);
                ("dependencies",
                 JObj [ ("production", jprod); ("development", jdev);
                        ("lockfileHash", jlock);
                        ("nativeModules", JArr (to_json_elems toISOString mods)) ]);
                ("envVars", jev);
                ("docker",
                 JObj [ ("version", jv); ("platform", jp); ("arch", ja);
                        ("images", JArr (to_json_elems toISOString imgs));
                        ("containers", jct); ("composeConfigs", jcc) ]);
                ("system", jsys); ("hash", jh) ]).
  assert (Hdate : ∀ t, to_json toISOString (JsDate (DateTime t))
                       = Some (JStr (toISOString t))) by reflexivity.
  assert (Hdoc :
            to_json toISOString
              (JsObj [ ("timestamp", JsDate (DateTime t0)); ("environment", env);
                       ("nodeVersion", nv);
                       ("dependencies",
                        JsObj [ ("production", prod); ("development", dev);
                                ("lockfileHash", lock);
                                ("nativeModules", JsArr mods) ]);
                       ("envVars", ev);
                       ("docker",
                        JsObj [ ("version", v); ("platform", p); ("arch", a);
                                ("images", JsArr imgs); ("containers", ct);
                                ("composeConfigs", cc) ]);
                       ("system", sys); ("hash", h) ])
            = Some doc).
  { rewrite to_json_obj.
    repeat (erewrite to_json_members_cons
              by (eassumption || apply Hdate || apply to_json_arr
                  || (rewrite to_json_obj;
                      repeat (erewrite to_json_members_cons
                                by (eassumption || apply to_json_arr));
                      rewrite to_json_members_nil; reflexivity))).
    by rewrite to_json_members_nil. }
  unfold json_restorable in Hjson. rewrite Hdoc in Hjson.
  change (default JNull (Some doc)) with doc in Hjson.
  unfold serializeSnapshot, JSON_stringify. rewrite Hdoc.
  exists (JSON_render EmptyString doc).
  unfold deserializeSnapshot. rewrite Hjson.
  simpl in Hri, Hrm.
  eexists. split; [reflexivity|]. split.
  - subst doc. simpl. rewrite Hparse0.
    unfold restoreList. simpl. rewrite Hri. simpl. rewrite Hrm. simpl.
    reflexivity.
  - rewrite to_json_obj.
    repeat (erewrite to_json_members_cons
              by (apply Hdate || apply to_json_of_json
                  || (rewrite to_json_obj;
                      repeat (erewrite to_json_members_cons
                                by (apply to_json_of_json || apply to_json_arr));
                      rewrite to_json_members_nil; reflexivity))).
    rewrite to_json_members_nil, Hei, Hem. reflexivity.
Qed.

Local Transparent JSON_render to_json_elems to_json_members to_json.

(** C7: for every assembled snapshot, on an engine whose date and JSON
    built-ins read back what they wrote for this snapshot, serialising,
    deserialising and serialising again yields the first text, byte for
    byte, with the timestamp, the image creation times and the
    native-module modification times it holds. *)
Theorem serialize_roundtrip (s : EnvironmentSnapshot) :
  assembled s →
  Forall (iso_restorable toISOString Date_parse) (snapshot_times s) →
  json_restorable JSON_parse (snapshot_document toISOString s) →
  ∃ text parsed,
    serializeSnapshot toISOString (js_of_snapshot s) = Some text
    ∧ deserializeSnapshot Date_parse JSON_parse text = Some parsed
    ∧ serializeSnapshot toISOString parsed = Some text.
Proof.
  intros Hasm Hiso Hjson.
  unfold assembled, snapshot_times, snapshot_dates in *.
  destruct (timestamp s) as [t0|] eqn:Ht0; [|done].
  simpl in Hasm, Hiso.
  apply Forall_cons_1 in Hiso as [Hiso0 Hiso].
  rewrite omap_app, Forall_app in Hiso. destruct Hiso as [Hiso_img Hiso_mod].
  rewrite forallb_app, andb_true_iff in Hasm. destruct Hasm as [Hv_img Hv_mod].
  unfold snapshot_document, js_of_snapshot, js_of_dependencies, js_of_docker in *.
  rewrite Ht0 in *.
  apply roundtrip_layout; [exact Hiso0| | | |exact Hjson].
  - repeat (apply Forall_cons_2 || apply Forall_nil_2);
      try (apply to_json_is_Some_obj || apply to_json_is_Some_arr
           || apply to_json_nullable); by eexists.
  - clear -Hv_img Hiso_img.
    induction (dk_images (docker s)) as [|i imgs IH]; [constructor|].
    simpl in *. constructor.
    + apply restoreImage_roundtrip.
      * destruct (img_created i) as [d|]; [|constructor].
        simpl in Hv_img. apply andb_true_iff in Hv_img as [Hd _].
        by repeat constructor.
      * destruct (img_created i) as [[t|]|]; simpl in *;
          try constructor; try by apply Forall_cons_1 in Hiso_img as [? _].
    + apply IH.
      * destruct (img_created i) as [d|]; [|done].
        simpl in Hv_img. by apply andb_true_iff in Hv_img as [_ ?].
      * destruct (img_created i) as [[t|]|]; simpl in *; try done.
        by apply Forall_cons_1 in Hiso_img as [_ ?].
  - clear -Hv_mod Hiso_mod.
    induction (nativeModules (dependencies s)) as [|m mods IH]; [constructor|].
    simpl in *. apply andb_true_iff in Hv_mod as [Hm Hv_mod].
    constructor.
    + apply restoreModule_roundtrip; [exact Hm|].
      destruct (nm_modified m) as [t|]; simpl in *; [|done].
      apply Forall_cons_1 in Hiso_mod as [Ht _].
      constructor; [exact Ht|constructor].
    + apply IH; [exact Hv_mod|].
      destruct (nm_modified m) as [t|]; simpl in *; [|done].
      by apply Forall_cons_1 in Hiso_mod as [_ ?].
Qed.

End RoundTripTheorem.

Lemma serialize_roundtrip_witness :
  assembled sample_full_snapshot
  ∧ Forall (iso_restorable toISOString_ref Date_parse_ref)
           (snapshot_times sample_full_snapshot)
  ∧ json_restorable JSON_parse_ref
      (snapshot_document toISOString_ref sample_full_snapshot)
  ∧ ∃ text parsed,
      serializeSnapshot toISOString_ref (js_of_snapshot sample_full_snapshot)
      = Some text
      ∧ deserializeSnapshot Date_parse_ref JSON_parse_ref text = Some parsed
      ∧ serializeSnapshot toISOString_ref parsed = Some text.
Proof.
  assert (H1 : assembled sample_full_snapshot) by (vm_compute; reflexivity).
  assert (H2 : Forall (iso_restorable toISOString_ref Date_parse_ref)
                 (snapshot_times sample_full_snapshot)).
  { repeat (apply Forall_cons_2 || apply Forall_nil_2);
      (split; [vm_compute; discriminate|vm_compute; reflexivity]). }
  assert (H3 : json_restorable JSON_parse_ref
                 (snapshot_document toISOString_ref sample_full_snapshot))
    by (vm_compute; reflexivity).
  split; [exact H1|]. split; [exact H2|]. split; [exact H3|].
  exact (serialize_roundtrip toISOString_ref Date_parse_ref JSON_parse_ref
           sample_full_snapshot H1 H2 H3).
Defined.

(** Why the snapshot must be assembled: an Invalid Date is written as
    [null], and [new Date(null)] is the epoch, so the second text differs
    from the first. *)
Example invalid_date_not_restored :
  ¬ assembled sample_invalid_date
  ∧ ∃ text parsed,
      serializeSnapshot toISOString_ref (js_of_snapshot sample_invalid_date)
      = Some text
      ∧ deserializeSnapshot Date_parse_ref JSON_parse_ref text = Some parsed
      ∧ serializeSnapshot toISOString_ref parsed ≠ Some text.
Proof.
  split; [vm_compute; discriminate|].
  eexists. eexists.
  split; [vm_compute; reflexivity|].
  split; [vm_compute; reflexivity|].
  vm_compute. discriminate.
Qed.

(* ===================================================================== *)
(** * Further properties of the code *)
(* ===================================================================== *)

(** ** The aggregator *)

Lemma includes_spec (severities : list DriftSeverity) (s : DriftSeverity) :
  includes severities s = true ↔ s ∈ severities.
Proof. unfold includes. apply bool_decide_eq_true. Qed.

Lemma includes_false (severities : list DriftSeverity) (s : DriftSeverity) :
  includes severities s = false ↔ s ∉ severities.
Proof. unfold includes. apply bool_decide_eq_false. Qed.

Lemma overall_severity_bounds (ds : list Drift) :
  Forall (fun d => severityRank (severity d)
                   ≤ severityRank (assessOverallSeverity ds)) ds
  ∧ (assessOverallSeverity ds = SNone
     ∨ Exists (fun d => severity d = assessOverallSeverity ds) ds).
Proof.
  unfold assessOverallSeverity.
  destruct ds as [|d0 ds0]; [split; [constructor|by left]|].
  set (ds := d0 :: ds0). simpl length. simpl Nat.eqb.
  assert (Hmem : ∀ s, includes (map severity ds) s = true →
                      Exists (fun d => severity d = s) ds).
  { intros s Hs. apply includes_spec, list_elem_of_fmap in Hs as (d & -> & Hd).
    apply Exists_exists. eauto. }
  assert (Habs : ∀ s d, includes (map severity ds) s = false → d ∈ ds →
                        severity d ≠ s).
  { intros s d Hs Hd Heq. apply includes_false in Hs. apply Hs.
    apply list_elem_of_fmap. eauto. }
  destruct (includes (map severity ds) SCritical) eqn:Hc.
  { split; [|right; by apply Hmem].
    apply Forall_forall. intros d _. destruct (severity d); simpl; lia. }
  destruct (includes (map severity ds) SHigh) eqn:Hh.
  { split; [|right; by apply Hmem].
    apply Forall_forall. intros d Hd. pose proof (Habs _ _ Hc Hd).
    destruct (severity d); simpl; try lia; done. }
  destruct (includes (map severity ds) SMedium) eqn:Hm.
  { split; [|right; by apply Hmem].
    apply Forall_forall. intros d Hd.
    pose proof (Habs _ _ Hc Hd). pose proof (Habs _ _ Hh Hd).
    destruct (severity d); simpl; try lia; done. }
  destruct (includes (map severity ds) SLow) eqn:Hl.
  { split; [|right; by apply Hmem].
    apply Forall_forall. intros d Hd.
    pose proof (Habs _ _ Hc Hd). pose proof (Habs _ _ Hh Hd).
    pose proof (Habs _ _ Hm Hd).
    destruct (severity d); simpl; try lia; done. }
  split; [|by left].
  apply Forall_forall. intros d Hd.
  pose proof (Habs _ _ Hc Hd). pose proof (Habs _ _ Hh Hd).
  pose proof (Habs _ _ Hm Hd). pose proof (Habs _ _ Hl Hd).
  destruct (severity d); simpl; try lia; done.
Qed.

(** X1: the overall severity bounds the severity of every drift, and it is
    either "none" or the severity of one of the drifts: it is their maximum
    under none < low < medium < high < critical. *)
Theorem assessOverallSeverity_is_max (ds : list Drift) :
  Forall (fun d => severityRank (severity d)
                   ≤ severityRank (assessOverallSeverity ds)) ds
  ∧ (assessOverallSeverity ds = SNone
     ∨ Exists (fun d => severity d = assessOverallSeverity ds) ds).
Proof. exact (overall_severity_bounds ds). Qed.

Lemma countDrift_fold (ds : list Drift) (acc : DriftSummary) :
  fold_left countDrift ds acc
  = {| total := total acc;
       critical := critical acc + count_severity SCritical ds;
       high := high acc + count_severity SHigh ds;
       medium := medium acc + count_severity SMedium ds;
       low := low acc + count_severity SLow ds;
       byCategory :=
         {| by_nodejs := by_nodejs (byCategory acc) + length (in_category CNodejs ds);
            by_dependency :=
              by_dependency (byCategory acc) + length (in_category CDependency ds);
            by_envvar := by_envvar (byCategory acc) + length (in_category CEnvvar ds);
            by_docker := by_docker (byCategory acc) + length (in_category CDocker ds);
            by_binary := by_binary (byCategory acc) + length (in_category CBinary ds) |} |}.
Proof.
  revert acc. induction ds as [|d ds IH]; intros [t c h m l [bn bd be bk bb]].
  - unfold count_severity, in_category. simpl. by rewrite !Nat.add_0_r.
  - simpl fold_left. rewrite IH. unfold countDrift, count_severity, in_category.
    simpl. destruct (severity d), (category d); simpl;
      repeat f_equal; lia.
Qed.

(** X2: every counter of the summary is the number of drifts it names:
    [total] is the length of the list, each severity counter the number of
    drifts of that severity, each category counter the number of drifts of
    that category. *)
Theorem generateSummary_counts (ds : list Drift) :
  generateSummary ds
  = {| total := length ds;
       critical := count_severity SCritical ds;
       high := count_severity SHigh ds;
       medium := count_severity SMedium ds;
       low := count_severity SLow ds;
       byCategory :=
         {| by_nodejs := length (in_category CNodejs ds);
            by_dependency := length (in_category CDependency ds);
            by_envvar := length (in_category CEnvvar ds);
            by_docker := length (in_category CDocker ds);
            by_binary := length (in_category CBinary ds) |} |}.
Proof. unfold generateSummary. by rewrite countDrift_fold. Qed.

Lemma severity_partition_length (ds : list Drift) :
  length ds
  = count_severity SCritical ds + count_severity SHigh ds
    + count_severity SMedium ds + count_severity SLow ds
    + count_severity SNone ds.
Proof.
  unfold count_severity. induction ds as [|d ds IH]; [done|].
  simpl. destruct (severity d); simpl; lia.
Qed.

Lemma category_partition_length (ds : list Drift) :
  length ds
  = length (in_category CNodejs ds) + length (in_category CDependency ds)
    + length (in_category CEnvvar ds) + length (in_category CDocker ds)
    + length (in_category CBinary ds).
Proof.
  unfold in_category. induction ds as [|d ds IH]; [done|].
  simpl. destruct (category d); simpl; lia.
Qed.

(** X3: in every summary the category counters add up to [total], and the
    four severity counters add up to [total] less the number of drifts of
    severity "none" (which the counting loop skips). *)
Theorem generateSummary_sums (ds : list Drift) :
  let s := generateSummary ds in
  by_nodejs (byCategory s) + by_dependency (byCategory s)
  + by_envvar (byCategory s) + by_docker (byCategory s)
  + by_binary (byCategory s) = total s
  ∧ critical s + high s + medium s + low s + count_severity SNone ds = total s.
Proof.
  unfold generateSummary. rewrite countDrift_fold. simpl.
  split.
  - symmetry. apply category_partition_length.
  - symmetry. apply severity_partition_length.
Qed.

Lemma filter_bool_Permutation {A} (f : A -> bool) (l1 l2 : list A) :
  l1 ≡ₚ l2 → List.filter f l1 ≡ₚ List.filter f l2.
Proof.
  induction 1 as [|x l1 l2 _ IH|x y l|l1 l2 l3 _ IH1 _ IH2]; simpl.
  - done.
  - destruct (f x); [by constructor|done].
  - destruct (f x), (f y); try done. by constructor.
  - by etransitivity.
Qed.

(** X4: the aggregator does not depend on the order of the drifts: two
    lists that are permutations of each other have the same summary and the
    same overall severity. *)
Theorem aggregator_order_independent (ds1 ds2 : list Drift) :
  ds1 ≡ₚ ds2 →
  generateSummary ds1 = generateSummary ds2
  ∧ assessOverallSeverity ds1 = assessOverallSeverity ds2.
Proof.
  intros Hp. split.
  - unfold generateSummary. rewrite !countDrift_fold.
    unfold count_severity, in_category.
    rewrite (Permutation_length Hp).
    by rewrite !(Permutation_length (filter_bool_Permutation _ _ _ Hp)).
  - unfold assessOverallSeverity. rewrite (Permutation_length Hp).
    assert (Hinc : ∀ s, includes (map severity ds1) s
                        = includes (map severity ds2) s).
    { intros s. unfold includes. apply bool_decide_ext. by rewrite Hp. }
    by rewrite !Hinc.
Qed.

Lemma aggregator_order_independent_witness :
  let d1 := {| category := CEnvvar; severity := SLow; field := "env.A";
               local := VString "[SET]"; remote := VUndefined;
               impact := "extra"; recommendation := "remove" |} in
  let d2 := {| category := CNodejs; severity := SCritical; field := "platform";
               local := VString "darwin"; remote := VString "linux";
               impact := "mismatch"; recommendation := "use Docker" |} in
  [d1; d2] ≡ₚ [d2; d1]
  ∧ generateSummary [d1; d2] = generateSummary [d2; d1]
  ∧ assessOverallSeverity [d1; d2] = assessOverallSeverity [d2; d1].
Proof.
  intros d1 d2.
  assert (Hp : [d1; d2] ≡ₚ [d2; d1]) by apply perm_swap.
  split; [exact Hp|].
  exact (aggregator_order_independent [d1; d2] [d2; d1] Hp).
Defined.

(** ** The report of [compareSnapshots] *)

Lemma assessNodeVersionDrift_proper parse l r :
  assessNodeVersionDrift parse l r ≠ SNone.
Proof.
  unfold assessNodeVersionDrift.
  repeat case_match; discriminate.
Qed.

Lemma assessVersionDrift_proper parse l r : assessVersionDrift parse l r ≠ SNone.
Proof.
  unfold assessVersionDrift.
  repeat case_match; discriminate.
Qed.

Lemma compareNodeVersions_proper parse l r :
  Forall (proper_drift CNodejs) (compareNodeVersions parse l r).
Proof.
  unfold compareNodeVersions.
  repeat (apply Forall_app; split); case_match;
    repeat constructor; simpl; try discriminate.
  apply assessNodeVersionDrift_proper.
Qed.

Lemma Forall_flat_map_intro {A B} (P : B -> Prop) (f : A -> list B) (l : list A) :
  (∀ x, Forall P (f x)) → Forall P (flat_map f l).
Proof.
  intros H. induction l as [|x l IH]; simpl; [constructor|].
  apply Forall_app. split; [apply H|exact IH].
Qed.

Lemma Forall_map_intro {A B} (P : B -> Prop) (f : A -> B) (l : list A) :
  (∀ x, P (f x)) → Forall P (map f l).
Proof. intros H. induction l; simpl; constructor; auto. Qed.

Lemma compareDependencies_proper parse l r :
  Forall (proper_drift CDependency) (compareDependencies parse l r).
Proof.
  unfold compareDependencies. apply Forall_app. split.
  - apply Forall_flat_map_intro. intros pkg. unfold compareDependency.
    repeat case_match; repeat constructor; simpl; try discriminate.
    apply assessVersionDrift_proper.
  - case_match; repeat constructor; simpl; discriminate.
Qed.

Lemma compareEnvironmentVars_proper l r :
  Forall (proper_drift CEnvvar) (compareEnvironmentVars l r).
Proof.
  unfold compareEnvironmentVars.
  repeat (apply Forall_app; split); apply Forall_map_intro;
    intros key; split; simpl; done.
Qed.

Lemma compareDocker_proper l r :
  Forall (proper_drift CDocker) (compareDocker l r).
Proof.
  unfold compareDocker.
  repeat (apply Forall_app; split).
  - case_match; repeat constructor; simpl; discriminate.
  - apply Forall_map_intro. intros image. split; simpl; done.
  - apply Forall_map_intro. intros image. split; simpl; done.
Qed.

Lemma compareNativeModules_proper l r :
  Forall (proper_drift CBinary) (compareNativeModules l r).
Proof.
  unfold compareNativeModules. apply Forall_app. split.
  - apply Forall_flat_map_intro. intros m. unfold compareLocalModule.
    case_match; [|repeat constructor; simpl; discriminate].
    repeat (apply Forall_app; split); case_match;
      repeat constructor; simpl; discriminate.
  - apply Forall_flat_map_intro. intros m. unfold compareRemoteModule.
    case_match; repeat constructor; simpl; discriminate.
Qed.

Lemma in_category_same c ds :
  Forall (fun d => category d = c) ds → in_category c ds = ds.
Proof.
  induction 1 as [|d ds Hd _ IH]; [done|].
  unfold in_category in *. simpl. rewrite bool_decide_eq_true_2 by done.
  by rewrite IH.
Qed.

Lemma in_category_other c c' ds :
  Forall (fun d => category d = c') ds → c ≠ c' → in_category c ds = [].
Proof.
  intros H Hne. induction H as [|d ds Hd _ IH]; [done|].
  unfold in_category in *. simpl.
  rewrite bool_decide_eq_false_2 by congruence. exact IH.
Qed.

Lemma proper_category c ds :
  Forall (proper_drift c) ds → Forall (fun d => category d = c) ds.
Proof. intros H. eapply Forall_impl; [exact H|]. by intros d [? _]. Qed.

Lemma proper_severity c ds :
  Forall (proper_drift c) ds → Forall (fun d => severity d ≠ SNone) ds.
Proof. intros H. eapply Forall_impl; [exact H|]. by intros d [_ ?]. Qed.

Lemma overall_none_nil (ds : list Drift) :
  Forall (fun d => severity d ≠ SNone) ds →
  assessOverallSeverity ds = SNone → ds = [].
Proof.
  intros Hp Hnone. destruct ds as [|d ds]; [done|]. exfalso.
  destruct (overall_severity_bounds (d :: ds)) as [Hb _].
  apply Forall_cons_1 in Hb as [Hd _], Hp as [Hpd _].
  rewrite Hnone in Hd. destruct (severity d); simpl in Hd; try lia. done.
Qed.

Lemma count_none_zero (ds : list Drift) :
  Forall (fun d => severity d ≠ SNone) ds → count_severity SNone ds = 0.
Proof.
  intros H. unfold count_severity. rewrite filter_bool_nil; [done|].
  intros d Hd. apply bool_decide_eq_false_2.
  by apply (proj1 (Forall_forall _ _) H).
Qed.

Lemma compareSnapshots_proper parse l r :
  Forall (fun d => severity d ≠ SNone) (drifts (compareSnapshots parse l r)).
Proof.
  unfold compareSnapshots. cbn [drifts].
  apply Forall_app; split;
    [exact (proper_severity _ _ (compareNodeVersions_proper parse l r))|].
  apply Forall_app; split;
    [exact (proper_severity _ _ (compareDependencies_proper parse l r))|].
  apply Forall_app; split;
    [exact (proper_severity _ _ (compareEnvironmentVars_proper l r))|].
  apply Forall_app; split;
    [exact (proper_severity _ _ (compareDocker_proper l r))|].
  exact (proper_severity _ _ (compareNativeModules_proper _ _)).
Qed.

Lemma hasDrift_overall (ds : list Drift) :
  Forall (fun d => severity d ≠ SNone) ds →
  (0 <? length ds)%nat = negb (bool_decide (assessOverallSeverity ds = SNone)).
Proof.
  intros Hp. destruct ds as [|d ds]; [done|].
  simpl. symmetry. apply negb_true_iff, bool_decide_eq_false_2.
  intros Hnone. by apply overall_none_nil in Hnone.
Qed.

Lemma summary_severity_total (ds : list Drift) :
  Forall (fun d => severity d ≠ SNone) ds →
  critical (generateSummary ds) + high (generateSummary ds)
  + medium (generateSummary ds) + low (generateSummary ds)
  = total (generateSummary ds).
Proof.
  intros Hp. unfold generateSummary. rewrite countDrift_fold. simpl.
  pose proof (severity_partition_length ds) as Hlen.
  rewrite (count_none_zero _ Hp) in Hlen. lia.
Qed.

(** X5: no drift reported by [compareSnapshots] has severity "none";
    hence the report has drift exactly when its overall severity is not
    "none", and the four severity counters of its summary add up to its
    total. *)
Theorem compareSnapshots_severities parse (l r : EnvironmentSnapshot) :
  let report := compareSnapshots parse l r in
  Forall (fun d => severityRank (severity d) ≥ 1) (drifts report)
  ∧ hasDrift report = negb (bool_decide (report_severity report = SNone))
  ∧ critical (summary report) + high (summary report)
    + medium (summary report) + low (summary report)
    = total (summary report).
Proof.
  intros report.
  pose proof (compareSnapshots_proper parse l r) as Hp. fold report in Hp.
  split; [|split].
  - eapply Forall_impl; [exact Hp|]. intros d Hd. simpl in Hd.
    destruct (severity d); simpl; try lia. done.
  - exact (hasDrift_overall _ Hp).
  - exact (summary_severity_total _ Hp).
Qed.

(** X6: the drifts of a report come in category blocks, in the order
    runtime, dependency, envvar, container, binary, each block in discovery
    order: regrouping the list by category in that order gives the list
    itself. *)
Theorem compareSnapshots_block_order parse (l r : EnvironmentSnapshot) :
  report_order (drifts (compareSnapshots parse l r))
  = drifts (compareSnapshots parse l r).
Proof.
  unfold compareSnapshots. cbn [drifts].
  pose proof (proper_category _ _ (compareNodeVersions_proper parse l r)) as H1.
  pose proof (proper_category _ _ (compareDependencies_proper parse l r)) as H2.
  pose proof (proper_category _ _ (compareEnvironmentVars_proper l r)) as H3.
  pose proof (proper_category _ _ (compareDocker_proper l r)) as H4.
  pose proof (proper_category _ _
                (compareNativeModules_proper (nativeModules (dependencies l))
                   (nativeModules (dependencies r)))) as H5.
  unfold report_order. rewrite !in_category_app.
  rewrite (in_category_same _ _ H1), (in_category_same _ _ H2),
    (in_category_same _ _ H3), (in_category_same _ _ H4),
    (in_category_same _ _ H5).
  rewrite !(in_category_other CNodejs _ _ H2), !(in_category_other CNodejs _ _ H3),
    !(in_category_other CNodejs _ _ H4), !(in_category_other CNodejs _ _ H5),
    !(in_category_other CDependency _ _ H1), !(in_category_other CDependency _ _ H3),
    !(in_category_other CDependency _ _ H4), !(in_category_other CDependency _ _ H5),
    !(in_category_other CEnvvar _ _ H1), !(in_category_other CEnvvar _ _ H2),
    !(in_category_other CEnvvar _ _ H4), !(in_category_other CEnvvar _ _ H5),
    !(in_category_other CDocker _ _ H1), !(in_category_other CDocker _ _ H2),
    !(in_category_other CDocker _ _ H3), !(in_category_other CDocker _ _ H5),
    !(in_category_other CBinary _ _ H1), !(in_category_other CBinary _ _ H2),
    !(in_category_other CBinary _ _ H3), !(in_category_other CBinary _ _ H4)
    by discriminate.
  by rewrite !app_nil_r.
Qed.

(** ** Runtime and dependency sub-comparisons *)

Lemma overall_critical (ds : list Drift) (d : Drift) :
  d ∈ ds → severity d = SCritical → assessOverallSeverity ds = SCritical.
Proof.
  intros Hd Hs. destruct (overall_severity_bounds ds) as [Hb _].
  apply (proj1 (Forall_forall _ _) Hb) in Hd. rewrite Hs in Hd.
  destruct (assessOverallSeverity ds); simpl in Hd; try lia. done.
Qed.

(** X7: a platform mismatch or an architecture mismatch between the two
    runtimes makes the overall severity of the report "critical", whatever
    else the snapshots hold. *)
Theorem runtime_mismatch_critical parse (l r : EnvironmentSnapshot) :
  nv_platform (nodeVersion l) ≠ nv_platform (nodeVersion r)
  ∨ nv_arch (nodeVersion l) ≠ nv_arch (nodeVersion r) →
  report_severity (compareSnapshots parse l r) = SCritical
  ∧ hasDrift (compareSnapshots parse l r) = true.
Proof.
  intros H.
  assert (∃ d, d ∈ compareNodeVersions parse l r ∧ severity d = SCritical)
    as (d & Hd & Hs).
  { unfold compareNodeVersions. destruct H as [H|H].
    - eexists. split; [|shelve].
      rewrite !elem_of_app. right. right. left.
      rewrite (bool_decide_eq_false_2 _ H). simpl. left.
    - eexists. split; [|shelve].
      rewrite !elem_of_app. right. right. right.
      rewrite (bool_decide_eq_false_2 _ H). simpl. left. }
  Unshelve. 2,3: reflexivity.
  assert (Hin : d ∈ drifts (compareSnapshots parse l r)).
  { unfold compareSnapshots. cbn [drifts]. apply elem_of_app. by left. }
  split.
  - by apply overall_critical with d.
  - unfold compareSnapshots in *. cbn [drifts hasDrift] in *.
    match goal with |- context [length ?x] => destruct x end; [|done].
    by apply elem_of_nil in Hin.
Qed.

Lemma runtime_mismatch_critical_witness :
  report_severity (compareSnapshots semver_core_parse on_darwin on_linux) = SCritical
  ∧ hasDrift (compareSnapshots semver_core_parse on_darwin on_linux) = true.
Proof.
  apply (runtime_mismatch_critical semver_core_parse on_darwin on_linux).
  left. vm_compute. discriminate.
Defined.

(** X8: a difference of the two Node.js version strings is reported once,
    with the severity the classifier assigns to the two strings; equal
    strings are not reported. *)
Theorem compareNodeVersions_version_classified parse (l r : EnvironmentSnapshot) :
  reported "nodeVersion" (compareNodeVersions parse l r)
  = if bool_decide (nv_version (nodeVersion l) = nv_version (nodeVersion r))
    then []
    else [(assessNodeVersionDrift parse (nv_version (nodeVersion l))
                                  (nv_version (nodeVersion r)),
           VString (nv_version (nodeVersion l)),
           VString (nv_version (nodeVersion r)))].
Proof.
  unfold compareNodeVersions. rewrite !reported_app.
  repeat case_bool_decide; reflexivity.
Qed.

(** X9: the lockfile fingerprints are compared as a whole: different
    fingerprints give exactly one "high" drift on the field "lockfile",
    whose values are the first eight characters of each fingerprint; equal
    fingerprints give none. *)
Theorem compareDependencies_lockfile parse (l r : EnvironmentSnapshot) :
  reported "lockfile" (compareDependencies parse l r)
  = if bool_decide (lockfileHash (dependencies l) = lockfileHash (dependencies r))
    then []
    else [(SHigh,
           VString (String.substring 0 8 (lockfileHash (dependencies l))),
           VString (String.substring 0 8 (lockfileHash (dependencies r))))].
Proof.
  unfold compareDependencies. rewrite reported_app.
  assert (reported "lockfile"
            (flat_map (compareDependency parse (spread (production (dependencies l))
                                                  (development (dependencies l)))
                         (spread (production (dependencies r))
                                 (development (dependencies r))))
               (js_Set (Object_keys (spread (production (dependencies l))
                                            (development (dependencies l)))
                        ++ Object_keys (spread (production (dependencies r))
                                               (development (dependencies r))))))
          = []) as ->.
  { unfold reported. rewrite filter_bool_nil; [done|].
    intros d Hd. apply list_elem_of_In, in_flat_map in Hd as (pkg & _ & Hd).
    apply list_elem_of_In, compareDependency_field in Hd.
    apply bool_decide_eq_false_2. rewrite Hd. simpl. discriminate. }
  simpl. case_bool_decide; reflexivity.
Qed.

(** X10: a package present on both sides with non-empty ranges is reported
    only when the two range strings differ, and then once, with the severity
    the classifier assigns to them. *)
Theorem compareDependencies_version_classified parse (l r : EnvironmentSnapshot)
    (pkg a b : string) :
  allPackages l !! pkg = Some a → allPackages r !! pkg = Some b →
  a ≠ EmptyString → b ≠ EmptyString →
  reported ("dependency." +:+ pkg) (compareDependencies parse l r)
  = if bool_decide (a = b) then []
    else [(assessVersionDrift parse (Some a) (Some b), VString a, VString b)].
Proof.
  intros Hl Hr Ha Hb. rewrite reported_dependency.
  rewrite bool_decide_eq_true_2 by (rewrite Hl; eauto).
  unfold compareDependency. rewrite Hl, Hr. simpl.
  rewrite !bool_decide_eq_false_2 by done. simpl.
  case_bool_decide as Heq.
  - rewrite bool_decide_eq_true_2 by congruence. done.
  - rewrite bool_decide_eq_false_2 by congruence. done.
Qed.

Lemma compareDependencies_version_classified_witness :
  reported "dependency.lodash"
    (compareDependencies semver_core_parse lodash_20 lodash_21)
  = [(SLow, VString "4.17.20", VString "4.17.21")].
Proof.
  exact (compareDependencies_version_classified semver_core_parse
           lodash_20 lodash_21 "lodash" "4.17.20" "4.17.21"
           eq_refl eq_refl ltac:(discriminate) ltac:(discriminate)).
Defined.

(** ** Container and binary sub-comparisons *)

Lemma reported_nil_fields fld (ds : list Drift) :
  Forall (fun d => field d ≠ fld) ds → reported fld ds = [].
Proof.
  intros H. unfold reported. rewrite filter_bool_nil; [done|].
  intros d Hd. apply bool_decide_eq_false_2.
  by apply (proj1 (Forall_forall _ _) H).
Qed.

Lemma prefixed_inj (pre a b : string) : pre +:+ a = pre +:+ b → a = b.
Proof.
  induction pre as [|c pre IH]; simpl; [done|].
  intros [= H]. by apply IH.
Qed.

(** X11: image tags are compared as sets: a tag declared only remotely is
    reported once as "high" (missing image), a tag declared only locally
    once as "low" (extra image), and a tag declared on both sides or on
    neither is not reported. *)
Theorem compareDocker_images (l r : EnvironmentSnapshot) (tag : string) :
  reported ("docker.image." +:+ tag) (compareDocker l r)
  = match bool_decide (tag ∈ image_tags (docker l)),
          bool_decide (tag ∈ image_tags (docker r)) with
    | false, true => [(SHigh, VUndefined, VString tag)]
    | true, false => [(SLow, VString tag, VUndefined)]
    | _, _ => []
    end.
Proof.
  unfold compareDocker. rewrite !reported_app.
  rewrite (reported_nil_fields _ (if versionMismatch _ then _ else _)).
  2:{ case_match; repeat constructor. simpl. discriminate. }
  rewrite !(reported_map _ "docker.image.") by
    (try done; unfold compareDockerConfigs; simpl;
     apply NoDup_filter_bool, NoDup_js_Set).
  unfold compareDockerConfigs. simpl. fold (image_tags (docker l)) (image_tags (docker r)).
  assert (Hmis : tag ∈ List.filter (fun t => negb (Set_has (js_Set (image_tags (docker l))) t))
                         (js_Set (image_tags (docker r)))
                 ↔ (tag ∉ image_tags (docker l)) ∧ (tag ∈ image_tags (docker r))).
  { rewrite elem_of_filter_bool, elem_of_js_Set. unfold Set_has.
    rewrite negb_true_iff, bool_decide_eq_false, elem_of_js_Set. tauto. }
  assert (Hext : tag ∈ List.filter (fun t => negb (Set_has (js_Set (image_tags (docker r))) t))
                         (js_Set (image_tags (docker l)))
                 ↔ (tag ∈ image_tags (docker l)) ∧ (tag ∉ image_tags (docker r))).
  { rewrite elem_of_filter_bool, elem_of_js_Set. unfold Set_has.
    rewrite negb_true_iff, bool_decide_eq_false, elem_of_js_Set. tauto. }
  rewrite (bool_decide_ext _ _ Hmis), (bool_decide_ext _ _ Hext).
  repeat case_bool_decide; simpl; try done; tauto.
Qed.

(** X12: the engine versions are compared as they are, [null] included: a
    difference (also between [null] and a version) is reported once as
    "medium", equal values are not reported. *)
Theorem compareDocker_version (l r : EnvironmentSnapshot) :
  reported "docker.version" (compareDocker l r)
  = if bool_decide (dk_version (docker l) = dk_version (docker r)) then []
    else [(SMedium, of_nullable (dk_version (docker l)),
                    of_nullable (dk_version (docker r)))].
Proof.
  unfold compareDocker. rewrite !reported_app.
  rewrite (reported_nil_fields _ (map _ (missingImages _))).
  2:{ apply Forall_map_intro. intros image. simpl. discriminate. }
  rewrite (reported_nil_fields _ (map _ (extraImages _))).
  2:{ apply Forall_map_intro. intros image. simpl. discriminate. }
  unfold compareDockerConfigs. simpl.
  case_bool_decide; reflexivity.
Qed.

Lemma compareLocalModule_nil (remote : list NativeModuleInfo) (m : NativeModuleInfo) :
  compareLocalModule remote m = []
  ↔ ∃ m', List.find (fun x => bool_decide (nm_name x = nm_name m)) remote = Some m'
          ∧ isNativeModuleCompatible m m' = true.
Proof.
  unfold compareLocalModule, isNativeModuleCompatible.
  destruct (List.find _ remote) as [m'|].
  - split.
    + intros H. exists m'. split; [done|].
      repeat case_bool_decide; simpl in *; try done.
    + intros (m'' & [= <-] & H). rewrite !andb_true_iff in H.
      destruct H as [[-> ->] ->]. done.
  - split; [done|]. by intros (m' & ? & _).
Qed.

Lemma flat_map_nil_iff {A B} (f : A -> list B) (l : list A) :
  flat_map f l = [] ↔ Forall (fun x => f x = []) l.
Proof.
  induction l as [|x l IH]; simpl.
  - split; [constructor|done].
  - rewrite Forall_cons, <- IH. split.
    + intros H. by apply app_eq_nil in H.
    + intros [-> ->]. done.
Qed.

(** X13: the binary sub-comparison is empty exactly when every local module
    has a remote module of its name (the first one listed) with the same
    platform, architecture and ABI ([isNativeModuleCompatible]), and every
    remote module has a local module of its name. *)
Theorem compareNativeModules_nil_iff (l r : list NativeModuleInfo) :
  compareNativeModules l r = []
  ↔ Forall (fun m =>
              ∃ m', List.find (fun x => bool_decide (nm_name x = nm_name m)) r = Some m'
                    ∧ isNativeModuleCompatible m m' = true) l
    ∧ Forall (fun m =>
                is_Some (List.find (fun x => bool_decide (nm_name x = nm_name m)) l)) r.
Proof.
  unfold compareNativeModules.
  split.
  - intros H. apply app_eq_nil in H as [H1 H2].
    apply flat_map_nil_iff in H1, H2. split.
    + eapply Forall_impl; [exact H1|]. intros m. apply compareLocalModule_nil.
    + eapply Forall_impl; [exact H2|]. intros m. unfold compareRemoteModule.
      destruct (List.find _ l); [eauto|done].
  - intros [H1 H2].
    assert (flat_map (compareLocalModule r) l = []) as ->.
    { apply flat_map_nil_iff. eapply Forall_impl; [exact H1|].
      intros m. apply compareLocalModule_nil. }
    assert (flat_map (compareRemoteModule l) r = []) as ->; [|done].
    apply flat_map_nil_iff. eapply Forall_impl; [exact H2|].
    intros m [m' Hm]. unfold compareRemoteModule. by rewrite Hm.
Qed.

(** ** Runtime validation *)

(** X14: [validateNodeVersion] reports compatibility exactly when version,
    platform, architecture and ABI all agree, and it lists one issue per
    attribute that differs. *)
Theorem validateNodeVersion_compatible (l r : NodeVersionInfo) :
  (compatible (validateNodeVersion l r) = true
   ↔ nv_version l = nv_version r ∧ nv_platform l = nv_platform r
     ∧ nv_arch l = nv_arch r ∧ nv_modules l = nv_modules r)
  ∧ length (issues (validateNodeVersion l r))
    = (if bool_decide (nv_version l = nv_version r) then 0 else 1)
      + (if bool_decide (nv_platform l = nv_platform r) then 0 else 1)
      + (if bool_decide (nv_arch l = nv_arch r) then 0 else 1)
      + (if bool_decide (nv_modules l = nv_modules r) then 0 else 1).
Proof.
  unfold validateNodeVersion. simpl. rewrite !length_app.
  repeat case_bool_decide; simpl; split; try reflexivity;
    (split; [try discriminate; tauto | try tauto; intros (? & ? & ? & ?); done]).
Qed.

(** X15: the runtime sub-comparison looks at version, npm version, platform
    and architecture only: two runtimes that agree on these four are
    reported without drift, whatever their ABI, V8 and OpenSSL versions. *)
Theorem compareNodeVersions_ignores_abi parse (l r : EnvironmentSnapshot) :
  nv_version (nodeVersion l) = nv_version (nodeVersion r) →
  nv_npmVersion (nodeVersion l) = nv_npmVersion (nodeVersion r) →
  nv_platform (nodeVersion l) = nv_platform (nodeVersion r) →
  nv_arch (nodeVersion l) = nv_arch (nodeVersion r) →
  compareNodeVersions parse l r = [].
Proof.
  intros H1 H2 H3 H4. unfold compareNodeVersions.
  by rewrite !bool_decide_eq_true_2.
Qed.

Lemma compareNodeVersions_ignores_abi_witness :
  compatible (validateNodeVersion (nodeVersion abi_108) (nodeVersion abi_115)) = false
  ∧ compareNodeVersions semver_core_parse abi_108 abi_115 = []
  ∧ hasDrift (compareSnapshots semver_core_parse abi_108 abi_115) = false.
Proof.
  split; [reflexivity|]. split.
  - exact (compareNodeVersions_ignores_abi semver_core_parse abi_108 abi_115
             eq_refl eq_refl eq_refl eq_refl).
  - vm_compute. reflexivity.
Defined.

(** ** Capturing environment variables *)

Section CaptureEnvVarsFacts.

Variable isSensitive : string -> bool.

Lemma captureEnvVar_fold (redact : bool) (es : list (string * option string))
    (acc : EnvironmentVariables) (key : string) :
  NoDup es.*1 →
  variables (fold_left (captureEnvVar isSensitive redact) es acc) !! key
  = match (list_to_map es : gmap string (option string)) !! key with
    | Some (Some v) =>
        Some (if redact && isSensitive key then "[REDACTED]" else v)
    | _ => variables acc !! key
    end.
Proof.
  revert acc. induction es as [|[k ov] es IH]; intros acc Hnd; [done|].
  apply NoDup_cons in Hnd as [Hk Hnd].
  simpl fold_left. rewrite IH by done. simpl list_to_map.
  destruct (decide (k = key)) as [->|Hne].
  - rewrite lookup_insert_eq.
    rewrite (not_elem_of_list_to_map_1 es key) by done.
    unfold captureEnvVar. simpl.
    destruct ov as [v|]; [|done].
    destruct (redact && isSensitive key); simpl; by rewrite lookup_insert_eq.
  - rewrite lookup_insert_ne by done.
    destruct (list_to_map es !! key) as [[v|]|]; try done;
      unfold captureEnvVar; simpl; destruct ov as [v'|]; try done;
      destruct (redact && isSensitive k); simpl; by rewrite lookup_insert_ne.
Qed.


Lemma captureEnvVars_lookup (redactSensitive : option bool)
    (env : gmap string (option string)) (key : string) :
  variables (captureEnvVars isSensitive redactSensitive env) !! key
  = match env !! key with
    | Some (Some v) =>
        Some (if default true redactSensitive && isSensitive key
              then "[REDACTED]" else v)
    | _ => None
    end.
Proof.
  unfold captureEnvVars.
  rewrite captureEnvVar_fold by apply NoDup_fst_map_to_list.
  rewrite list_to_map_to_list. simpl.
  by destruct (env !! key) as [[v|]|].
Qed.



Lemma reported_env (l r : EnvironmentSnapshot) (key : string) :
  reported ("env." +:+ key) (compareEnvironmentVars l r)
  = (if bool_decide (key ∈ missing (compareEnvVars (envVars l) (envVars r)))
     then [(SHigh, VUndefined, VString "[SET]")] else [])
    ++ (if bool_decide (key ∈ extra (compareEnvVars (envVars l) (envVars r)))
        then [(SLow, VString "[SET]", VUndefined)] else [])
    ++ (if bool_decide (key ∈ different (compareEnvVars (envVars l) (envVars r)))
        then [(SMedium, of_lookup (variables (envVars l) !! key),
                        of_lookup (variables (envVars r) !! key))]
        else []).
Proof.
  unfold compareEnvironmentVars. rewrite !reported_app.
  by rewrite !(reported_map _ "env.") by
    (try done; unfold compareEnvVars; simpl;
     apply NoDup_filter_bool, NoDup_js_Set).
Qed.

(** X17: comparing two captures made with redaction on never reveals or
    compares a sensitive value: for a sensitive name the only drifts are
    "missing" (defined remotely only) and "extra" (defined locally only),
    whose values are the placeholder "[SET]"; two different secrets under
    one name give no drift. *)
Theorem redacted_captures_compare (s1 s2 : EnvironmentSnapshot)
    (env1 env2 : gmap string (option string)) (key : string) :
  isSensitive key = true →
  reported ("env." +:+ key)
    (compareEnvironmentVars
       (with_envVars s1 (captureEnvVars isSensitive None env1))
       (with_envVars s2 (captureEnvVars isSensitive None env2)))
  = match defines env1 key, defines env2 key with
    | false, true => [(SHigh, VUndefined, VString "[SET]")]
    | true, false => [(SLow, VString "[SET]", VUndefined)]
    | _, _ => []
    end.
Proof.
  intros Hs. rewrite reported_env.
  set (c1 := captureEnvVars isSensitive None env1).
  set (c2 := captureEnvVars isSensitive None env2).
  change (envVars (with_envVars s1 c1)) with c1.
  change (envVars (with_envVars s2 c2)) with c2.
  pose proof (elem_of_missing c1 c2 key) as Hmis.
  pose proof (elem_of_extra c1 c2 key) as Hext.
  pose proof (elem_of_different c1 c2 key) as Hdif.
  assert (H1 : variables c1 !! key
               = if defines env1 key then Some "[REDACTED]" else None).
  { subst c1. rewrite captureEnvVars_lookup. unfold defines. simpl. rewrite Hs.
    by destruct (env1 !! key) as [[v|]|]. }
  assert (H2 : variables c2 !! key
               = if defines env2 key then Some "[REDACTED]" else None).
  { subst c2. rewrite captureEnvVars_lookup. unfold defines. simpl. rewrite Hs.
    by destruct (env2 !! key) as [[v|]|]. }
  rewrite H1, H2 in Hmis, Hext, Hdif.
  rewrite (bool_decide_eq_false_2 (key ∈ different _)).
  2:{ rewrite Hdif. intros (a & b & Ha & Hb & _ & Hra & _).
      destruct (defines env1 key); [|done]. by injection Ha as <-. }
  rewrite app_nil_r.
  destruct (defines env1 key), (defines env2 key).
  - rewrite (bool_decide_eq_false_2 (key ∈ missing _))
      by (rewrite Hmis; intros [? _]; done).
    by rewrite (bool_decide_eq_false_2 (key ∈ extra _))
      by (rewrite Hext; intros [_ ?]; done).
  - rewrite (bool_decide_eq_false_2 (key ∈ missing _))
      by (rewrite Hmis; intros [? _]; done).
    by rewrite (bool_decide_eq_true_2 (key ∈ extra _)) by (rewrite Hext; eauto).
  - rewrite (bool_decide_eq_true_2 (key ∈ missing _)) by (rewrite Hmis; eauto).
    by rewrite (bool_decide_eq_false_2 (key ∈ extra _))
      by (rewrite Hext; intros [[? ?] _]; done).
  - rewrite (bool_decide_eq_false_2 (key ∈ missing _))
      by (rewrite Hmis; intros [_ [? ?]]; done).
    by rewrite (bool_decide_eq_false_2 (key ∈ extra _))
      by (rewrite Hext; intros [[? ?] _]; done).
Qed.

End CaptureEnvVarsFacts.

Lemma redacted_captures_compare_witness :
  sensitive_name "API_KEY" = true
  ∧ reported "env.API_KEY"
      (compareEnvironmentVars
         (with_envVars sample_snapshot (captureEnvVars sensitive_name None env_local))
         (with_envVars sample_snapshot (captureEnvVars sensitive_name None env_remote)))
    = []
  ∧ reported "env.DB_URL"
      (compareEnvironmentVars
         (with_envVars sample_snapshot (captureEnvVars sensitive_name None env_local))
         (with_envVars sample_snapshot (captureEnvVars sensitive_name None env_remote)))
    = [(SHigh, VUndefined, VString "[SET]")].
Proof.
  split; [reflexivity|]. split.
  - exact (redacted_captures_compare sensitive_name sample_snapshot sample_snapshot
             env_local env_remote "API_KEY" eq_refl).
  - exact (redacted_captures_compare sensitive_name sample_snapshot sample_snapshot
             env_local env_remote "DB_URL" eq_refl).
Defined.

(** ** The exit decision *)

Lemma indexOf_severity_name (s : DriftSeverity) :
  indexOf ["none"; "low"; "medium"; "high"; "critical"] (severity_name s)
  = Z.of_nat (severityRank s).
Proof. by destruct s. Qed.

Lemma indexOf_fail_rank (name : string) :
  indexOf ["none"; "low"; "medium"; "high"; "critical"] name
  = if bool_decide (name = "none") then 0%Z
    else if bool_decide (Z.of_nat (fail_rank name) = 0%Z) then (-1)%Z
    else Z.of_nat (fail_rank name).
Proof.
  unfold indexOf, fail_rank. simpl.
  repeat (case_bool_decide; subst; try done).
Qed.

Lemma indexOf4_severity_name (s : DriftSeverity) :
  indexOf ["low"; "medium"; "high"; "critical"] (severity_name s)
  = (Z.of_nat (severityRank s) - 1)%Z.
Proof. by destruct s. Qed.

Lemma indexOf4_fail_rank (name : string) :
  indexOf ["low"; "medium"; "high"; "critical"] name
  = (Z.of_nat (fail_rank name) - 1)%Z.
Proof.
  unfold indexOf, fail_rank. simpl.
  repeat (case_bool_decide; subst; try done).
Qed.

(** On a non-empty list, some drift reaches a rank exactly when the overall
    severity does. *)
Lemma reaches_overall (rank : nat) (ds : list Drift) :
  ds ≠ [] →
  reaches rank ds = (rank <=? severityRank (assessOverallSeverity ds))%nat.
Proof.
  intros Hne. destruct (overall_severity_bounds ds) as [Hall Hex].
  unfold reaches. apply eq_true_iff_eq.
  rewrite existsb_exists, Nat.leb_le. split.
  - intros (d & Hd & Hr). apply Nat.leb_le in Hr.
    rewrite Forall_forall in Hall. specialize (Hall d).
    rewrite list_elem_of_In in Hall. specialize (Hall Hd). lia.
  - intros Hr. destruct Hex as [Hnone|Hex].
    + destruct ds as [|d ds]; [done|]. exists d. split; [by left|].
      apply Nat.leb_le. rewrite Hnone in Hr. simpl in Hr. lia.
    + apply Exists_exists in Hex as (d & Hd & Heq).
      exists d. split; [by apply list_elem_of_In|].
      apply Nat.leb_le. by rewrite Heq.
Qed.

Lemma hasDrift_nonempty (ds : list Drift) :
  (0 <? length ds)%nat = true ↔ ds ≠ [].
Proof. destruct ds; simpl; split; done. Qed.

(** X18: the two CI plugins and [validateCommand] take the same decision:
    with both snapshots available they end with exit code 1 exactly when
    some reported drift reaches the threshold named by [failOn] ("high" when
    it is absent or empty); a [failOn] that names no severity, or names
    "none", fails on any drift at all.  Otherwise the plugins return and
    [validateCommand] exits with code 0. *)
Theorem ci_gate_decision parse (l r : EnvironmentSnapshot) (failOn : option string) :
  let ds := drifts (compareSnapshots parse l r) in
  let fail := reaches (fail_rank (or_else failOn "high")) ds in
  runGitHubAction parse (Some l) (Some r) failOn
    = (if fail then Exited 1 else Returned)
  ∧ runGitLabCI parse (Some l) (Some r) failOn
    = (if fail then Exited 1 else Returned)
  ∧ validateCommand parse (Some l) (Some r) failOn
    = (if fail then Exited 1 else Exited 0).
Proof.
  intros ds fail. subst fail.
  unfold runGitHubAction, runGitLabCI, validateCommand. cbv zeta.
  change (hasDrift (compareSnapshots parse l r)) with (0 <? length ds)%nat.
  change (report_severity (compareSnapshots parse l r))
    with (assessOverallSeverity ds).
  destruct (0 <? length ds)%nat eqn:Hd; simpl.
  - apply hasDrift_nonempty in Hd as Hne.
    assert (Hpos : 1 ≤ severityRank (assessOverallSeverity ds)).
    { pose proof (overall_none_nil ds (compareSnapshots_proper parse l r)) as H.
      fold ds in H. destruct (assessOverallSeverity ds); simpl; try lia.
      by specialize (H eq_refl). }
    rewrite (reaches_overall _ _ Hne).
    rewrite indexOf_severity_name, indexOf_fail_rank.
    set (name := or_else failOn "high").
    assert (Hfn : bool_decide (name = "none") = true → fail_rank name = 0).
    { intros H. apply bool_decide_eq_true_1 in H. by rewrite H. }
    assert (Heq : ((if bool_decide (name = "none") then 0
                    else if bool_decide (Z.of_nat (fail_rank name) = 0)
                         then -1 else Z.of_nat (fail_rank name))
                   <=? Z.of_nat (severityRank (assessOverallSeverity ds)))%Z
                  = (fail_rank name <=? severityRank (assessOverallSeverity ds))%nat).
    { apply eq_true_iff_eq. rewrite Z.leb_le, Nat.leb_le.
      destruct (bool_decide (name = "none")) eqn:E.
      - rewrite (Hfn eq_refl). lia.
      - destruct (bool_decide (Z.of_nat (fail_rank name) = 0%Z)) eqn:E2.
        + apply bool_decide_eq_true_1 in E2. lia.
        + lia. }
    rewrite Heq.
    by destruct (fail_rank name <=? severityRank (assessOverallSeverity ds))%nat.
  - assert (ds = []) as ->.
    { destruct ds; [done|]. simpl in Hd. done. }
    done.
Qed.

(** X19: [driftCommand] has no default threshold: without [failOn] (or with
    an empty one) it returns whatever the drifts are; with a [failOn] it
    takes the decision of the CI plugins for that name.  [compareCommand]
    takes the decision of the CI plugins for "high": it exits with code 1
    exactly when some reported drift is critical or high. *)
Theorem drift_and_compare_gates parse (l r : EnvironmentSnapshot) (name : string) :
  let ds := drifts (compareSnapshots parse l r) in
  driftCommand parse (Some l) (Some r) None = Returned
  ∧ driftCommand parse (Some l) (Some r) (Some name)
    = (if bool_decide (name = EmptyString) then Returned
       else if reaches (fail_rank name) ds then Exited 1 else Returned)
  ∧ compareCommand parse (Some l) (Some r)
    = (if reaches 3 ds then Exited 1 else Returned).
Proof.
  intros ds.
  unfold driftCommand, compareCommand. cbv zeta.
  change (hasDrift (compareSnapshots parse l r)) with (0 <? length ds)%nat.
  change (report_severity (compareSnapshots parse l r))
    with (assessOverallSeverity ds).
  destruct (0 <? length ds)%nat eqn:Hd; simpl.
  - apply hasDrift_nonempty in Hd as Hne.
    rewrite !(reaches_overall _ _ Hne).
    split; [done|]. split.
    + case_bool_decide; [done|].
      rewrite indexOf4_severity_name, indexOf4_fail_rank.
      assert (Heq : (Z.of_nat (fail_rank name) - 1
                     <=? Z.of_nat (severityRank (assessOverallSeverity ds)) - 1)%Z
                    = (fail_rank name <=? severityRank (assessOverallSeverity ds))%nat).
      { apply eq_true_iff_eq. rewrite Z.leb_le, Nat.leb_le. lia. }
      rewrite Heq.
      by destruct (fail_rank name <=? severityRank (assessOverallSeverity ds))%nat.
    + by destruct (assessOverallSeverity ds).
  - assert (ds = []) as ->.
    { destruct ds; [done|]. simpl in Hd. done. }
    split; [done|]. split; [by case_bool_decide|]. done.
Qed.

(** ** Outcome of a run of [sync] *)

Lemma failing_app a b : failing (a ++ b) = failing a ++ failing b.
Proof. unfold failing. by rewrite List.filter_app, map_app. Qed.

Lemma tracks_nil answer dry : tracks answer dry (ret []) [].
Proof. intros j. done. Qed.

Lemma tracks_app answer dry m1 m2 ds1 ds2 :
  tracks answer dry m1 ds1 → tracks answer dry m2 ds2 →
  tracks answer dry (let! a := m1 in let! b := m2 in ret (a ++ b))%exec
         (ds1 ++ ds2).
Proof.
  intros H1 H2 j. unfold bind, ret.
  specialize (H1 j). destruct (m1 j) as [a j1].
  specialize (H2 j1). destruct (m2 j1) as [b j2].
  simpl in *. by rewrite failing_app, List.filter_app, H1, H2.
Qed.

Lemma tracks_forEach answer dry (body : Drift -> Exec (list SyncAction)) ds :
  (∀ d, d ∈ ds → tracks answer dry (body d) [d]) →
  tracks answer dry (forEach body ds) ds.
Proof.
  induction ds as [|d ds IH]; intros H.
  - apply tracks_nil.
  - simpl. apply (tracks_app answer dry (body d) (forEach body ds) [d] ds).
    + apply H. left.
    + apply IH. intros d' Hd'. apply H. by right.
Qed.

Lemma tracks_manual answer dry d text :
  (dry = false → command_for d = None) →
  tracks answer dry (ret [succeeded_action d text]) [d].
Proof.
  intros Hcmd j. unfold fails. simpl.
  destruct dry; [done|]. by rewrite Hcmd.
Qed.

Lemma tracks_exec answer d cmd text :
  command_for d = Some cmd →
  tracks answer false
    (let! o := execAsync (fun _ => answer) cmd in
     match o with
     | Resolved => ret [succeeded_action d text]
     | Rejected msg => ret [failed_action d msg]
     end)%exec [d].
Proof.
  intros Hcmd j. unfold bind, execAsync, fails. simpl. rewrite Hcmd.
  by destruct (answer cmd).
Qed.

Lemma syncDependency_tracks answer dry d :
  category d = CDependency →
  tracks answer dry (syncDependency (fun _ => answer) dry d) [d].
Proof.
  intros Hc. unfold syncDependency.
  case_bool_decide as Hlock.
  - apply tracks_manual. intros _. unfold command_for.
    rewrite Hc. by rewrite bool_decide_eq_true_2.
  - destruct dry.
    + by apply tracks_manual.
    + destruct (truthy (remote d)) eqn:Ht; simpl.
      * apply tracks_exec. unfold command_for. rewrite Hc, Ht.
        by rewrite bool_decide_eq_false_2.
      * apply tracks_exec. unfold command_for. rewrite Hc, Ht.
        by rewrite bool_decide_eq_false_2.
Qed.

Lemma syncEnvVar_tracks answer dry d :
  category d = CEnvvar → tracks answer dry (syncEnvVar d) [d].
Proof.
  intros Hc. unfold syncEnvVar. apply tracks_manual.
  intros _. unfold command_for. by rewrite Hc.
Qed.

Lemma syncDockerDrift_tracks answer dry d :
  category d = CDocker →
  tracks answer dry (syncDockerDrift (fun _ => answer) dry d) [d].
Proof.
  intros Hc. unfold syncDockerDrift.
  destruct (startsWith (field d) "docker.image.") eqn:Hp.
  - destruct dry.
    + by apply tracks_manual.
    + destruct (truthy (remote d)) eqn:Ht.
      * apply tracks_exec. unfold command_for. by rewrite Hc, Hp, Ht.
      * intros j. unfold fails, command_for. simpl. by rewrite Hc, Hp, Ht.
  - apply tracks_manual. intros _. unfold command_for. by rewrite Hc, Hp.
Qed.

Lemma syncNativeModule_tracks answer dry d :
  category d = CBinary →
  tracks answer dry (syncNativeModule (fun _ => answer) dry d) [d].
Proof.
  intros Hc. unfold syncNativeModule. destruct dry.
  - by apply tracks_manual.
  - apply tracks_exec. unfold command_for. by rewrite Hc.
Qed.

Lemma syncNodeVersion_tracks answer dry ds :
  (∀ d, d ∈ ds → category d = CNodejs) →
  tracks answer dry (ret (syncNodeVersion ds dry)) ds.
Proof.
  intros H j. simpl. unfold failing, syncNodeVersion.
  induction ds as [|d ds IH]; [done|].
  simpl. rewrite IH by (intros d' Hd'; apply H; by right).
  unfold fails at 2, command_for. rewrite (H d) by left.
  by rewrite andb_false_r.
Qed.

Lemma syncAll_tracks answer dry ds :
  tracks answer dry (syncAll (fun _ => answer) dry ds) (sync_order ds).
Proof.
  unfold syncAll, sync_order.
  pose proof (tracks_forEach answer dry (syncDependency (fun _ => answer) dry)
                (in_category CDependency ds)
                (fun d Hd => syncDependency_tracks answer dry d
                               (in_category_category _ _ _ Hd))) as Hdep.
  pose proof (tracks_forEach answer dry syncEnvVar (in_category CEnvvar ds)
                (fun d Hd => syncEnvVar_tracks answer dry d
                               (in_category_category _ _ _ Hd))) as Henv.
  pose proof (tracks_forEach answer dry (syncDockerDrift (fun _ => answer) dry)
                (in_category CDocker ds)
                (fun d Hd => syncDockerDrift_tracks answer dry d
                               (in_category_category _ _ _ Hd))) as Hdock.
  pose proof (tracks_forEach answer dry (syncNativeModule (fun _ => answer) dry)
                (in_category CBinary ds)
                (fun d Hd => syncNativeModule_tracks answer dry d
                               (in_category_category _ _ _ Hd))) as Hbin.
  pose proof (syncNodeVersion_tracks answer dry (in_category CNodejs ds)
                (in_category_category _ _)) as Hnode.
  pose proof (tracks_app _ _ _ _ _ _ Hdep
               (tracks_app _ _ _ _ _ _ Henv
                  (tracks_app _ _ _ _ _ _ Hdock
                     (tracks_app _ _ _ _ _ _ Hbin Hnode)))) as H.
  intros j. specialize (H j). revert H.
  unfold syncDependencies, syncEnvVars, syncDocker, syncNativeModules, bind, ret.
  destruct (forEach (syncDependency (fun _ => answer) dry)
              (in_category CDependency ds) j) as [dep j1].
  destruct (forEach syncEnvVar (in_category CEnvvar ds) j1) as [env j2].
  destruct (forEach (syncDockerDrift (fun _ => answer) dry)
              (in_category CDocker ds) j2) as [dock j3].
  destruct (forEach (syncNativeModule (fun _ => answer) dry)
              (in_category CBinary ds) j3) as [bin j4].
  done.
Qed.

Lemma filter_nil_forallb {A} (f : A -> bool) (l : list A) :
  (length (List.filter f l) =? 0)%nat = forallb (fun x => negb (f x)) l.
Proof.
  induction l as [|x l IH]; [done|].
  simpl. destruct (f x); simpl; [done|exact IH].
Qed.

(** X20: on a shell whose answer depends on the command alone, the actions
    of [sync] that fail are exactly those of the kept drifts whose command
    the shell rejects, in processing order; [failed] counts them, and
    [success] holds exactly when the shell rejects the command of no kept
    drift.  In a dry run nothing fails. *)
Theorem sync_failed_drifts (answer : string -> ExecOutcome)
    (report : DriftReport) (options : SyncOptions) (j0 : Journal) :
  let dry := default false (dryRun options) in
  let kept := sync_order (filterDrifts options (drifts report)) in
  let res := (sync (fun _ => answer) report options j0).1 in
  failing (sr_actions res) = List.filter (fails answer dry) kept
  ∧ sum_failed (sr_summary res) = length (List.filter (fails answer dry) kept)
  ∧ sr_success res = forallb (fun d => negb (fails answer dry d)) kept.
Proof.
  intros dry kept res. subst res. rewrite sync_unfold. simpl. fold dry.
  pose proof (syncAll_tracks answer dry (filterDrifts options (drifts report)) j0)
    as H.
  fold kept in H.
  set (acts := (syncAll (fun _ => answer) dry
                  (filterDrifts options (drifts report)) j0).1) in *.
  assert (Hlen : length (List.filter (fun a => negb (success a)) acts)
                 = length (List.filter (fails answer dry) kept)).
  { rewrite <- H. unfold failing. by rewrite length_map. }
  split; [exact H|]. split; [exact Hlen|].
  rewrite Hlen. apply filter_nil_forallb.
Qed.

(** ** The filters of [sync] *)

Lemma elem_of_filterDrifts options ds d :
  d ∈ filterDrifts options ds
  ↔ d ∈ ds
    ∧ (∀ cs, categories options = Some cs → cs ≠ [] → category d ∈ cs)
    ∧ (∀ m, maxSeverity options = Some m →
            (severityIndex (severity d) ≤ severityIndex m)%Z).
Proof.
  unfold filterDrifts.
  set (ds1 := match categories options with
              | Some cs => if (0 <? length cs)%nat
                           then List.filter (fun d => bool_decide (category d ∈ cs)) ds
                           else ds
              | None => ds
              end).
  assert (H1 : d ∈ ds1 ↔ d ∈ ds
               ∧ (∀ cs, categories options = Some cs → cs ≠ [] → category d ∈ cs)).
  { subst ds1. destruct (categories options) as [cs|].
    - destruct cs as [|c cs]; simpl.
      + split; [intros H; split; [done|]; by intros ? [= <-]|by intros [? _]].
      + rewrite elem_of_filter_bool, bool_decide_eq_true. split.
        * intros [Hd Hc]. split; [done|]. by intros ? [= <-] _.
        * intros [Hd Hc]. split; [done|]. by apply Hc.
    - split; [intros H; split; [done|]; by intros ? [=]|by intros [? _]]. }
  destruct (maxSeverity options) as [m|].
  - rewrite elem_of_filter_bool, H1, Z.leb_le. split.
    + intros [[Hd Hc] Hs]. split; [done|]. split; [done|]. by intros ? [= <-].
    + intros (Hd & Hc & Hs). split; [done|]. by apply Hs.
  - rewrite H1. split.
    + intros [Hd Hc]. split; [done|]. split; [done|]. by intros ? [=].
    + intros (Hd & Hc & _). done.
Qed.

Lemma sync_options shell report o1 o2 j :
  dryRun o1 = dryRun o2 →
  filterDrifts o1 (drifts report) = filterDrifts o2 (drifts report) →
  sync shell report o1 j = sync shell report o2 j.
Proof. intros Hd Hf. by rewrite !sync_unfold, Hd, Hf. Qed.

(** X21: [sync] acts only on drifts of the report that pass both filters:
    every recorded action belongs to a drift of the report whose category is
    among [categories] (when that list is given and non-empty) and whose
    severity does not exceed [maxSeverity] (when given).  An empty
    [categories] list selects everything, as an absent one does, and the
    ceiling "critical" excludes nothing. *)
Theorem sync_respects_filters shell (report : DriftReport) (options : SyncOptions)
    (j0 : Journal) :
  Forall (fun a =>
            drift a ∈ drifts report
            ∧ (∀ cs, categories options = Some cs → cs ≠ [] →
                     category (drift a) ∈ cs)
            ∧ (∀ m, maxSeverity options = Some m →
                    (severityIndex (severity (drift a)) ≤ severityIndex m)%Z))
         (sr_actions (sync shell report options j0).1)
  ∧ sync shell report (with_categories options (Some [])) j0
    = sync shell report (with_categories options None) j0
  ∧ sync shell report (with_ceiling options (Some SCritical)) j0
    = sync shell report (with_ceiling options None) j0.
Proof.
  split; [|split].
  - rewrite sync_unfold. simpl.
    destruct (syncAll_handles shell (default false (dryRun options))
                (filterDrifts options (drifts report)) j0)
      as (calls & _ & _ & Hd & _).
    apply Forall_forall. intros a Ha.
    apply elem_of_filterDrifts.
    rewrite <- (sync_order_Permutation (filterDrifts options (drifts report))).
    assert (Hin : drift a ∈ map drift
                    (syncAll shell (default false (dryRun options))
                       (filterDrifts options (drifts report)) j0).1)
      by (apply list_elem_of_fmap; eauto).
    rewrite Hd in Hin. by apply elem_of_filter_bool in Hin as [Hin _].
  - by apply sync_options.
  - apply sync_options; [done|].
    unfold filterDrifts. simpl. apply filter_bool_all.
    intros d. apply Z.leb_le. destruct (severity d); simpl; lia.
Qed.

(** X22: the ceiling "none" switches [sync] off for the reports the
    comparator builds: no drift is kept, no command is issued, no action is
    recorded, and the run reports success with all counters at zero. *)
Theorem sync_ceiling_none shell parse (l r : EnvironmentSnapshot)
    (options : SyncOptions) (j0 : Journal) :
  sync shell (compareSnapshots parse l r) (with_ceiling options (Some SNone)) j0
  = ({| sr_success := true; sr_actions := [];
        sr_summary := {| sum_total := 0; sum_succeeded := 0; sum_failed := 0 |} |},
     j0).
Proof.
  rewrite sync_unfold.
  assert (Hk : filterDrifts (with_ceiling options (Some SNone))
                 (drifts (compareSnapshots parse l r)) = []).
  { apply elem_of_nil_inv. intros d Hd.
    apply elem_of_filterDrifts in Hd as (Hd & _ & Hs).
    specialize (Hs SNone eq_refl).
    pose proof (compareSnapshots_proper parse l r) as Hp.
    rewrite Forall_forall in Hp. specialize (Hp d Hd).
    destruct (severity d); simpl in Hs; try lia. done. }
  rewrite Hk. reflexivity.
Qed.

(** ** The commands [sync] can issue *)

Lemma prefix_append (p s : string) : String.prefix p (p +:+ s) = true.
Proof.
  induction p as [|c p IH]; simpl; [by destruct s|].
  destruct (Ascii.ascii_dec c c); [exact IH|done].
Qed.

Lemma command_for_known d cmd :
  command_for d = Some cmd → known_command cmd = true.
Proof.
  unfold command_for, known_command. intros H.
  destruct (category d).
  - done.
  - case_bool_decide; [done|].
    destruct (truthy (remote d)); injection H as <-.
    + by rewrite (prefix_append "npm install ").
    + rewrite (prefix_append "npm uninstall "). by rewrite orb_true_r.
  - done.
  - destruct (startsWith (field d) "docker.image." && truthy (remote d)); [|done].
    injection H as <-. rewrite (prefix_append "docker pull ").
    by rewrite orb_true_r.
  - injection H as <-. rewrite (prefix_append "npm rebuild ").
    by rewrite !orb_true_r.
Qed.

(** X23: [sync] only ever appends to the journal of external calls, and
    every command it issues is an [npm install], an [npm uninstall], a
    [docker pull] or an [npm rebuild]. *)
Theorem sync_commands_known shell (report : DriftReport) (options : SyncOptions)
    (j0 : Journal) :
  let j := (sync shell report options j0).2 in
  take (length j0) j = j0
  ∧ Forall (fun c => known_command (command c) = true) (drop (length j0) j).
Proof.
  intros j. subst j. rewrite sync_unfold. simpl.
  destruct (syncAll_handles shell (default false (dryRun options))
              (filterDrifts options (drifts report)) j0)
    as (calls & Hj & Hc & _).
  rewrite Hj. rewrite take_app_length, drop_app_length. split; [done|].
  apply Forall_forall. intros c Hin.
  assert (Hcmd : command c ∈ map command calls)
    by (apply list_elem_of_fmap; eauto).
  rewrite Hc in Hcmd. destruct (default false (dryRun options)).
  - by apply elem_of_nil in Hcmd.
  - apply list_elem_of_omap in Hcmd as (d & _ & Hd).
    by apply command_for_known in Hd.
Qed.

(** ** Loading a snapshot document *)





Section Loading.

Variable Date_parse : string -> Date.
Variable JSON_parse : string -> option json.







End Loading.


(** ** Fingerprints and parity *)

Lemma compareNodeVersions_nil parse l r :
  compareNodeVersions parse l r = [] →
  nv_version (nodeVersion l) = nv_version (nodeVersion r)
  ∧ nv_platform (nodeVersion l) = nv_platform (nodeVersion r)
  ∧ nv_arch (nodeVersion l) = nv_arch (nodeVersion r).
Proof.
  unfold compareNodeVersions. cbv zeta. intros H.
  apply app_eq_nil in H as [H1 H]. apply app_eq_nil in H as [_ H].
  apply app_eq_nil in H as [H3 H4].
  repeat split.
  - by destruct (decide (nv_version (nodeVersion l) = nv_version (nodeVersion r)))
      as [|Hne]; [|rewrite bool_decide_eq_false_2 in H1 by done].
  - by destruct (decide (nv_platform (nodeVersion l) = nv_platform (nodeVersion r)))
      as [|Hne]; [|rewrite bool_decide_eq_false_2 in H3 by done].
  - by destruct (decide (nv_arch (nodeVersion l) = nv_arch (nodeVersion r)))
      as [|Hne]; [|rewrite bool_decide_eq_false_2 in H4 by done].
Qed.

Lemma compareDependencies_nil parse l r :
  compareDependencies parse l r = [] →
  lockfileHash (dependencies l) = lockfileHash (dependencies r).
Proof.
  unfold compareDependencies. cbv zeta. intros H.
  apply app_eq_nil in H as [_ H].
  by destruct (decide (lockfileHash (dependencies l) = lockfileHash (dependencies r)))
    as [|Hne]; [|rewrite bool_decide_eq_false_2 in H by done].
Qed.

Lemma compareDocker_nil l r :
  compareDocker l r = [] → dk_version (docker l) = dk_version (docker r).
Proof.
  unfold compareDocker, compareDockerConfigs. cbv zeta. simpl. intros H.
  apply app_eq_nil in H as [H _].
  by destruct (decide (dk_version (docker l) = dk_version (docker r)))
    as [|Hne]; [|rewrite bool_decide_eq_false_2 in H by done].
Qed.

Lemma compareEnvironmentVars_nil l r :
  compareEnvironmentVars l r = [] →
  length (Object_keys (variables (envVars l)))
  = length (Object_keys (variables (envVars r))).
Proof.
  unfold compareEnvironmentVars. cbv zeta. intros H.
  apply app_eq_nil in H as [Hm H]. apply app_eq_nil in H as [He _].
  apply map_eq_nil in Hm, He.
  unfold Object_keys. rewrite !length_fmap, !length_map_to_list.
  rewrite <- !size_dom. f_equal. apply set_eq. intros k.
  rewrite !elem_of_dom.
  pose proof (elem_of_missing (envVars l) (envVars r) k) as Hmis.
  pose proof (elem_of_extra (envVars l) (envVars r) k) as Hext.
  rewrite Hm in Hmis. rewrite He in Hext.
  rewrite elem_of_nil in Hmis, Hext.
  destruct (variables (envVars l) !! k) eqn:E1,
           (variables (envVars r) !! k) eqn:E2; split; intros Hs; eauto;
    try (by destruct Hs); exfalso;
    first [ apply Hext; split; by eauto | apply Hmis; split; by eauto ].
Qed.

(** X25: the fingerprint is coarser than the comparison.  Two snapshots
    between which [compareSnapshots] reports no drift, which agree on the
    runtime's ABI number and hold as many images, have the same
    fingerprint, whatever their timestamps, hosts, environment types,
    stored hashes and variable values are. *)
Theorem hashSnapshot_parity (sha256_hex : string -> string) parse
    (l r : EnvironmentSnapshot) :
  drifts (compareSnapshots parse l r) = [] →
  nv_modules (nodeVersion l) = nv_modules (nodeVersion r) →
  length (dk_images (docker l)) = length (dk_images (docker r)) →
  compareSnapshotHashes (hashSnapshot sha256_hex l) (hashSnapshot sha256_hex r)
  = true.
Proof.
  cbn [drifts compareSnapshots]. intros H Habi Himg.
  apply app_eq_nil in H as [Hnode H]. apply app_eq_nil in H as [Hdep H].
  apply app_eq_nil in H as [Henv H]. apply app_eq_nil in H as [Hdock _].
  apply compareNodeVersions_nil in Hnode as (Hv & Hp & Ha).
  apply compareDependencies_nil in Hdep.
  apply compareEnvironmentVars_nil in Henv.
  apply compareDocker_nil in Hdock.
  apply bool_decide_eq_true_2. unfold hashSnapshot.
  by rewrite Hv, Hp, Ha, Habi, Hdep, Henv, Hdock, Himg.
Qed.

Lemma hashSnapshot_parity_witness :
  drifts (compareSnapshots semver_core_parse sample_full_snapshot
            sample_later_snapshot) = []
  ∧ timestamp sample_full_snapshot ≠ timestamp sample_later_snapshot
  ∧ compareSnapshotHashes
      (hashSnapshot (fun s => s) sample_full_snapshot)
      (hashSnapshot (fun s => s) sample_later_snapshot) = true.
Proof.
  assert (H : drifts (compareSnapshots semver_core_parse sample_full_snapshot
                        sample_later_snapshot) = [])
    by (vm_compute; reflexivity).
  split; [exact H|]. split; [discriminate|].
  exact (hashSnapshot_parity (fun s => s) semver_core_parse
           sample_full_snapshot sample_later_snapshot H eq_refl eq_refl).
Defined.

(** ** Module names *)

Lemma lastIndexOf_from_absent i xs x :
  x ∉ xs → lastIndexOf_from i xs x = (-1)%Z.
Proof.
  revert i. induction xs as [|y ys IH]; intros i Hx; [done|].
  apply not_elem_of_cons in Hx as [Hne Hx].
  simpl. rewrite IH by done. simpl.
  by rewrite bool_decide_eq_false_2.
Qed.

Lemma lastIndexOf_from_last i pre x post :
  (0 ≤ i)%Z → x ∉ post →
  lastIndexOf_from i (pre ++ x :: post) x = (i + Z.of_nat (length pre))%Z.
Proof.
  revert i. induction pre as [|y pre IH]; intros i Hi Hx.
  - simpl. rewrite lastIndexOf_from_absent by done. simpl.
    rewrite bool_decide_eq_true_2 by done. lia.
  - simpl app. cbn [lastIndexOf_from]. rewrite IH by (done || lia).
    cbv zeta.
    destruct (0 <=? i + 1 + Z.of_nat (length pre))%Z eqn:E.
    + simpl length. lia.
    + apply Z.leb_gt in E. lia.
Qed.

(** X26: for a path whose segments (split at "/" and "\") hold a last
    [node_modules] followed by a segment [name], [extractModuleName]
    returns [name]; for a scope ([name] starts with "@") it returns the
    scope joined with the next segment, "undefined" standing in when there
    is none; for an empty [name] it returns "unknown".  The result is never
    the empty string. *)
Theorem extractModuleName_located (filePath : string) (pre rest : list string)
    (name : string) :
  split_path filePath = pre ++ "node_modules" :: name :: rest →
  "node_modules" ∉ name :: rest →
  extractModuleName filePath
  = (if startsWith name "@" then name +:+ "/" +:+ tpl (head rest)
     else if bool_decide (name = EmptyString) then "unknown" else name)
  ∧ bool_decide (extractModuleName filePath = EmptyString) = false.
Proof.
  intros Hparts Hlast.
  assert (Hval : extractModuleName filePath
                 = (if startsWith name "@" then name +:+ "/" +:+ tpl (head rest)
                    else if bool_decide (name = EmptyString) then "unknown"
                         else name)).
  { unfold extractModuleName, lastIndexOf. rewrite Hparts.
    rewrite lastIndexOf_from_last by (done || lia).
    assert (Hidx : (0 + Z.of_nat (length pre) =? -1)%Z = false)
      by (apply Z.eqb_neq; lia).
    rewrite Hidx.
    replace (Z.to_nat (0 + Z.of_nat (length pre) + 1)) with (length pre + 1)
      by lia.
    replace (Z.to_nat (0 + Z.of_nat (length pre) + 2)) with (length pre + 2)
      by lia.
    rewrite !lookup_app_r by lia.
    replace (length pre + 1 - length pre) with 1 by lia.
    replace (length pre + 2 - length pre) with 2 by lia.
    simpl. destruct (startsWith name "@"); [by destruct rest|].
    by case_bool_decide. }
  split; [exact Hval|]. rewrite Hval. apply bool_decide_eq_false_2.
  destruct (startsWith name "@") eqn:Hs.
  - destruct name; [done|]. done.
  - case_bool_decide; done.
Qed.

Lemma extractModuleName_located_witness :
  extractModuleName "/app/node_modules/@scope/pkg/build/Release/binding.node"
  = "@scope/pkg"
  ∧ extractModuleName "C:\app\node_modules\bcrypt\lib\binding.node" = "bcrypt"
  ∧ extractModuleName "/app/node_modules/@scope" = "@scope/undefined".
Proof.
  assert (Hfree : ∀ l, Forall (fun x => x ≠ "node_modules") l →
                       "node_modules" ∉ l).
  { intros l Hl Hin. rewrite Forall_forall in Hl. by apply (Hl _ Hin). }
  split; [|split].
  - refine (proj1 (extractModuleName_located
                     "/app/node_modules/@scope/pkg/build/Release/binding.node"
                     [EmptyString; "app"]
                     ["pkg"; "build"; "Release"; "binding.node"]
                     "@scope" eq_refl _)).
    apply Hfree. repeat constructor; discriminate.
  - refine (proj1 (extractModuleName_located
                     "C:\app\node_modules\bcrypt\lib\binding.node"
                     ["C:"; "app"] ["lib"; "binding.node"]
                     "bcrypt" eq_refl _)).
    apply Hfree. repeat constructor; discriminate.
  - refine (proj1 (extractModuleName_located "/app/node_modules/@scope"
                     [EmptyString; "app"] [] "@scope" eq_refl _)).
    apply Hfree. repeat constructor; discriminate.
Defined.

(** ** The commands planned for the drifts the comparator reports *)

Lemma split_on_nonempty sep s : split_on sep s ≠ [].
Proof.
  destruct s as [|c s]; simpl; [done|].
  case_bool_decide; [done|]. by destruct (split_on sep s).
Qed.

Lemma head_split_on_append sep a b :
  head (split_on sep (a +:+ String sep b)) = head (split_on sep a).
Proof.
  induction a as [|c a IH]; simpl.
  - by rewrite bool_decide_eq_true_2.
  - case_bool_decide; [done|].
    destruct (split_on sep (a +:+ String sep b)) eqn:E1,
             (split_on sep a) eqn:E2; simpl in *;
      first [ by apply split_on_nonempty in E1
            | by apply split_on_nonempty in E2
            | by injection IH as -> ].
Qed.

Lemma split_on_dot_free s : dot_free s = true → split_on "."%char s = [s].
Proof.
  unfold dot_free. induction s as [|c s IH]; simpl; [done|].
  intros H. apply andb_true_iff in H as [Hc Hs].
  apply negb_true_iff in Hc. rewrite Hc. by rewrite IH.
Qed.

Lemma before_dot_dot_free s : dot_free s = true → before_dot s = s.
Proof. intros H. unfold before_dot. by rewrite split_on_dot_free. Qed.

Lemma native_field_name name :
  tpl (split_on "."%char ("native." +:+ name) !! 1) = before_dot name.
Proof.
  unfold before_dot.
  change (split_on "."%char ("native." +:+ name))
    with ("native" :: split_on "."%char name).
  simpl.
  destruct (split_on "." name) eqn:E; [by apply split_on_nonempty in E|done].
Qed.

Lemma native_field_name_suffix name suffix :
  tpl (split_on "."%char ("native." +:+ name +:+ String "."%char suffix) !! 1)
  = before_dot name.
Proof.
  unfold before_dot.
  change (split_on "."%char ("native." +:+ name +:+ String "."%char suffix))
    with ("native" :: split_on "."%char (name +:+ String "."%char suffix)).
  simpl.
  pose proof (head_split_on_append "."%char name suffix) as H.
  destruct (split_on "." (name +:+ String "." suffix)) eqn:E1;
    [by apply split_on_nonempty in E1|].
  destruct (split_on "." name) eqn:E2; [by apply split_on_nonempty in E2|].
  simpl in *. by injection H as ->.
Qed.

Lemma compareLocalModule_rebuild remote m :
  Forall (fun d => category d = CBinary
                   ∧ command_for d
                     = Some ("npm rebuild " +:+ before_dot (nm_name m)))
         (compareLocalModule remote m).
Proof.
  unfold compareLocalModule.
  destruct (List.find _ remote) as [rm|].
  - repeat apply Forall_app_2;
      (case_bool_decide; simpl; [constructor|]);
      (constructor; [|constructor]); (split; [done|]);
      unfold command_for; cbn [category field];
      by rewrite (native_field_name_suffix (nm_name m)).
  - constructor; [|constructor]. split; [done|].
    unfold command_for. cbn [category field]. by rewrite native_field_name.
Qed.

Lemma compareRemoteModule_rebuild local m :
  Forall (fun d => category d = CBinary
                   ∧ command_for d
                     = Some ("npm rebuild " +:+ before_dot (nm_name m)))
         (compareRemoteModule local m).
Proof.
  unfold compareRemoteModule.
  destruct (List.find _ local) as [lm|]; [constructor|].
  constructor; [|constructor]. split; [done|].
  unfold command_for. cbn [category field]. by rewrite native_field_name.
Qed.

(** X27: for every drift the binary sub-comparison reports, a real run of
    [sync] issues [npm rebuild] for the name of the module concerned cut at
    its first dot: the whole name when it holds no dot. *)
Theorem native_drift_rebuild (l r : list NativeModuleInfo) :
  Forall (fun d =>
            ∃ m, m ∈ l ++ r
                 ∧ category d = CBinary
                 ∧ command_for d
                   = Some ("npm rebuild " +:+ before_dot (nm_name m))
                 ∧ (dot_free (nm_name m) = true →
                    command_for d = Some ("npm rebuild " +:+ nm_name m)))
         (compareNativeModules l r).
Proof.
  assert (Hstep : ∀ (f : NativeModuleInfo → list Drift) ms,
            (∀ m, Forall (fun d => category d = CBinary
                                   ∧ command_for d
                                     = Some ("npm rebuild "
                                               +:+ before_dot (nm_name m)))
                         (f m)) →
            Forall (fun d =>
                      ∃ m, m ∈ ms
                           ∧ category d = CBinary
                           ∧ command_for d
                             = Some ("npm rebuild " +:+ before_dot (nm_name m))
                           ∧ (dot_free (nm_name m) = true →
                              command_for d
                              = Some ("npm rebuild " +:+ nm_name m)))
                   (flat_map f ms)).
  { intros f ms Hf. apply Forall_forall. intros d Hd.
    apply list_elem_of_In, in_flat_map in Hd as (m & Hm & Hd).
    apply list_elem_of_In in Hm, Hd.
    specialize (Hf m). rewrite Forall_forall in Hf.
    destruct (Hf d Hd) as [Hc Hcmd].
    exists m. repeat split; try done.
    intros Hfree. by rewrite Hcmd, before_dot_dot_free. }
  unfold compareNativeModules. apply Forall_app_2.
  - eapply Forall_impl; [apply (Hstep _ l), compareLocalModule_rebuild|].
    intros d (m & Hm & H). exists m. split; [|done].
    apply elem_of_app. by left.
  - eapply Forall_impl; [apply (Hstep _ r), compareRemoteModule_rebuild|].
    intros d (m & Hm & H). exists m. split; [|done].
    apply elem_of_app. by right.
Qed.










(** X29: the commands planned for the drifts of the container
    sub-comparison: one [docker pull] per image tag declared remotely only
    (and not the empty tag), in remote first-seen order; a differing engine
    version and the images present locally only plan no command. *)
Theorem docker_drift_commands (l r : EnvironmentSnapshot) :
  omap command_for (compareDocker l r)
  = map (fun tag => "docker pull " +:+ tag)
        (List.filter (fun tag => negb (bool_decide (tag = EmptyString)))
                     (missingImages (compareDockerConfigs (docker l) (docker r)))).
Proof.
  unfold compareDocker. cbv zeta. rewrite !omap_app.
  set (c := compareDockerConfigs (docker l) (docker r)).
  assert (H1 : omap command_for
                 (if versionMismatch c
                  then [ {| category := CDocker; severity := SMedium;
                            field := "docker.version";
                            local := of_nullable (dk_version (docker l));
                            remote := of_nullable (dk_version (docker r));
                            impact := "Docker version mismatch - behavior may differ";
                            recommendation :=
                              "Update Docker to "
                                +:+ tpl_null (dk_version (docker r)) |} ]
                  else []) = []).
  { by destruct (versionMismatch c). }
  rewrite H1. clear H1. rewrite app_nil_l.
  assert (H3 : ∀ tags, omap command_for
                 (map (fun image =>
                         {| category := CDocker; severity := SLow;
                            field := "docker.image." +:+ image;
                            local := VString image; remote := VUndefined;
                            impact := "Extra Docker image not in remote";
                            recommendation :=
                              "Remove image or add to remote: " +:+ image |})
                      tags) = []).
  { induction tags as [|tag tags IH]; [done|].
    cbn [map omap list_omap]. unfold command_for at 1. cbn [category field remote].
    unfold startsWith. rewrite prefix_append. simpl. exact IH. }
  rewrite H3, app_nil_r. clear H3.
  generalize (missingImages c). intros tags.
  induction tags as [|tag tags IH]; [done|].
  cbn [map omap list_omap List.filter].
  unfold command_for at 1. cbn [category field remote].
  unfold startsWith. rewrite prefix_append. simpl.
  destruct (bool_decide (tag = EmptyString)); simpl.
  - exact IH.
  - by rewrite <- IH.
Qed.

(** ** Severity and impact of a version drift *)

(** X30: the severity and the impact text of a dependency version drift
    always tell the same story: the text announces a major change exactly
    when the severity is "high" and a patch change exactly when it is "low";
    in every other case (a minor change, or a range that is not a plain
    version) the severity is "medium".  The Node.js classifier is the
    dependency classifier applied to the two version strings. *)
Theorem severity_matches_impact parse (pkg : string) (l r : option string)
    (lv rv : string) :
  let text := describeVersionImpact parse pkg l r in
  assessVersionDrift parse l r
  = (if startsWith text "Major version change (" then SHigh
     else if startsWith text "Patch version change (" then SLow
     else SMedium)
  ∧ assessNodeVersionDrift parse lv rv
    = assessVersionDrift parse (Some lv) (Some rv).
Proof.
  intros text. subst text. split; [|reflexivity].
  unfold assessVersionDrift, describeVersionImpact, startsWith.
  destruct (parse_version parse l) as [a|], (parse_version parse r) as [b|];
    try reflexivity.
  destruct (negb (bool_decide (major a = major b))).
  - by rewrite (prefix_append "Major version change (").
  - destruct (negb (bool_decide (minor a = minor b))).
    + reflexivity.
    + by rewrite (prefix_append "Patch version change (").
Qed.
